(** * verdaccio-offline: the dependency snapshotter and the batch publisher

    A shallow embedding of the two command-line scripts of the repository:

    - the snapshotter (walks [node_modules], deduplicates the packages it
      finds and runs [npm pack] for every one whose archive is missing);
    - the publisher [publish.cjs] (decodes archive file names back into
      package identities, asks the registry whether each is published and
      runs [npm publish] for the others).

    JavaScript strings are modelled by [string]; every character the scripts
    inspect (['-'], ['.'], ['@'], ['/'], digits, letters) is ASCII.  The file
    system, the child processes and [path] are the host: they are fields of
    the record [Host], so every statement holds for all hosts. *)

From Stdlib Require Import String Ascii List Arith Lia Bool Sorted.
From stdpp Require Import base gmap sets strings.

#[local] Set Warnings "-clear-no-such-hyp".

Local Open Scope list_scope.

(** ** The string methods the scripts call *)

Module Js.

(** [s.includes(sub)] *)
Fixpoint includes (s sub : string) : bool :=
  String.prefix sub s ||
  match s with
  | EmptyString => false
  | String _ s' => includes s' sub
  end.

(** [s.startsWith(p)] and [s.endsWith(p)] *)
Definition startsWith (s p : string) : bool := String.prefix p s.

Definition endsWith (s p : string) : bool :=
  Nat.leb (String.length p) (String.length s) &&
  String.eqb (substring (String.length s - String.length p) (String.length p) s) p.

(** [s.split(sep)] for a one-character separator *)
Fixpoint split (s : string) (sep : ascii) : list string :=
  match s with
  | EmptyString => [EmptyString]
  | String c s' =>
      if Ascii.eqb c sep then EmptyString :: split s' sep
      else match split s' sep with
           | h :: t => String c h :: t
           | [] => [String c EmptyString]
           end
  end.

(** [parts.join(sep)] *)
Definition join (parts : list string) (sep : string) : string :=
  String.concat sep parts.

(** [s.replace(pat, rep)] for a one-character string pattern: only the
    first occurrence is replaced. *)
Fixpoint replace (s : string) (pat : ascii) (rep : string) : string :=
  match s with
  | EmptyString => EmptyString
  | String c s' =>
      if Ascii.eqb c pat then rep +:+ s' else String c (replace s' pat rep)
  end.

(** [s.substring(0, n)] *)
Definition substring0 (s : string) (n : nat) : string := substring 0 n s.

(** the tail of [s] from index [n] on *)
Fixpoint drop (n : nat) (s : string) : string :=
  match n, s with
  | 0, _ => s
  | S _, EmptyString => EmptyString
  | S n', String _ s' => drop n' s'
  end.

(** White space for [trim]; code units above 255 are outside the model. *)
Definition is_white (c : ascii) : bool :=
  match nat_of_ascii c with
  | 9 | 10 | 11 | 12 | 13 | 32 | 160 => true
  | _ => false
  end.

Fixpoint trimStart (s : string) : string :=
  match s with
  | EmptyString => EmptyString
  | String c s' => if is_white c then trimStart s' else s
  end.

Fixpoint trimEnd (s : string) : string :=
  match s with
  | EmptyString => EmptyString
  | String c s' =>
      match trimEnd s' with
      | EmptyString => if is_white c then EmptyString else String c EmptyString
      | t => String c t
      end
  end.

(** [s.trim()] *)
Definition trim (s : string) : string := trimEnd (trimStart s).

(** [a || b] on a string that may be [undefined]: the empty string is
    falsy as well. *)
Definition or_default (a : option string) (b : string) : string :=
  match a with
  | Some s => if String.eqb s EmptyString then b else s
  | None => b
  end.

End Js.

(** ** Regular expressions

    The two regular expressions of [publish.cjs] end in [$] and have no
    flags.  [re] is the syntax, [matches] decides by derivatives whether a
    whole string belongs to an expression, and [search_end] is what
    [String.prototype.match] and [replace] do with an expression that ends in
    [$]: the leftmost index from which the rest of the input matches. *)

Module Regex.

Inductive re : Type :=
| Void
| Eps
| Cls (p : ascii → bool)
| Seq (r1 r2 : re)
| Alt (r1 r2 : re)
| Star (r : re).

Definition Plus (r : re) : re := Seq r (Star r).
Definition Opt (r : re) : re := Alt r Eps.
Definition Chr (c : ascii) : re := Cls (Ascii.eqb c).

Fixpoint nullable (r : re) : bool :=
  match r with
  | Void => false
  | Eps => true
  | Cls _ => false
  | Seq r1 r2 => nullable r1 && nullable r2
  | Alt r1 r2 => nullable r1 || nullable r2
  | Star _ => true
  end.

Fixpoint deriv (c : ascii) (r : re) : re :=
  match r with
  | Void => Void
  | Eps => Void
  | Cls p => if p c then Eps else Void
  | Seq r1 r2 =>
      if nullable r1 then Alt (Seq (deriv c r1) r2) (deriv c r2)
      else Seq (deriv c r1) r2
  | Alt r1 r2 => Alt (deriv c r1) (deriv c r2)
  | Star r' => Seq (deriv c r') (Star r')
  end.

Fixpoint matches (r : re) (s : string) : bool :=
  match s with
  | EmptyString => nullable r
  | String c s' => matches (deriv c r) s'
  end.

(** Leftmost start index of a match that reaches the end of the input. *)
Fixpoint search_end (r : re) (s : string) : option nat :=
  if matches r s then Some 0
  else match s with
       | EmptyString => None
       | String _ s' => option_map S (search_end r s')
       end.

(** Character classes: [\d], [[a-zA-Z0-9.]]. *)
Definition between (lo hi c : ascii) : bool :=
  Nat.leb (nat_of_ascii lo) (nat_of_ascii c) && Nat.leb (nat_of_ascii c) (nat_of_ascii hi).

Definition digit (c : ascii) : bool := between "0" "9" c.

Definition alnum_dot (c : ascii) : bool :=
  between "a" "z" c || between "A" "Z" c || between "0" "9" c || Ascii.eqb c ".".

(** [\d+\.\d+\.\d+] *)
Definition triple_re : re :=
  Seq (Plus (Cls digit))
    (Seq (Chr ".") (Seq (Plus (Cls digit)) (Seq (Chr ".") (Plus (Cls digit))))).

(** [\d+\.\d+\.\d+(?:-[a-zA-Z0-9.]+)?], the capture group of line 42 *)
Definition version_re : re :=
  Seq triple_re (Opt (Seq (Chr "-") (Plus (Cls alnum_dot)))).

(** [/-(\d+\.\d+\.\d+(?:-[a-zA-Z0-9.]+)?)$/] without its anchor *)
Definition hyphen_version_re : re := Seq (Chr "-") version_re.

(** [/\.tgz$/] without its anchor *)
Definition dot_tgz_re : re :=
  Seq (Chr ".") (Seq (Chr "t") (Seq (Chr "g") (Chr "z"))).

End Regex.

(** ** Package identities *)

Record PackageInfo : Type := mkPackageInfo { name : string; version : string }.

(** The composite key [`${name}@${version}`]. *)
Definition packageKey (p : PackageInfo) : string := name p +:+ "@" +:+ version p.

(** ** The file name codec *)

(** [extractPackageInfo] of [publish.cjs] (lines 37-64). *)
Definition extractPackageInfo (tgzFileName : string) : option PackageInfo :=
  let baseName :=
    match Regex.search_end Regex.dot_tgz_re tgzFileName with
    | Some i => Js.substring0 tgzFileName i
    | None => tgzFileName
    end in
  match Regex.search_end Regex.hyphen_version_re baseName with
  | None => None
  | Some i =>
      (* versionMatch[1]: the group runs from behind the hyphen to the end *)
      let version := Js.drop (S i) baseName in
      let nameWithHyphen :=
        Js.substring0 baseName (String.length baseName - String.length version - 1) in
      let name :=
        if Js.includes nameWithHyphen "-" then
          let parts := Js.split nameWithHyphen "-" in
          if Nat.leb 2 (length parts) && negb (Js.includes (hd EmptyString parts) ".") then
            "@" +:+ hd EmptyString parts +:+ "/" +:+ Js.join (tl parts) "-"
          else nameWithHyphen
        else nameWithHyphen in
      Some (mkPackageInfo name version)
  end.

(** [getPossiblePackageFilenames] of the snapshotter (lines 145-154). *)
Definition getPossiblePackageFilenames (name version : string) : list string :=
  let normalizedName := Js.replace (Js.replace name "@" EmptyString) "/" "-" in
  let nameWithoutScope :=
    if Js.includes name "/" then nth 1 (Js.split name "/") EmptyString else name in
  [ normalizedName +:+ "-" +:+ version +:+ ".tgz";
    nameWithoutScope +:+ "-" +:+ version +:+ ".tgz";
    Js.replace (Js.replace name "@" EmptyString) "/" "-" +:+ "-" +:+ version +:+ ".tgz" ].

(** ** The host

    A call into Node either returns or throws an error with a message. *)

Inductive completion (A : Type) : Type :=
| Normal (a : A)
| Throw (message : string).
Arguments Normal {A} a.
Arguments Throw {A} message.

(** What [JSON.parse] gives for a [package.json]: the two fields
    [getPackageInfo] reads, taken to be strings when present, and the key
    lists of the two dependency objects that [main] counts. *)
Record PackageJson : Type := mkPackageJson {
  json_name : option string;
  json_version : option string;
  json_dependencies : option (list string);
  json_devDependencies : option (list string)
}.

(** The record written to [packages-summary.json]. *)
Record Summary : Type := mkSummary {
  totalPackages : nat;
  directDependencies : nat;
  devDependencies : nat;
  generatedAt : string;
  summaryPackages : list PackageInfo
}.

(** The host: [path], [fs], [child_process] and [String.prototype.localeCompare]
    over an abstract state of the outside world (disk and registry).  Reads
    leave the world as it is; writes and child processes return the next
    one.  Writing to the console and appending to the two log files are kept
    in the event trace of a run and are taken not to fail. *)
Record Host : Type := mkHost {
  World : Type;
  path_join : string → string → string;
  path_resolve : string → string;
  process_cwd : string;
  localeCompare : string → string → Z;
  existsSync : World → string → bool;
  readdirSync : World → string → completion (list string);
  (* fs.statSync(p).isDirectory() *)
  isDirectory : World → string → completion bool;
  (* JSON.parse(fs.readFileSync(p, 'utf8')) *)
  readJson : World → string → completion PackageJson;
  mkdirSync : World → string → World * completion unit;
  unlinkSync : World → string → World * completion unit;
  writeSummary : World → string → Summary → World * completion unit;
  (* execSync(command, {cwd}) and the promisified exec(command) *)
  exec : World → string → option string → World * completion string
}.

(** ** The snapshotter *)

Module Snapshotter.

Inductive Msg : Type :=
| MsgCreatedDir (dirPath : string)
| MsgMaxDepth (maxDepth : nat)
| MsgNodeModulesMissing
| MsgNamespaceError (namespacePath message : string)
| MsgDirError (nodeModulesPath message : string)
| MsgSkip (current total : nat) (name version : string)
| MsgProcessing (current total : nat) (name version : string)
| MsgCreated (current total : nat) (output : string)
| MsgCreateFailed (current total : nat) (name version message : string)
| MsgNoProjectJson
| MsgProjectJsonError (message : string)
| MsgBanner
| MsgStartTime (t : string)
| MsgUser
| MsgDirectDeps (deps devDeps : nat)
| MsgReading
| MsgNoPackages
| MsgSummaryWritten (n : nat)
| MsgStartCreating (n : nat)
| MsgTotalsHeader
| MsgTotal (n : nat)
| MsgSuccess (n : nat)
| MsgSkipped (n : nat)
| MsgFailed (n : nat)
| MsgSeeErrorLog
| MsgEndTime.

Inductive Event : Type :=
| ConsoleLog (m : Msg)
| ConsoleError (m : Msg)
(* logError: a line appended to error.log and printed on stderr *)
| LogError (m : Msg)
(* a call of getPackageInfo made by the walk at the given depth *)
| ReadManifest (depth : nat) (packageJsonPath : string) (info : option PackageInfo)
| Mkdir (dirPath : string)
| Unlink (filePath : string)
| WriteFile (filePath : string) (content : Summary)
| ExecSync (command cwd : string).

(** The [npm pack] commands of a trace and the files it wrote. *)
Definition createCommands (l : list Event) : list string :=
  flat_map (fun e => match e with ExecSync command _ => [command] | _ => [] end) l.

Definition filesWritten (l : list Event) : list string :=
  flat_map (fun e => match e with WriteFile filePath _ => [filePath] | _ => [] end) l.

(** What a call of [getAllPackages] leaves behind: the array it returns,
    the shared set as the call left it, and the events of the call. *)
Record Walk : Type := mkWalk {
  packages : list PackageInfo;
  processedPackages : gset string;
  events : list Event
}.

Definition emit (e : Event) (st : Walk) : Walk :=
  mkWalk (packages st) (processedPackages st) (events st ++ [e]).

Section WithHost.
Context (H : Host).

(** [getPackageInfo] (lines 34-46) *)
Definition getPackageInfo (w : World H) (packageJsonPath : string) : option PackageInfo :=
  match readJson H w packageJsonPath with
  | Normal packageJson =>
      Some (mkPackageInfo (Js.or_default (json_name packageJson) "unknown")
                          (Js.or_default (json_version packageJson) "unknown"))
  | Throw _ => None
  end.

(** A [for ... of] loop whose body may throw: the state changes made
    before the throw stay.  [None] is a walk that ran out of fuel. *)
Fixpoint forOf (body : string → Walk → option (Walk * option string))
    (entries : list string) (st : Walk) : option (Walk * option string) :=
  match entries with
  | [] => Some (st, None)
  | entry :: rest =>
      match body entry st with
      | None => None
      | Some (st', Some message) => Some (st', Some message)
      | Some (st', None) => forOf body rest st'
      end
  end.

(** One candidate package directory: lines 83-102 for an entry of a
    namespace and, word for word, lines 110-129 for a plain entry.
    [nested] is the recursive call at [depth + 1]. *)
Definition visitPackage (w : World H)
    (nested : string → gset string → option Walk) (depth : nat)
    (parentPath entry : string) (st : Walk) : option (Walk * option string) :=
  let packagePath := path_join H parentPath entry in
  match isDirectory H w packagePath with
  | Throw message => Some (st, Some message)
  | Normal false => Some (st, None)
  | Normal true =>
      let packageJsonPath := path_join H packagePath "package.json" in
      let packageInfo := getPackageInfo w packageJsonPath in
      let st := emit (ReadManifest depth packageJsonPath packageInfo) st in
      match packageInfo with
      | None => Some (st, None)
      | Some info =>
          let packageKey := packageKey info in
          if decide (packageKey ∈ processedPackages st) then Some (st, None)
          else
            let st := mkWalk (packages st ++ [info])
                             ({[packageKey]} ∪ processedPackages st) (events st) in
            let nestedNodeModules := path_join H packagePath "node_modules" in
            if existsSync H w nestedNodeModules then
              match nested nestedNodeModules (processedPackages st) with
              | None => None
              | Some nestedPackages =>
                  Some (mkWalk (packages st ++ packages nestedPackages)
                               (processedPackages nestedPackages)
                               (events st ++ events nestedPackages), None)
              end
            else Some (st, None)
      end
  end.

(** An entry that starts with [@] (lines 76-107). *)
Definition visitNamespace (w : World H)
    (nested : string → gset string → option Walk) (depth : nat)
    (nodeModulesPath entry : string) (st : Walk) : option (Walk * option string) :=
  let namespacePath := path_join H nodeModulesPath entry in
  match isDirectory H w namespacePath with
  | Throw message => Some (st, Some message)
  | Normal false => Some (st, None)
  | Normal true =>
      match readdirSync H w namespacePath with
      | Throw message =>
          Some (emit (LogError (MsgNamespaceError namespacePath message)) st, None)
      | Normal namespaceEntries =>
          match forOf (visitPackage w nested depth namespacePath) namespaceEntries st with
          | None => None
          | Some (st', Some message) =>
              Some (emit (LogError (MsgNamespaceError namespacePath message)) st', None)
          | Some (st', None) => Some (st', None)
          end
      end
  end.

(** The body of the loop over the entries of [node_modules]. *)
Definition visitEntry (w : World H)
    (nested : string → gset string → option Walk) (depth : nat)
    (nodeModulesPath entry : string) (st : Walk) : option (Walk * option string) :=
  if Js.startsWith entry "@" then visitNamespace w nested depth nodeModulesPath entry st
  else if negb (String.eqb entry ".bin") && negb (String.eqb entry ".cache")
          && negb (String.eqb entry ".package-lock.json")
  then visitPackage w nested depth nodeModulesPath entry st
  else Some (st, None).

(** [getAllPackages] (lines 55-137).  The call recurses with
    [depth + 1]; [fuel] bounds the nesting of calls. *)
Fixpoint getAllPackages (fuel : nat) (w : World H) (nodeModulesPath : string)
    (processedPackages : gset string) (depth maxDepth : nat) : option Walk :=
  match fuel with
  | 0 => None
  | S fuel' =>
      if Nat.ltb maxDepth depth then
        Some (mkWalk [] processedPackages [ConsoleLog (MsgMaxDepth maxDepth)])
      else if negb (existsSync H w nodeModulesPath) then
        Some (mkWalk [] processedPackages
                (if Nat.eqb depth 0 then [ConsoleError MsgNodeModulesMissing] else []))
      else
        match readdirSync H w nodeModulesPath with
        | Throw message =>
            Some (mkWalk [] processedPackages
                    [LogError (MsgDirError nodeModulesPath message)])
        | Normal entries =>
            match forOf (visitEntry w
                           (fun path processed =>
                              getAllPackages fuel' w path processed (depth + 1) maxDepth)
                           depth nodeModulesPath)
                    entries (mkWalk [] processedPackages []) with
            | None => None
            | Some (st, Some message) =>
                Some (emit (LogError (MsgDirError nodeModulesPath message)) st)
            | Some (st, None) => Some st
            end
        end
  end.

(** The defaults of the parameters: [new Set()], [0] and [10]. *)
Definition defaultMaxDepth : nat := 10.

Definition getAllPackages0 (w : World H) (nodeModulesPath : string) : option Walk :=
  getAllPackages (defaultMaxDepth + 2) w nodeModulesPath ∅ 0 defaultMaxDepth.

(** [isPackageAlreadyDownloaded] (lines 163-174) *)
Definition isPackageAlreadyDownloaded (w : World H)
    (name version outputDir : string) : bool :=
  existsb (fun filename => existsSync H w (path_join H outputDir filename))
          (getPossiblePackageFilenames name version).

(** The state of a run of [main]: the world, the events so far and the
    three counters. *)
Record Run : Type := mkRun {
  world : World H;
  trace : list Event;
  successCount : nat;
  failCount : nat;
  skippedCount : nat
}.

Definition say (e : Event) (r : Run) : Run :=
  mkRun (world r) (trace r ++ [e]) (successCount r) (failCount r) (skippedCount r).

Definition setWorld (w : World H) (r : Run) : Run :=
  mkRun w (trace r) (successCount r) (failCount r) (skippedCount r).

(** [createPackageFile] (lines 184-207) *)
Definition createPackageFile (packageInfo : PackageInfo) (outputDir : string)
    (current total : nat) (r : Run) : Run * bool :=
  let name := name packageInfo in
  let version := version packageInfo in
  if isPackageAlreadyDownloaded (world r) name version outputDir then
    (say (ConsoleLog (MsgSkip current total name version)) r, true)
  else
    let r := say (ConsoleLog (MsgProcessing current total name version)) r in
    let command := "npm pack " +:+ name +:+ "@" +:+ version in
    let r := say (ExecSync command outputDir) r in
    match exec H (world r) command (Some outputDir) with
    | (w', Normal output) =>
        (say (ConsoleLog (MsgCreated current total (Js.trim output))) (setWorld w' r), true)
    | (w', Throw message) =>
        (say (LogError (MsgCreateFailed current total name version message))
             (setWorld w' r), false)
    end.

(** [getProjectDirectDependencies] (lines 213-233): [None] is the empty
    object [{}], which has no [dependencies] property. *)
Definition getProjectDirectDependencies (r : Run)
    : Run * option (list string * list string) :=
  let projectPackageJsonPath := path_join H (process_cwd H) "package.json" in
  if negb (existsSync H (world r) projectPackageJsonPath) then
    (say (ConsoleLog MsgNoProjectJson) r, None)
  else
    match readJson H (world r) projectPackageJsonPath with
    | Normal packageJson =>
        (r, Some (default [] (json_dependencies packageJson),
                  default [] (json_devDependencies packageJson)))
    | Throw message => (say (LogError (MsgProjectJsonError message)) r, None)
    end.

(** [new Map(pairs)]: a key keeps the place of its first pair and the
    value of its last. *)
Fixpoint mapSet (m : list (string * PackageInfo)) (key : string) (value : PackageInfo)
    : list (string * PackageInfo) :=
  match m with
  | [] => [(key, value)]
  | (k, v) :: m' =>
      if String.eqb k key then (k, value) :: m' else (k, v) :: mapSet m' key value
  end.

Definition newMap (pairs : list (string * PackageInfo)) : list (string * PackageInfo) :=
  fold_left (fun m kv => mapSet m (fst kv) (snd kv)) pairs [].

(** [Array.prototype.sort] is stable; an insertion sort is. *)
Fixpoint insertSorted (cmp : PackageInfo → PackageInfo → Z) (x : PackageInfo)
    (l : list PackageInfo) : list PackageInfo :=
  match l with
  | [] => [x]
  | y :: l' => if Z.ltb (cmp y x) 0 then y :: insertSorted cmp x l' else x :: l
  end.

Definition sort (cmp : PackageInfo → PackageInfo → Z) (l : list PackageInfo)
    : list PackageInfo :=
  fold_right (insertSorted cmp) [] l.

(** Lines 270-272 *)
Definition uniquePackages (packages : list PackageInfo) : list PackageInfo :=
  sort (fun a b => localeCompare H (name a) (name b))
       (map snd (newMap (map (fun pkg => (packageKey pkg, pkg)) packages))).

(** The callback of [uniquePackages.forEach] (lines 294-308) *)
Definition forEachBody (outputDir : string) (total : nat) (r : Run)
    (index : nat) (pkg : PackageInfo) : Run :=
  if isPackageAlreadyDownloaded (world r) (name pkg) (version pkg) outputDir then
    let r := say (ConsoleLog (MsgSkip (index + 1) total (name pkg) (version pkg))) r in
    mkRun (world r) (trace r) (successCount r + 1) (failCount r) (skippedCount r + 1)
  else
    let '(r, success) := createPackageFile pkg outputDir (index + 1) total r in
    if success
    then mkRun (world r) (trace r) (successCount r + 1) (failCount r) (skippedCount r)
    else mkRun (world r) (trace r) (successCount r) (failCount r + 1) (skippedCount r).

Fixpoint forEach (body : Run → nat → PackageInfo → Run) (index : nat)
    (l : list PackageInfo) (r : Run) : Run :=
  match l with
  | [] => r
  | pkg :: l' => forEach body (index + 1) l' (body r index pkg)
  end.

Definition currentDateTime : string := "2025-04-27 10:29:54".

(** [createDirIfNotExists] (lines 11-16) *)
Definition createDirIfNotExists (dirPath : string) (r : Run) : Run * completion unit :=
  if negb (existsSync H (world r) dirPath) then
    let '(w', res) := mkdirSync H (world r) dirPath in
    let r := setWorld w' (say (Mkdir dirPath) r) in
    match res with
    | Normal _ => (say (ConsoleLog (MsgCreatedDir dirPath)) r, Normal ())
    | Throw message => (r, Throw message)
    end
  else (r, Normal ()).

(** [main] is not inside a [try]: an error that escapes ends the process.
    [mainSetup] is the part of [main] before the walk (lines 239-261); it
    ends with the key lists of the direct and the development dependencies,
    or with the error that escaped. *)
Definition mainSetup (w : World H) : Run * completion (list string * list string) :=
  let r := mkRun w [] 0 0 0 in
  let r := say (ConsoleLog MsgBanner) r in
  let r := say (ConsoleLog (MsgStartTime currentDateTime)) r in
  let r := say (ConsoleLog MsgUser) r in
  let outputDir := path_join H (process_cwd H) "pkg" in
  match createDirIfNotExists outputDir r with
  | (r, Throw message) => (r, Throw message)
  | (r, Normal _) =>
      let '(r, reset) :=
        if existsSync H (world r) "error.log" then
          let '(w', res) := unlinkSync H (world r) "error.log" in
          (setWorld w' (say (Unlink "error.log") r), res)
        else (r, Normal ()) in
      match reset with
      | Throw message => (r, Throw message)
      | Normal _ =>
          let '(r, directDeps) := getProjectDirectDependencies r in
          match directDeps with
          | None =>
              (* Object.keys(directDeps.dependencies) on the empty object *)
              (r, Throw "Cannot convert undefined or null to object")
          | Some (dependencies, devDependencies) =>
              let r := say (ConsoleLog (MsgDirectDeps (length dependencies)
                                                      (length devDependencies))) r in
              (say (ConsoleLog MsgReading) r, Normal (dependencies, devDependencies))
          end
      end
  end.

(** [mainWalk] is the rest of [main] (lines 262-322).  [None] is a walk
    out of fuel. *)
Definition mainWalk (r : Run) (dependencies devDependencies : list string)
    : option (Run * completion unit) :=
  let nodeModulesPath := path_join H (process_cwd H) "node_modules" in
  let outputDir := path_join H (process_cwd H) "pkg" in
  match getAllPackages0 (world r) nodeModulesPath with
  | None => None
  | Some walk =>
      let r := mkRun (world r) (trace r ++ events walk) 0 0 0 in
      let packages := packages walk in
      if Nat.eqb (length packages) 0 then
        Some (say (ConsoleLog MsgNoPackages) r, Normal ())
      else
        let uniquePackages := uniquePackages packages in
        let summary :=
          mkSummary (length uniquePackages) (length dependencies) (length devDependencies)
                    currentDateTime uniquePackages in
        let '(w', res) := writeSummary H (world r) "packages-summary.json" summary in
        let r := setWorld w' (say (WriteFile "packages-summary.json" summary) r) in
        match res with
        | Throw message => Some (r, Throw message)
        | Normal _ =>
            let total := length uniquePackages in
            let r := say (ConsoleLog (MsgSummaryWritten total)) r in
            let r := say (ConsoleLog (MsgStartCreating total)) r in
            let r := forEach (forEachBody outputDir total) 0 uniquePackages r in
            let r := say (ConsoleLog MsgTotalsHeader) r in
            let r := say (ConsoleLog (MsgTotal total)) r in
            let r := say (ConsoleLog (MsgSuccess (successCount r))) r in
            let r := say (ConsoleLog (MsgSkipped (skippedCount r))) r in
            let r := say (ConsoleLog (MsgFailed (failCount r))) r in
            let r := if Nat.ltb 0 (failCount r) then say (ConsoleLog MsgSeeErrorLog) r else r in
            Some (say (ConsoleLog MsgEndTime) r, Normal ())
        end
  end.

(** [main] (lines 238-322) *)
Definition main (w : World H) : option (Run * completion unit) :=
  match mainSetup w with
  | (r, Throw message) => Some (r, Throw message)
  | (r, Normal (dependencies, devDependencies)) => mainWalk r dependencies devDependencies
  end.

End WithHost.

End Snapshotter.

(** ** The publisher, [publish.cjs] *)

Module Publisher.

Inductive Msg : Type :=
| MsgUsage
| MsgHeader (registry : string)
| MsgNoDirectory (tgzDir : string)
| MsgNoFiles
| MsgPreparing (n : nat) (registry : string)
| MsgSeparator
| MsgCannotParse (i n : nat) (file : string)
| MsgHandling (i n : nat) (name version : string)
| MsgSkip (i n : nat) (name version : string)
| MsgPublishing (i n : nat) (name version : string)
| MsgPublished (i n : nat) (name version : string)
| MsgPublishFailed (i n : nat) (name version : string)
| MsgErrorDetail (message : string)
| MsgStatsHeader
| MsgTotal (n : nat)
| MsgSuccess (n : nat)
| MsgSkipped (n : nat)
| MsgFailed (n : nat)
| MsgDone
| MsgFatal (message : string).

Inductive Event : Type :=
| ConsoleError (m : Msg)
(* log(message, toConsole): a line of publish-log.txt, echoed or not *)
| Log (m : Msg) (toConsole : bool)
(* the promisified exec of isPackagePublished *)
| ExecPromise (command : string)
| ExecSync (command : string).

(** The commands a trace ran with [execSync]: the publish commands. *)
Definition publishCommands (l : list Event) : list string :=
  flat_map (fun e => match e with ExecSync command => [command] | _ => [] end) l.

Section WithHost.
Context (H : Host).

Record Run : Type := mkRun {
  world : World H;
  trace : list Event;
  successCount : nat;
  failureCount : nat;
  skippedCount : nat
}.

Definition say (e : Event) (r : Run) : Run :=
  mkRun (world r) (trace r ++ [e]) (successCount r) (failureCount r) (skippedCount r).

Definition log (m : Msg) (r : Run) : Run := say (Log m true) r.

Definition setWorld (w : World H) (r : Run) : Run :=
  mkRun w (trace r) (successCount r) (failureCount r) (skippedCount r).

Definition viewCommand (packageName version registry : string) : string :=
  "npm view " +:+ packageName +:+ "@" +:+ version +:+ " version --registry=" +:+ registry.

(** The double quote that the command puts around the path. *)
Definition dquote : string := String (ascii_of_nat 34) EmptyString.

Definition publishCommand (filePath registry : string) : string :=
  "npm publish " +:+ dquote +:+ filePath +:+ dquote
    +:+ " --provenance=false --registry=" +:+ registry.

(** [isPackagePublished] (lines 67-76): the promise it returns, as a
    completion, next to the state after the query. *)
Definition isPackagePublished (packageName version registry : string) (r : Run)
    : Run * completion bool :=
  let command := viewCommand packageName version registry in
  let r := say (ExecPromise command) r in
  match exec H (world r) command None with
  | (w', Normal stdout) => (setWorld w' r, Normal (String.eqb (Js.trim stdout) version))
  | (w', Throw _) => (setWorld w' r, Normal false)
  end.

(** The body of the loop of [main] (lines 102-140) *)
Definition loopBody (tgzDir registry : string) (n : nat) (r : Run)
    (i : nat) (file : string) : Run :=
  let filePath := path_join H tgzDir file in
  match extractPackageInfo file with
  | None =>
      let r := log (MsgCannotParse (i + 1) n file) r in
      mkRun (world r) (trace r) (successCount r) (failureCount r + 1) (skippedCount r)
  | Some packageInfo =>
      let name := name packageInfo in
      let version := version packageInfo in
      let r := log (MsgHandling (i + 1) n name version) r in
      let failed (message : string) (r : Run) : Run :=
        let r := log (MsgPublishFailed (i + 1) n name version) r in
        let r := say (Log (MsgErrorDetail message) false) r in
        log MsgSeparator
          (mkRun (world r) (trace r) (successCount r) (failureCount r + 1) (skippedCount r)) in
      match isPackagePublished name version registry r with
      | (r, Throw message) => failed message r
      | (r, Normal true) =>
          let r := log (MsgSkip (i + 1) n name version) r in
          mkRun (world r) (trace r) (successCount r) (failureCount r) (skippedCount r + 1)
      | (r, Normal false) =>
          let r := log (MsgPublishing (i + 1) n name version) r in
          let command := publishCommand filePath registry in
          let r := say (ExecSync command) r in
          match exec H (world r) command None with
          | (w', Normal _) =>
              let r := log (MsgPublished (i + 1) n name version) (setWorld w' r) in
              log MsgSeparator
                (mkRun (world r) (trace r) (successCount r + 1) (failureCount r)
                       (skippedCount r))
          | (w', Throw message) => failed message (setWorld w' r)
          end
      end
  end.

Fixpoint loop (body : Run → nat → string → Run) (i : nat) (files : list string)
    (r : Run) : Run :=
  match files with
  | [] => r
  | file :: rest => loop body (i + 1) rest (body r i file)
  end.

(** [main] (lines 79-150) with the handler of line 153: the final state
    and the exit status of the process. *)
Definition main (tgzDir registry : string) (r : Run) : Run * nat :=
  if negb (existsSync H (world r) tgzDir) then
    (log (MsgNoDirectory tgzDir) r, 1)
  else
    match readdirSync H (world r) tgzDir with
    | Throw message => (log (MsgFatal message) r, 1)
    | Normal entries =>
        let files := List.filter (fun file => Js.endsWith file ".tgz") entries in
        if Nat.eqb (length files) 0 then
          (log MsgNoFiles r, 0)
        else
          let r := log (MsgPreparing (length files) registry) r in
          let r := log MsgSeparator r in
          let r := loop (loopBody tgzDir registry (length files)) 0 files r in
          let r := log MsgStatsHeader r in
          let r := log (MsgTotal (length files)) r in
          let r := log (MsgSuccess (successCount r)) r in
          let r := log (MsgSkipped (skippedCount r)) r in
          let r := log (MsgFailed (failureCount r)) r in
          (log MsgDone r, 0)
    end.

Definition defaultRegistry : string := "http://127.0.0.1:4873".

(** The script from its first line: [argv] is [process.argv.slice(2)]. *)
Definition script (argv : list string) (w : World H) : Run * nat :=
  let r := mkRun w [] 0 0 0 in
  match argv with
  | [] => (say (ConsoleError MsgUsage) r, 1)
  | arg0 :: rest =>
      let tgzDir := path_resolve H arg0 in
      let registry := Js.or_default (head rest) defaultRegistry in
      let r := say (Log (MsgHeader registry) false) r in
      main tgzDir registry r
  end.

End WithHost.

End Publisher.

(** ** Concrete hosts

    [TableHost] is a disk given by tables over full paths, with child
    processes that answer from a table of commands and leave the disk as it
    is.  [Endless] is a tree that never ends: every directory holds one
    package directory whose manifest carries its own path as the name. *)

Module TableHost.

Record Disk : Type := mkDisk {
  dirs : list (string * list string);
  files : list string;
  manifests : list (string * PackageJson)
}.

Fixpoint assoc {A : Type} (key : string) (table : list (string * A)) : option A :=
  match table with
  | [] => None
  | (k, v) :: rest => if String.eqb k key then Some v else assoc key rest
  end.

Definition member (key : string) (l : list string) : bool :=
  existsb (String.eqb key) l.

Definition join (a b : string) : string := a +:+ "/" +:+ b.

Definition compareNames (a b : string) : Z :=
  match String.compare a b with
  | Lt => (-1)%Z
  | Eq => 0%Z
  | Gt => 1%Z
  end.

Definition present (d : Disk) (p : string) : bool :=
  member p (map fst (dirs d)) || member p (files d) || member p (map fst (manifests d)).

Definition readdir (d : Disk) (p : string) : completion (list string) :=
  match assoc p (dirs d) with
  | Some entries => Normal entries
  | None => Throw "ENOENT"
  end.

Definition isDir (d : Disk) (p : string) : completion bool :=
  if member p (map fst (dirs d)) then Normal true
  else if present d p then Normal false
  else Throw "ENOENT".

Definition readManifest (d : Disk) (p : string) : completion PackageJson :=
  match assoc p (manifests d) with
  | Some json => Normal json
  | None => Throw "ENOENT"
  end.

Definition mkdir (d : Disk) (p : string) : Disk * completion unit :=
  (mkDisk ((p, []) :: dirs d) (files d) (manifests d), Normal ()).

Definition unlink (d : Disk) (p : string) : Disk * completion unit :=
  (mkDisk (dirs d) (List.filter (fun f => negb (String.eqb f p)) (files d)) (manifests d),
   Normal ()).

Definition write (d : Disk) (p : string) (s : Summary) : Disk * completion unit :=
  (mkDisk (dirs d) (p :: files d) (manifests d), Normal ()).

Definition run (responses : list (string * string)) (d : Disk) (command : string)
    (cwd : option string) : Disk * completion string :=
  match assoc command responses with
  | Some stdout => (d, Normal stdout)
  | None => (d, Throw "Command failed")
  end.

Definition host (responses : list (string * string)) : Host :=
  mkHost Disk join (fun p => p) "/proj" compareNames
         present readdir isDir readManifest mkdir unlink write (run responses).

Definition manifest (name version : string) : PackageJson :=
  mkPackageJson (Some name) (Some version) None None.

(** A project with [a@1.0.0] and [b@2.0.0] at the top and a second copy
    of [b@2.0.0] nested under [a]. *)
Definition nestedCopy : Disk :=
  mkDisk
    [ ("/proj/node_modules", ["a"; "b"]);
      ("/proj/node_modules/a", ["package.json"; "node_modules"]);
      ("/proj/node_modules/a/node_modules", ["b"]);
      ("/proj/node_modules/a/node_modules/b", ["package.json"]);
      ("/proj/node_modules/b", ["package.json"]) ]
    []
    [ ("/proj/package.json",
       mkPackageJson (Some "proj") (Some "0.1.0") (Some ["a"; "b"]) None);
      ("/proj/node_modules/a/package.json", manifest "a" "1.0.0");
      ("/proj/node_modules/a/node_modules/b/package.json", manifest "b" "2.0.0");
      ("/proj/node_modules/b/package.json", manifest "b" "2.0.0") ].

(** A project with a manifest and no [node_modules]. *)
Definition noNodeModules : Disk :=
  mkDisk [("/proj", ["package.json"])] []
         [("/proj/package.json", mkPackageJson (Some "proj") (Some "0.1.0") None None)].

(** An output directory that already holds the archive of [@scope/utils]. *)
Definition archived : Disk :=
  mkDisk [("/proj/pkg", ["scope-utils-2.3.4.tgz"])] ["/proj/pkg/scope-utils-2.3.4.tgz"] [].

(** The archive directory of the end-to-end example. *)
Definition twoArchives : Disk :=
  mkDisk [("/archives", ["left-pad-1.0.0.tgz"; "@scope-utils-2.3.4.tgz"])] [] [].

(** A directory that is empty: no [package.json], no [node_modules]. *)
Definition emptyProject : Disk := mkDisk [("/proj", [])] [] [].

(** An archive directory without archives. *)
Definition noArchives : Disk := mkDisk [("/archives", ["README.md"])] [] [].

Definition registryUrl : string := "http://127.0.0.1:4873".

Definition newline : string := String (ascii_of_nat 10) EmptyString.

(** A registry that holds [left-pad@1.0.0] and nothing else: the query for
    that identity prints its version, every other query fails; publishing
    the archive of [@scope/utils] succeeds and publishing the one of
    [left-pad], a version the registry has, is refused. *)
Definition leftPadOnly : list (string * string) :=
  [ (Publisher.viewCommand "left-pad" "1.0.0" registryUrl, "1.0.0" +:+ newline);
    (Publisher.publishCommand "/archives/@scope-utils-2.3.4.tgz" registryUrl, EmptyString) ].

(** An archive directory with names the decoder reads as they were meant,
    and a registry that holds [lodash@4.17.21] only. *)
Definition plainArchives : Disk :=
  mkDisk [("/archives", ["lodash-4.17.21.tgz"; "scope-utils-2.3.4.tgz"])] [] [].

Definition lodashOnly : list (string * string) :=
  [ (Publisher.viewCommand "lodash" "4.17.21" registryUrl, "4.17.21" +:+ newline);
    (Publisher.publishCommand "/archives/scope-utils-2.3.4.tgz" registryUrl, EmptyString) ].

End TableHost.

Module Endless.

Definition host : Host :=
  mkHost unit TableHost.join (fun p => p) "/proj" TableHost.compareNames
         (fun _ _ => true)
         (fun _ _ => Normal ["p"])
         (fun _ _ => Normal true)
         (fun _ p => Normal (mkPackageJson (Some p) (Some "1.0.0") None None))
         (fun w _ => (w, Normal ()))
         (fun w _ => (w, Normal ()))
         (fun w _ _ => (w, Normal ()))
         (fun w _ _ => (w, Throw "Command failed")).

End Endless.

(** A cycle: [node_modules/a/node_modules] is a link back to
    [node_modules], so every path leads to the one package [a@1.0.0]. *)
Module Cycle.

Definition host : Host :=
  mkHost unit TableHost.join (fun p => p) "/proj" TableHost.compareNames
         (fun _ _ => true)
         (fun _ _ => Normal ["a"])
         (fun _ _ => Normal true)
         (fun _ _ => Normal (TableHost.manifest "a" "1.0.0"))
         (fun w _ => (w, Normal ()))
         (fun w _ => (w, Normal ()))
         (fun w _ _ => (w, Normal ()))
         (fun w _ _ => (w, Throw "Command failed")).

End Cycle.

(** ** The notions the statements use *)

(** The strings of a regular expression. *)
Inductive lang : Regex.re → string → Prop :=
| lang_eps : lang Regex.Eps EmptyString
| lang_cls p c : p c = true → lang (Regex.Cls p) (String c EmptyString)
| lang_seq r1 r2 s1 s2 : lang r1 s1 → lang r2 s2 → lang (Regex.Seq r1 r2) (s1 +:+ s2)
| lang_alt_l r1 r2 s : lang r1 s → lang (Regex.Alt r1 r2) s
| lang_alt_r r1 r2 s : lang r2 s → lang (Regex.Alt r1 r2) s
| lang_star_nil r : lang (Regex.Star r) EmptyString
| lang_star_cons r s1 s2 :
    lang r s1 → lang (Regex.Star r) s2 → lang (Regex.Star r) (s1 +:+ s2).

Fixpoint all_chars (p : ascii → bool) (s : string) : bool :=
  match s with
  | EmptyString => true
  | String c s' => p c && all_chars p s'
  end.

Definition is_digit (c : ascii) : bool :=
  existsb (Ascii.eqb c) (list_ascii_of_string "0123456789").

Definition is_tag_char (c : ascii) : bool :=
  existsb (Ascii.eqb c)
    (list_ascii_of_string "abcdefghijklmnopqrstuvwxyzABCDEFGHIJKLMNOPQRSTUVWXYZ0123456789.").

(** A number: one digit or more. *)
Definition Digits (s : string) : Prop := s ≠ EmptyString ∧ all_chars is_digit s = true.

(** A numeric dotted triple, as [1.0.0]. *)
Definition NumericTriple (t : string) : Prop :=
  ∃ a b c, Digits a ∧ Digits b ∧ Digits c ∧ t = a +:+ "." +:+ b +:+ "." +:+ c.

(** A prerelease tag, as [beta.1]: letters, digits and periods. *)
Definition PrereleaseTag (tag : string) : Prop :=
  tag ≠ EmptyString ∧ all_chars is_tag_char tag = true.

(** A numeric dotted triple, optionally followed by a hyphen and a
    prerelease tag. *)
Definition VersionLike (v : string) : Prop :=
  ∃ t, NumericTriple t ∧ (v = t ∨ ∃ tag, PrereleaseTag tag ∧ v = t +:+ "-" +:+ tag).

(** The base name of an archive file: the name without a final [.tgz]. *)
Definition baseNameOf (tgzFileName : string) : string :=
  if Js.endsWith tgzFileName ".tgz"
  then Js.substring0 tgzFileName (String.length tgzFileName - 4)
  else tgzFileName.

(** The name the decoder builds from the name-with-hyphen form (lines
    52-61), by cases. *)
Definition decodedName (nameWithHyphen : string) : string :=
  if Js.includes nameWithHyphen "-" then
    let parts := Js.split nameWithHyphen "-" in
    if Nat.leb 2 (length parts) && negb (Js.includes (hd EmptyString parts) ".") then
      "@" +:+ hd EmptyString parts +:+ "/" +:+ Js.join (tl parts) "-"
    else nameWithHyphen
  else nameWithHyphen.

(** A name without scope: no [@] and no [/] in it. *)
Definition Unscoped (name : string) : Prop :=
  Js.includes name "@" = false ∧ Js.includes name "/" = false.


(** What a call of the walk at depth [lo] with maximum depth [hi] keeps true
    of its state, [before] being the shared set when the call began: the set
    grew by the keys of the recorded packages, which are pairwise distinct and
    were not in the set before; every manifest that was read has its key in
    the set, and was read at a depth between [lo] and [hi]; every recorded
    package comes from a manifest that was read. *)
Record WalkInv (before : gset string) (lo hi : nat) (st : Snapshotter.Walk) : Prop :=
  mkWalkInv {
  inv_processed :
    Snapshotter.processedPackages st
    = before ∪ list_to_set (packageKey <$> Snapshotter.packages st);
  inv_nodup : NoDup (packageKey <$> Snapshotter.packages st);
  inv_fresh : ∀ pkg, pkg ∈ Snapshotter.packages st → packageKey pkg ∉ before;
  inv_seen : ∀ d p info,
    Snapshotter.ReadManifest d p (Some info) ∈ Snapshotter.events st →
    packageKey info ∈ Snapshotter.processedPackages st;
  inv_depth : ∀ d p info,
    Snapshotter.ReadManifest d p info ∈ Snapshotter.events st → lo ≤ d ≤ hi;
  inv_read : ∀ pkg, pkg ∈ Snapshotter.packages st →
    ∃ d p, Snapshotter.ReadManifest d p (Some pkg) ∈ Snapshotter.events st
}.

(** A recursive call that returns and keeps the invariant one level down. *)
Definition NestedOk (lo hi : nat) (nested : string → gset string → option Snapshotter.Walk)
    : Prop :=
  ∀ path before, ∃ r, nested path before = Some r ∧ WalkInv before (S lo) hi r.

(** A loop body that returns and keeps the invariant. *)
Definition BodyOk (before : gset string) (lo hi : nat)
    (body : Snapshotter.Walk → option (Snapshotter.Walk * option string)) : Prop :=
  ∀ st, WalkInv before lo hi st →
    ∃ st' thrown, body st = Some (st', thrown) ∧ WalkInv before lo hi st'.

(** A recursive call that returns whatever another one returns. *)
Definition Extends (nested nested' : string → gset string → option Snapshotter.Walk) : Prop :=
  ∀ path before r, nested path before = Some r → nested' path before = Some r.

(** ** Further notions and hosts *)

(** A name that ends in a hyphen and a numeric dotted triple, as
    [foo-1.2.3]. *)
Definition EndsInTriple (n : string) : Prop :=
  ∃ front t, n = front +:+ "-" +:+ t ∧ NumericTriple t.

(** What an event of the walk says about the disk: a manifest that was read
    is the [package.json] of a directory, and the result recorded is what
    [getPackageInfo] gives for it.  The walk prints and logs; it makes no
    directory, removes and writes no file and runs no command. *)
Definition FromDisk (H : Host) (w : World H) (e : Snapshotter.Event) : Prop :=
  match e with
  | Snapshotter.ReadManifest _ packageJsonPath info =>
      ∃ packagePath,
        packageJsonPath = path_join H packagePath "package.json"
        ∧ isDirectory H w packagePath = Normal true
        ∧ info = Snapshotter.getPackageInfo H w packageJsonPath
  | Snapshotter.ConsoleLog _ | Snapshotter.ConsoleError _ | Snapshotter.LogError _ => True
  | _ => False
  end.

(** The summaries a trace wrote, with their paths. *)
Definition summariesWritten (l : list Snapshotter.Event) : list (string * Summary) :=
  flat_map (fun e => match e with
                     | Snapshotter.WriteFile filePath content => [(filePath, content)]
                     | _ => []
                     end) l.

(** The registry queries of a trace of the publisher. *)
Definition registryQueries (l : list Publisher.Event) : list string :=
  flat_map (fun e => match e with Publisher.ExecPromise command => [command] | _ => [] end) l.

(** The file names of a listing that the decoder reads. *)
Definition parsable (file : string) : bool :=
  match extractPackageInfo file with Some _ => true | None => false end.

(** The registry query that a file of the listing costs: the one for the
    identity that the decoder gives it, none for a file it cannot read. *)
Definition registryQuery (registry file : string) : list string :=
  match extractPackageInfo file with
  | Some info => [Publisher.viewCommand (name info) (version info) registry]
  | None => []
  end.

(** The publish commands of files that are not skipped, each with its own
    outcome.  The commands run one after the other from the world [w]: for
    each file that the decoder reads, the registry query and then the
    publish command, in the world that the commands before it left; [true]
    is a publish command that returned, [false] one that threw. *)
Fixpoint publishOutcomes (H : Host) (tgzDir registry : string) (files : list string)
    (w : World H) : list (string * bool) :=
  match files with
  | [] => []
  | file :: rest =>
      match extractPackageInfo file with
      | None => publishOutcomes H tgzDir registry rest w
      | Some info =>
          let w1 :=
            fst (exec H w (Publisher.viewCommand (name info) (version info) registry) None) in
          let command := Publisher.publishCommand (path_join H tgzDir file) registry in
          let done := exec H w1 command None in
          (command, match snd done with Normal _ => true | Throw _ => false end)
            :: publishOutcomes H tgzDir registry rest (fst done)
      end
  end.

(** The events of the part of [main] before the walk: output, a directory
    made and a file removed. *)
Definition SetupEvent (e : Snapshotter.Event) : Prop :=
  match e with
  | Snapshotter.ConsoleLog _ | Snapshotter.LogError _
  | Snapshotter.Mkdir _ | Snapshotter.Unlink _ => True
  | _ => False
  end.

(** The world that lines 248-253 of [main] leave: the output directory
    made if it was missing, the old error log removed if there was one.
    [None] when [mkdirSync] or [unlinkSync] throws there. *)
Definition setupWorld (H : Host) (w : World H) : option (World H) :=
  let outputDir := path_join H (process_cwd H) "pkg" in
  match (if existsSync H w outputDir then (w, Normal ()) else mkdirSync H w outputDir) with
  | (_, Throw _) => None
  | (w1, Normal _) =>
      match (if existsSync H w1 "error.log" then unlinkSync H w1 "error.log"
             else (w1, Normal ())) with
      | (_, Throw _) => None
      | (w2, Normal _) => Some w2
      end
  end.

(** Names in the order of a comparator. *)
Definition NameOrder (cmp : string → string → Z) (a b : PackageInfo) : Prop :=
  (cmp (name a) (name b) ≤ 0)%Z.

(** Further disks and registries for [TableHost]. *)
Module Samples.

(** An output directory that holds the archive of the unscoped [utils] and
    no archive of [@scope/utils]. *)
Definition unscopedArchive : TableHost.Disk :=
  TableHost.mkDisk [("/proj/pkg", ["utils-2.3.4.tgz"])] ["/proj/pkg/utils-2.3.4.tgz"] [].

(** An archive directory with a note, two archives and a file whose name
    has no version. *)
Definition mixedArchives : TableHost.Disk :=
  TableHost.mkDisk
    [("/archives", ["README.md"; "lodash-4.17.21.tgz"; "broken.tgz"; "scope-utils-2.3.4.tgz"])]
    [] [].

(** A registry that holds both packages of [TableHost.plainArchives]. *)
Definition bothPublished : list (string * string) :=
  [ (Publisher.viewCommand "lodash" "4.17.21" TableHost.registryUrl,
     "4.17.21" +:+ TableHost.newline);
    (Publisher.viewCommand "@scope/utils" "2.3.4" TableHost.registryUrl,
     "2.3.4" +:+ TableHost.newline) ].

(** An output directory with the archive of [a@1.0.0]; [npm pack] works
    for [b@2.0.0] and fails for [c@3.0.0]. *)
Definition partlyArchived : TableHost.Disk :=
  TableHost.mkDisk [("/proj/pkg", ["a-1.0.0.tgz"])] ["/proj/pkg/a-1.0.0.tgz"] [].

Definition packsB : list (string * string) :=
  [("npm pack b@2.0.0", "b-2.0.0.tgz" +:+ TableHost.newline)].

Definition threePackages : list PackageInfo :=
  [mkPackageInfo "a" "1.0.0"; mkPackageInfo "b" "2.0.0"; mkPackageInfo "c" "3.0.0"].

(** A [node_modules] whose listing names [ghost], an entry that cannot be
    examined, between a file and the package [b@2.0.0]. *)
Definition danglingEntry : TableHost.Disk :=
  TableHost.mkDisk
    [ ("/proj/node_modules", ["README.md"; "ghost"; "b"]);
      ("/proj/node_modules/b", ["package.json"]) ]
    ["/proj/node_modules/README.md"]
    [("/proj/node_modules/b/package.json", TableHost.manifest "b" "2.0.0")].

End Samples.

(** * Proofs *)

(** ** Strings *)

Lemma sapp_cons (c : ascii) (a b : string) : String c a +:+ b = String c (a +:+ b).
Proof. reflexivity. Qed.

Lemma sapp_nil_l (s : string) : EmptyString +:+ s = s.
Proof. reflexivity. Qed.

Ltac sapp := rewrite ?sapp_cons, ?sapp_nil_l in *.

Lemma sapp_nil_r (s : string) : s +:+ EmptyString = s.
Proof. induction s as [|c s IH]; sapp; [reflexivity | now rewrite IH]. Qed.

Lemma sapp_assoc (a b c : string) : (a +:+ b) +:+ c = a +:+ b +:+ c.
Proof. induction a as [|x a IH]; sapp; [reflexivity | now rewrite IH]. Qed.

Lemma length_sapp (a b : string) :
  String.length (a +:+ b) = String.length a + String.length b.
Proof. induction a as [|x a IH]; sapp; simpl; [reflexivity | now rewrite IH]. Qed.

Lemma sapp_eq_nil (a b : string) :
  a +:+ b = EmptyString → a = EmptyString ∧ b = EmptyString.
Proof. destruct a; sapp; [auto | discriminate]. Qed.

Lemma drop_sapp (a b : string) : Js.drop (String.length a) (a +:+ b) = b.
Proof. induction a as [|x a IH]; sapp; simpl; [now destruct b | exact IH]. Qed.

Lemma substring0_sapp (a b : string) : Js.substring0 (a +:+ b) (String.length a) = a.
Proof.
  unfold Js.substring0. induction a as [|x a IH]; sapp; simpl.
  - now destruct b.
  - now rewrite IH.
Qed.

Lemma take_drop (n : nat) (s : string) : Js.substring0 s n +:+ Js.drop n s = s.
Proof.
  unfold Js.substring0. revert s.
  induction n as [|n IH]; intros [|c s]; simpl; sapp; try reflexivity.
  now rewrite IH.
Qed.

Lemma length_substring0 (n : nat) (s : string) :
  n ≤ String.length s → String.length (Js.substring0 s n) = n.
Proof.
  unfold Js.substring0. revert s.
  induction n as [|n IH]; intros [|c s]; simpl; intros Hn; try reflexivity; try lia.
  rewrite IH; [reflexivity | lia].
Qed.

Lemma length_drop (n : nat) (s : string) :
  String.length (Js.drop n s) = String.length s - n.
Proof. revert s. induction n as [|n IH]; intros [|c s]; simpl; auto. Qed.

(** ** Regular expressions: the matcher decides the language *)

Lemma lang_eps_inv (s : string) : lang Regex.Eps s → s = EmptyString.
Proof. now inversion 1. Qed.

Lemma lang_seq_inv (r1 r2 : Regex.re) (s : string) :
  lang (Regex.Seq r1 r2) s → ∃ s1 s2, s = s1 +:+ s2 ∧ lang r1 s1 ∧ lang r2 s2.
Proof. inversion 1; subst; eauto. Qed.

Lemma lang_alt_inv (r1 r2 : Regex.re) (s : string) :
  lang (Regex.Alt r1 r2) s → lang r1 s ∨ lang r2 s.
Proof. inversion 1; subst; auto. Qed.

Lemma lang_cls_inv (p : ascii → bool) (s : string) :
  lang (Regex.Cls p) s → ∃ c, p c = true ∧ s = String c EmptyString.
Proof. inversion 1; subst; eauto. Qed.

Lemma nullable_lang (r : Regex.re) : Regex.nullable r = true ↔ lang r EmptyString.
Proof.
  induction r as [| |p|r1 IH1 r2 IH2|r1 IH1 r2 IH2|r IH]; simpl.
  - split; [discriminate | inversion 1].
  - split; [constructor | reflexivity].
  - split; [discriminate | inversion 1].
  - rewrite andb_true_iff, IH1, IH2. split.
    + intros [H1 H2]. exact (lang_seq _ _ _ _ H1 H2).
    + intros (s1 & s2 & E & H1 & H2)%lang_seq_inv.
      symmetry in E. apply sapp_eq_nil in E as [-> ->]. auto.
  - rewrite orb_true_iff, IH1, IH2. split.
    + intros [H1|H2]; [now apply lang_alt_l | now apply lang_alt_r].
    + apply lang_alt_inv.
  - split; [constructor | reflexivity].
Qed.

(** A nonempty string of a starred expression starts with a nonempty
    string of the expression. *)
Lemma lang_star_cons_inv (r : Regex.re) (c : ascii) (s : string) :
  lang (Regex.Star r) (String c s) →
  ∃ s1 s2, s = s1 +:+ s2 ∧ lang r (String c s1) ∧ lang (Regex.Star r) s2.
Proof.
  intros L. remember (Regex.Star r) as r' eqn:Er. remember (String c s) as cs eqn:Es.
  revert c s Es.
  induction L as [| | | | | |r0 s1 s2 L1 _ L2 IH2]; intros x t Es; try discriminate.
  injection Er as ->. destruct s1 as [|c1 s1]; sapp.
  - apply IH2; auto.
  - injection Es as <- <-. eauto.
Qed.

Lemma deriv_lang (c : ascii) (r : Regex.re) (s : string) :
  lang (Regex.deriv c r) s ↔ lang r (String c s).
Proof.
  revert s. induction r as [| |p|r1 IH1 r2 IH2|r1 IH1 r2 IH2|r IH]; intros s; simpl.
  - split; inversion 1.
  - split; inversion 1.
  - destruct (p c) eqn:Ep; split.
    + intros ->%lang_eps_inv. now constructor.
    + intros (c' & Hp & E)%lang_cls_inv. injection E as -> ->. constructor.
    + inversion 1.
    + intros (c' & Hp & E)%lang_cls_inv. injection E as -> ->. congruence.
  - assert (Hs : lang (Regex.Seq (Regex.deriv c r1) r2) s ↔
                 ∃ s1 s2, s = s1 +:+ s2 ∧ lang r1 (String c s1) ∧ lang r2 s2).
    { split.
      - intros (s1 & s2 & -> & H1 & H2)%lang_seq_inv. apply IH1 in H1. eauto.
      - intros (s1 & s2 & -> & H1 & H2). apply IH1 in H1. now constructor. }
    assert (Hr : lang (Regex.Seq r1 r2) (String c s) ↔
                 (∃ s1 s2, s = s1 +:+ s2 ∧ lang r1 (String c s1) ∧ lang r2 s2)
                 ∨ (lang r1 EmptyString ∧ lang r2 (String c s))).
    { split.
      - intros (s1 & s2 & E & H1 & H2)%lang_seq_inv. destruct s1 as [|c1 s1]; sapp.
        + subst s2. auto.
        + injection E as -> ->. left. eauto.
      - intros [(s1 & s2 & -> & H1 & H2)|[H1 H2]].
        + exact (lang_seq _ _ _ _ H1 H2).
        + exact (lang_seq _ _ _ _ H1 H2). }
    rewrite Hr. destruct (Regex.nullable r1) eqn:En.
    + apply nullable_lang in En. split.
      * intros [L|L]%lang_alt_inv; [left; now apply Hs | right; split; [exact En | now apply IH2]].
      * intros [L|[_ L]]; [apply lang_alt_l; now apply Hs | apply lang_alt_r; now apply IH2].
    + rewrite Hs. split; [auto | intros [L|[L _]]; [exact L|]].
      apply nullable_lang in L. congruence.
  - split.
    + intros [L|L]%lang_alt_inv; [apply lang_alt_l; now apply IH1 | apply lang_alt_r; now apply IH2].
    + intros [L|L]%lang_alt_inv; [apply lang_alt_l; now apply IH1 | apply lang_alt_r; now apply IH2].
  - split.
    + intros (s1 & s2 & -> & H1 & H2)%lang_seq_inv. apply IH in H1.
      exact (lang_star_cons _ _ _ H1 H2).
    + intros (s1 & s2 & -> & H1 & H2)%lang_star_cons_inv. apply IH in H1.
      now constructor.
Qed.

Lemma matches_lang (r : Regex.re) (s : string) : Regex.matches r s = true ↔ lang r s.
Proof.
  revert r. induction s as [|c s IH]; intros r; simpl.
  - apply nullable_lang.
  - rewrite IH. apply deriv_lang.
Qed.

(** ** The leftmost search *)

Lemma drop_nil (n : nat) : Js.drop n EmptyString = EmptyString.
Proof. now destruct n. Qed.

Lemma search_end_some (r : Regex.re) (s : string) (i : nat) :
  Regex.search_end r s = Some i →
  i ≤ String.length s ∧ Regex.matches r (Js.drop i s) = true
  ∧ ∀ j, j < i → Regex.matches r (Js.drop j s) = false.
Proof.
  revert i. induction s as [|c s IH]; intros i.
  - cbn [Regex.search_end]. destruct (Regex.matches r EmptyString) eqn:E; [|discriminate].
    intros [= <-]. split; [lia | split; [exact E | lia]].
  - cbn [Regex.search_end]. destruct (Regex.matches r (String c s)) eqn:E.
    + intros [= <-]. split; [lia | split; [exact E | lia]].
    + destruct (Regex.search_end r s) as [k|]; [|discriminate].
      intros [= <-]. destruct (IH k eq_refl) as (Hk & Hm & Hl).
      split; [simpl; lia | split; [exact Hm |]].
      intros [|j] Hj; [exact E | apply Hl; lia].
Qed.

Lemma search_end_none (r : Regex.re) (s : string) :
  Regex.search_end r s = None → ∀ j, Regex.matches r (Js.drop j s) = false.
Proof.
  induction s as [|c s IH].
  - cbn [Regex.search_end]. destruct (Regex.matches r EmptyString) eqn:E; [discriminate|].
    intros _ j. now rewrite drop_nil.
  - cbn [Regex.search_end]. destruct (Regex.matches r (String c s)) eqn:E; [discriminate|].
    destruct (Regex.search_end r s) as [k|]; [discriminate|].
    intros _ [|j]; [exact E | now apply IH].
Qed.

Lemma search_end_found (r : Regex.re) (s : string) (k : nat) :
  Regex.matches r (Js.drop k s) = true →
  ∃ i, Regex.search_end r s = Some i ∧ i ≤ k.
Proof.
  intros Hk. destruct (Regex.search_end r s) as [i|] eqn:E.
  - exists i. split; [reflexivity|].
    destruct (search_end_some _ _ _ E) as (_ & _ & Hl).
    destruct (le_lt_dec i k) as [?|Hlt]; [assumption|].
    rewrite (Hl k Hlt) in Hk. discriminate.
  - rewrite (search_end_none _ _ E k) in Hk. discriminate.
Qed.

(** ** The languages of the expressions of [publish.cjs] *)

Lemma all_chars_ext (p q : ascii → bool) (s : string) :
  (∀ c, p c = q c) → all_chars p s = all_chars q s.
Proof. intros E. induction s as [|c s IH]; simpl; [reflexivity | now rewrite E, IH]. Qed.

Lemma all_chars_sapp (p : ascii → bool) (a b : string) :
  all_chars p (a +:+ b) = all_chars p a && all_chars p b.
Proof.
  induction a as [|c a IH]; sapp; simpl; [reflexivity|].
  now rewrite IH, andb_assoc.
Qed.

Lemma digit_is_digit (c : ascii) : Regex.digit c = is_digit c.
Proof. destruct c as [[] [] [] [] [] [] [] []]; reflexivity. Qed.

Lemma alnum_dot_is_tag_char (c : ascii) : Regex.alnum_dot c = is_tag_char c.
Proof. destruct c as [[] [] [] [] [] [] [] []]; reflexivity. Qed.

Lemma lang_chr (c : ascii) (s : string) :
  lang (Regex.Chr c) s ↔ s = String c EmptyString.
Proof.
  unfold Regex.Chr. split.
  - intros (c' & E & ->)%lang_cls_inv. apply Ascii.eqb_eq in E. now subst.
  - intros ->. constructor. apply Ascii.eqb_refl.
Qed.

Lemma lang_star_cls (p : ascii → bool) (s : string) :
  lang (Regex.Star (Regex.Cls p)) s ↔ all_chars p s = true.
Proof.
  induction s as [|c s IH]; simpl.
  - split; [reflexivity | constructor].
  - rewrite andb_true_iff, <- IH. split.
    + intros (s1 & s2 & -> & (c' & Hp & E)%lang_cls_inv & H2)%lang_star_cons_inv.
      injection E as -> ->. now sapp.
    + intros [Hp Hs].
      exact (lang_star_cons _ (String c EmptyString) s (lang_cls p c Hp) Hs).
Qed.

Lemma lang_plus_cls (p : ascii → bool) (s : string) :
  lang (Regex.Plus (Regex.Cls p)) s ↔ s ≠ EmptyString ∧ all_chars p s = true.
Proof.
  unfold Regex.Plus. split.
  - intros (s1 & s2 & -> & (c & Hp & ->)%lang_cls_inv & H2%lang_star_cls)%lang_seq_inv.
    sapp. simpl. rewrite Hp, H2. split; [discriminate | reflexivity].
  - intros [Hne Hs]. destruct s as [|c s]; [congruence|].
    simpl in Hs. apply andb_true_iff in Hs as [Hp Hs].
    exact (lang_seq _ _ (String c EmptyString) s (lang_cls p c Hp) (proj2 (lang_star_cls p s) Hs)).
Qed.

Lemma lang_digits (s : string) : lang (Regex.Plus (Regex.Cls Regex.digit)) s ↔ Digits s.
Proof.
  rewrite lang_plus_cls. unfold Digits.
  now rewrite (all_chars_ext _ _ s digit_is_digit).
Qed.

Lemma lang_tag (s : string) :
  lang (Regex.Plus (Regex.Cls Regex.alnum_dot)) s ↔ PrereleaseTag s.
Proof.
  rewrite lang_plus_cls. unfold PrereleaseTag.
  now rewrite (all_chars_ext _ _ s alnum_dot_is_tag_char).
Qed.

Lemma lang_triple (t : string) : lang Regex.triple_re t ↔ NumericTriple t.
Proof.
  unfold Regex.triple_re, NumericTriple. split.
  - intros (a & s1 & -> & Ha%lang_digits & L)%lang_seq_inv.
    apply lang_seq_inv in L as (d1 & s2 & -> & ->%lang_chr & L).
    apply lang_seq_inv in L as (b & s3 & -> & Hb%lang_digits & L).
    apply lang_seq_inv in L as (d2 & c & -> & ->%lang_chr & Hc%lang_digits).
    exists a, b, c. sapp. auto.
  - intros (a & b & c & Ha & Hb & Hc & ->).
    apply lang_seq; [now apply lang_digits|].
    apply (lang_seq _ _ "."); [now apply lang_chr|].
    apply lang_seq; [now apply lang_digits|].
    apply (lang_seq _ _ "."); [now apply lang_chr | now apply lang_digits].
Qed.

Lemma lang_version (v : string) : lang Regex.version_re v ↔ VersionLike v.
Proof.
  unfold Regex.version_re, Regex.Opt, VersionLike. split.
  - intros (t & s & -> & Ht%lang_triple & [L| ->%lang_eps_inv]%lang_alt_inv)%lang_seq_inv.
    + apply lang_seq_inv in L as (h & tag & -> & ->%lang_chr & Htag%lang_tag).
      exists t. split; [assumption|]. right. exists tag. sapp. auto.
    + exists t. rewrite sapp_nil_r. auto.
  - intros (t & Ht & [->|(tag & Htag & ->)]).
    + rewrite <- (sapp_nil_r t). apply lang_seq; [now apply lang_triple|].
      apply lang_alt_r. constructor.
    + apply lang_seq; [now apply lang_triple|]. apply lang_alt_l.
      apply (lang_seq _ _ "-"); [now apply lang_chr | now apply lang_tag].
Qed.

Lemma lang_hyphen_version (s : string) :
  lang Regex.hyphen_version_re s ↔ ∃ v, s = "-" +:+ v ∧ VersionLike v.
Proof.
  unfold Regex.hyphen_version_re. split.
  - intros (h & v & -> & ->%lang_chr & Hv%lang_version)%lang_seq_inv. eauto.
  - intros (v & -> & Hv). apply (lang_seq _ _ "-"); [now apply lang_chr | now apply lang_version].
Qed.

Lemma lang_dot_tgz (s : string) : lang Regex.dot_tgz_re s ↔ s = ".tgz".
Proof.
  unfold Regex.dot_tgz_re. split.
  - intros (a & s1 & -> & ->%lang_chr & L)%lang_seq_inv.
    apply lang_seq_inv in L as (b & s2 & -> & ->%lang_chr & L).
    apply lang_seq_inv in L as (c & d & -> & ->%lang_chr & ->%lang_chr).
    reflexivity.
  - intros ->. apply (lang_seq _ _ "." "tgz"); [now apply lang_chr|].
    apply (lang_seq _ _ "t" "gz"); [now apply lang_chr|].
    apply (lang_seq _ _ "g" "z"); now apply lang_chr.
Qed.

(** ** [includes], [split], [join] and [endsWith] *)

Lemma includes_cons (c d : ascii) (s : string) :
  Js.includes (String c s) (String d EmptyString)
  = Ascii.eqb c d || Js.includes s (String d EmptyString).
Proof.
  cbn [Js.includes String.prefix]. destruct (ascii_dec d c) as [->|Hne].
  - rewrite Ascii.eqb_refl. now destruct s.
  - destruct (Ascii.eqb_spec c d) as [->|_]; [congruence | reflexivity].
Qed.

Lemma includes_nil (d : ascii) : Js.includes EmptyString (String d EmptyString) = false.
Proof. reflexivity. Qed.

Lemma includes_sapp (a b : string) (d : ascii) :
  Js.includes (a +:+ b) (String d EmptyString)
  = Js.includes a (String d EmptyString) || Js.includes b (String d EmptyString).
Proof.
  induction a as [|c a IH]; sapp; [reflexivity|].
  now rewrite !includes_cons, IH, orb_assoc.
Qed.

(** A string that includes a character splits at its first occurrence. *)
Lemma includes_first (s : string) (d : ascii) :
  Js.includes s (String d EmptyString) = true →
  ∃ a b, s = a +:+ String d b ∧ Js.includes a (String d EmptyString) = false.
Proof.
  induction s as [|c s IH]; [discriminate|].
  rewrite includes_cons. destruct (Ascii.eqb_spec c d) as [->|Hne]; simpl.
  - intros _. exists EmptyString, s. split; reflexivity.
  - intros (a & b & -> & Ha)%IH. exists (String c a), b. split; [reflexivity|].
    rewrite includes_cons, Ha. now destruct (Ascii.eqb_spec c d).
Qed.

Lemma split_not_nil (s : string) (d : ascii) : Js.split s d ≠ [].
Proof.
  destruct s as [|c s]; simpl; [discriminate|].
  destruct (Ascii.eqb c d); [discriminate|]. now destruct (Js.split s d).
Qed.

Lemma split_without (a : string) (d : ascii) :
  Js.includes a (String d EmptyString) = false → Js.split a d = [a].
Proof.
  induction a as [|c a IH]; [reflexivity|].
  rewrite includes_cons. intros [Hc Ha]%orb_false_iff.
  simpl. now rewrite Hc, (IH Ha).
Qed.

Lemma split_first (a b : string) (d : ascii) :
  Js.includes a (String d EmptyString) = false →
  Js.split (a +:+ String d b) d = a :: Js.split b d.
Proof.
  induction a as [|c a IH]; sapp.
  - intros _. simpl. now rewrite Ascii.eqb_refl.
  - rewrite includes_cons. intros [Hc Ha]%orb_false_iff.
    simpl. now rewrite Hc, (IH Ha).
Qed.

Lemma join_split (b : string) (d : ascii) :
  Js.join (Js.split b d) (String d EmptyString) = b.
Proof.
  unfold Js.join. induction b as [|c b IH]; [reflexivity|].
  simpl. pose proof (split_not_nil b d) as Hne.
  destruct (Ascii.eqb_spec c d) as [->|_].
  - destruct (Js.split b d) as [|h t]; [congruence|].
    cbn [String.concat] in *. now rewrite IH.
  - destruct (Js.split b d) as [|h t]; [congruence|].
    cbn [String.concat] in *. destruct t; [now rewrite IH|].
    rewrite <- IH. reflexivity.
Qed.

Lemma drop_S (n : nat) (s : string) : Js.drop (S n) s = Js.drop 1 (Js.drop n s).
Proof.
  revert s. induction n as [|n IH]; intros [|c s]; try reflexivity.
  change (Js.drop (S (S n)) (String c s)) with (Js.drop (S n) s).
  change (Js.drop (S n) (String c s)) with (Js.drop n s). apply IH.
Qed.

Lemma substring_drop (n m : nat) (s : string) :
  substring n m s = Js.substring0 (Js.drop n s) m.
Proof.
  unfold Js.substring0. revert s.
  induction n as [|n IH]; intros s; [reflexivity|].
  destruct s as [|c s]; [now destruct m | apply IH].
Qed.

Lemma substring0_all (s : string) (n : nat) :
  String.length s ≤ n → Js.substring0 s n = s.
Proof.
  unfold Js.substring0. revert n.
  induction s as [|c s IH]; intros [|n]; simpl; intros Hn; try reflexivity; try lia.
  rewrite IH; [reflexivity | lia].
Qed.

Lemma endsWith_true (s p : string) : Js.endsWith s p = true ↔ ∃ a, s = a +:+ p.
Proof.
  unfold Js.endsWith. rewrite andb_true_iff, Nat.leb_le, String.eqb_eq, substring_drop.
  split.
  - intros [Hle E]. exists (Js.substring0 s (String.length s - String.length p)).
    rewrite substring0_all in E by (rewrite length_drop; lia).
    pose proof (take_drop (String.length s - String.length p) s) as T.
    rewrite E in T. symmetry. exact T.
  - intros [a ->]. rewrite length_sapp. split; [lia|].
    replace (String.length a + String.length p - String.length p) with (String.length a) by lia.
    rewrite drop_sapp. now apply substring0_all.
Qed.

(** What line 39 computes is the base name. *)
Lemma replace_dot_tgz (tgzFileName : string) :
  match Regex.search_end Regex.dot_tgz_re tgzFileName with
  | Some i => Js.substring0 tgzFileName i
  | None => tgzFileName
  end = baseNameOf tgzFileName.
Proof.
  unfold baseNameOf. destruct (Regex.search_end _ _) as [i|] eqn:E.
  - destruct (search_end_some _ _ _ E) as (Hi & Hm & _).
    apply matches_lang, lang_dot_tgz in Hm.
    pose proof (take_drop i tgzFileName) as Hs. rewrite Hm in Hs.
    assert (Hends : Js.endsWith tgzFileName ".tgz" = true).
    { apply endsWith_true. eauto. }
    rewrite Hends. f_equal.
    rewrite <- Hs at 1. rewrite length_sapp, length_substring0 by assumption.
    simpl. lia.
  - destruct (Js.endsWith tgzFileName ".tgz") eqn:Hends; [|reflexivity].
    apply endsWith_true in Hends as [a ->].
    pose proof (search_end_none _ _ E (String.length a)) as Hm.
    rewrite drop_sapp in Hm. discriminate.
Qed.

Lemma baseNameOf_tgz (s : string) : baseNameOf (s +:+ ".tgz") = s.
Proof.
  unfold baseNameOf.
  rewrite (proj2 (endsWith_true (s +:+ ".tgz") ".tgz")) by eauto.
  rewrite length_sapp. simpl.
  replace (String.length s + 4 - 4) with (String.length s) by lia.
  apply substring0_sapp.
Qed.

(** ** The decoder *)

Lemma decodedName_cases (nameWithHyphen : string) :
  (∃ first rest, nameWithHyphen = first +:+ "-" +:+ rest
     ∧ Js.includes first "-" = false ∧ Js.includes first "." = false
     ∧ decodedName nameWithHyphen = "@" +:+ first +:+ "/" +:+ rest)
  ∨ ((Js.includes nameWithHyphen "-" = false
      ∨ ∃ first rest, nameWithHyphen = first +:+ "-" +:+ rest
          ∧ Js.includes first "-" = false ∧ Js.includes first "." = true)
     ∧ decodedName nameWithHyphen = nameWithHyphen).
Proof.
  unfold decodedName. destruct (Js.includes nameWithHyphen "-") eqn:Hh; [|right; auto].
  destruct (includes_first _ _ Hh) as (first & rest & -> & Hf).
  rewrite (split_first _ _ _ Hf). pose proof (split_not_nil rest "-") as Hne.
  destruct (Js.split rest "-") as [|h t] eqn:Hs; [congruence|].
  cbn [length hd tl Nat.leb andb]. destruct (Js.includes first ".") eqn:Hd; cbn [negb].
  - right. split; [|reflexivity]. right. exists first, rest. auto.
  - left. exists first, rest. rewrite <- Hs, join_split. auto.
Qed.

(** The decoder finds the leftmost hyphen that a version-like string
    follows to the end of the base name. *)
Lemma extractPackageInfo_eq (tgzFileName : string) :
  extractPackageInfo tgzFileName =
  match Regex.search_end Regex.hyphen_version_re (baseNameOf tgzFileName) with
  | None => None
  | Some i =>
      Some (mkPackageInfo (decodedName (Js.substring0 (baseNameOf tgzFileName) i))
                          (Js.drop (S i) (baseNameOf tgzFileName)))
  end.
Proof.
  unfold extractPackageInfo. rewrite replace_dot_tgz.
  destruct (Regex.search_end _ _) as [i|] eqn:E; [|reflexivity].
  destruct (search_end_some _ _ _ E) as (Hi & Hm & _).
  apply matches_lang, lang_hyphen_version in Hm as (v & Hv & _).
  assert (Hlen : String.length (Js.drop i (baseNameOf tgzFileName)) = S (String.length v)).
  { rewrite Hv. reflexivity. }
  rewrite length_drop in Hlen.
  replace (String.length (baseNameOf tgzFileName)
           - String.length (Js.drop (S i) (baseNameOf tgzFileName)) - 1) with i
    by (rewrite length_drop; lia).
  reflexivity.
Qed.

Lemma hyphen_version_at (n v : string) :
  VersionLike v →
  Regex.matches Regex.hyphen_version_re (Js.drop (String.length n) (n +:+ "-" +:+ v)) = true.
Proof.
  intros Hv. rewrite drop_sapp. apply matches_lang, lang_hyphen_version. eauto.
Qed.

(** The match at index [i] cuts the base name into the name-with-hyphen
    form, the hyphen and the version. *)
Lemma search_hyphen_version (base : string) (i : nat) :
  Regex.search_end Regex.hyphen_version_re base = Some i →
  base = Js.substring0 base i +:+ "-" +:+ Js.drop (S i) base
  ∧ VersionLike (Js.drop (S i) base)
  ∧ String.length (Js.substring0 base i) = i
  ∧ ∀ n v, base = n +:+ "-" +:+ v → VersionLike v → i ≤ String.length n.
Proof.
  intros E. destruct (search_end_some _ _ _ E) as (Hi & Hm & Hl).
  apply matches_lang, lang_hyphen_version in Hm as (v & Hv & HV).
  assert (Hd : Js.drop (S i) base = v) by (rewrite drop_S, Hv; reflexivity).
  rewrite Hd. split; [|split; [exact HV | split]].
  - pose proof (take_drop i base) as T. rewrite Hv in T. now symmetry.
  - now apply length_substring0.
  - intros n v' -> Hv'. destruct (le_lt_dec i (String.length n)) as [?|Hlt]; [assumption|].
    pose proof (hyphen_version_at n v' Hv') as Hm. rewrite (Hl _ Hlt) in Hm. discriminate.
Qed.

(** C4.  The decoder returns no result exactly when the base name (the file
    name without its [.tgz]) does not end in a hyphen followed by a
    version-like string.  When it does, the version is that string, taken
    from the leftmost such hyphen, and what stands before the hyphen is the
    name-with-hyphen form: if that form contains a hyphen and its first
    segment contains no period, the name is [@first/rest]; otherwise the name
    is the name-with-hyphen form unchanged. *)
Theorem extractPackageInfo_cases (tgzFileName : string) :
  (extractPackageInfo tgzFileName = None ↔
     ¬ ∃ n v, baseNameOf tgzFileName = n +:+ "-" +:+ v ∧ VersionLike v)
  ∧ ∀ info, extractPackageInfo tgzFileName = Some info →
      ∃ nameWithHyphen,
        baseNameOf tgzFileName = nameWithHyphen +:+ "-" +:+ version info
        ∧ VersionLike (version info)
        ∧ (∀ n v, baseNameOf tgzFileName = n +:+ "-" +:+ v → VersionLike v →
             String.length nameWithHyphen ≤ String.length n)
        ∧ ((∃ first rest, nameWithHyphen = first +:+ "-" +:+ rest
               ∧ Js.includes first "-" = false ∧ Js.includes first "." = false
               ∧ name info = "@" +:+ first +:+ "/" +:+ rest)
           ∨ ((Js.includes nameWithHyphen "-" = false
               ∨ ∃ first rest, nameWithHyphen = first +:+ "-" +:+ rest
                   ∧ Js.includes first "-" = false ∧ Js.includes first "." = true)
              ∧ name info = nameWithHyphen)).
Proof.
  rewrite extractPackageInfo_eq.
  destruct (Regex.search_end _ _) as [i|] eqn:E.
  - destruct (search_hyphen_version _ _ E) as (Hb & HV & Hlen & Hmin). split.
    + split; [discriminate|]. intros Hno. exfalso. apply Hno. eauto.
    + intros info [= <-]. cbn [name version].
      exists (Js.substring0 (baseNameOf tgzFileName) i).
      split; [exact Hb | split; [exact HV | split]].
      * intros n v Hn Hv. rewrite Hlen. eauto.
      * apply decodedName_cases.
  - split; [|discriminate]. split; [|reflexivity].
    intros _ (n & v & Hb & Hv).
    pose proof (search_end_none _ _ E (String.length n)) as Hm.
    rewrite Hb, hyphen_version_at in Hm by assumption. discriminate.
Qed.

(** The decoder on four file names: a scopeless name, a name with a hyphen,
    a first segment with a period, and a name without a version. *)
Lemma extractPackageInfo_cases_witness :
  extractPackageInfo "lodash-4.17.21.tgz" = Some (mkPackageInfo "lodash" "4.17.21")
  ∧ extractPackageInfo "scope-utils-2.3.4.tgz" = Some (mkPackageInfo "@scope/utils" "2.3.4")
  ∧ extractPackageInfo "socket.io-client-4.7.2-rc.1.tgz"
    = Some (mkPackageInfo "socket.io-client" "4.7.2-rc.1")
  ∧ extractPackageInfo "README.tgz" = None
  ∧ ∃ nameWithHyphen,
      baseNameOf "scope-utils-2.3.4.tgz" = nameWithHyphen +:+ "-" +:+ "2.3.4"
      ∧ VersionLike "2.3.4".
Proof.
  repeat (split; [reflexivity|]).
  destruct (proj2 (extractPackageInfo_cases "scope-utils-2.3.4.tgz") _ eq_refl)
    as (nameWithHyphen & Hb & HV & _).
  exists nameWithHyphen. split; [exact Hb | exact HV].
Defined.

(** ** Decoding and encoding again *)

Lemma drop_sapp_le (a b : string) (i : nat) :
  i ≤ String.length a → Js.drop i (a +:+ b) = Js.drop i a +:+ b.
Proof.
  revert i. induction a as [|c a IH]; intros [|i] Hi; sapp; simpl in *;
    try reflexivity; try lia.
  apply IH. lia.
Qed.


Lemma numericTriple_1_2_3 : NumericTriple "1.2.3".
Proof. exists "1", "2", "3". repeat split; discriminate. Qed.


(** ** The encoder *)

Lemma replace_without (s : string) (d : ascii) (rep : string) :
  Js.includes s (String d EmptyString) = false → Js.replace s d rep = s.
Proof.
  induction s as [|c s IH]; [reflexivity|].
  rewrite includes_cons. intros [Hc Hs]%orb_false_iff.
  simpl. now rewrite Hc, (IH Hs).
Qed.

(** C10.  The encoder returns three file names, the first and the third
    are the same string, so at most two of them are distinct; for a name
    without scope (neither [@] nor [/] in it) all three are the same, so
    exactly one is distinct. *)
Theorem candidates_distinct (name version : string) :
  let candidates := getPossiblePackageFilenames name version in
  length candidates = 3
  ∧ nth 0 candidates EmptyString = nth 2 candidates EmptyString
  ∧ size (list_to_set candidates : gset string) ≤ 2
  ∧ (Unscoped name →
     size (list_to_set candidates : gset string) = 1
     ∧ ∀ filename, In filename candidates → filename = name +:+ "-" +:+ version +:+ ".tgz").
Proof.
  unfold getPossiblePackageFilenames.
  set (first := Js.replace (Js.replace name "@" EmptyString) "/" "-" +:+ "-" +:+ version +:+ ".tgz").
  set (second := (if Js.includes name "/" then _ else _) +:+ "-" +:+ version +:+ ".tgz").
  cbn zeta. split; [reflexivity | split; [reflexivity | split]].
  - assert (E : (list_to_set [first; second; first] : gset string) = {[first]} ∪ {[second]})
      by set_solver.
    rewrite E, size_union_alt, size_singleton.
    pose proof (subseteq_size ({[second]} ∖ {[first]}) ({[second]} : gset string)) as Hs.
    rewrite size_singleton in Hs. specialize (Hs ltac:(set_solver)). lia.
  - intros [Hat Hslash]. subst first second.
    rewrite Hslash, (replace_without _ _ _ Hat), (replace_without _ _ _ Hslash).
    split.
    + assert (E : ∀ x : string, (list_to_set [x; x; x] : gset string) = {[x]}) by set_solver.
      now rewrite E, size_singleton.
    + intros filename [<-|[<-|[<-|[]]]]; reflexivity.
Qed.

Lemma candidates_distinct_witness :
  Unscoped "left-pad"
  ∧ size (list_to_set (getPossiblePackageFilenames "left-pad" "1.0.0") : gset string) = 1
  ∧ getPossiblePackageFilenames "@scope/utils" "2.3.4"
    = ["scope-utils-2.3.4.tgz"; "utils-2.3.4.tgz"; "scope-utils-2.3.4.tgz"].
Proof.
  assert (H : Unscoped "left-pad") by (split; reflexivity).
  split; [exact H|]. split; [|reflexivity].
  exact (proj1 (proj2 (proj2 (proj2 (candidates_distinct "left-pad" "1.0.0"))) H)).
Defined.

(** ** The publisher *)

(** C8.  The existence check always resolves to a boolean, never to an
    error: it is [true] exactly when the registry query succeeds and its
    trimmed output is the queried version string; a query that fails, for
    whatever reason, gives [false]. *)
Theorem isPackagePublished_total (H : Host) (packageName version registry : string)
    (r : Publisher.Run H) :
  ∃ published,
    snd (Publisher.isPackagePublished H packageName version registry r) = Normal published
    ∧ (published = true ↔
       ∃ stdout,
         snd (exec H (Publisher.world H r)
                (Publisher.viewCommand packageName version registry) None) = Normal stdout
         ∧ Js.trim stdout = version)
    ∧ (∀ message,
         snd (exec H (Publisher.world H r)
                (Publisher.viewCommand packageName version registry) None) = Throw message →
         published = false).
Proof.
  unfold Publisher.isPackagePublished. cbn [Publisher.world Publisher.say].
  destruct (exec H _ _ None) as [w' [stdout|message]]; cbn [snd].
  - exists (String.eqb (Js.trim stdout) version). split; [reflexivity | split].
    + rewrite String.eqb_eq. split.
      * intros E. exists stdout. auto.
      * intros (stdout' & [= <-] & E). exact E.
    + discriminate.
  - exists false. split; [reflexivity | split; [|reflexivity]].
    split; [discriminate | intros (stdout & [=] & _)].
Qed.

Lemma filter_none {A : Type} (f : A → bool) (l : list A) :
  (∀ x, In x l → f x = false) → List.filter f l = [].
Proof.
  induction l as [|x l IH]; [reflexivity|]. intros Hl. simpl.
  rewrite (Hl x) by now left. apply IH. intros y Hy. apply Hl. now right.
Qed.

(** C9.  The publisher exits with status 1 when it is called without an
    argument and when the directory of its first argument does not exist; when
    the directory exists and holds no entry that ends in [.tgz], it logs the
    warning and exits with status 0, without running a command. *)
Theorem script_exit_status (H : Host) (w : World H) :
  Publisher.script H [] w
  = (Publisher.mkRun H w [Publisher.ConsoleError Publisher.MsgUsage] 0 0 0, 1)
  ∧ (∀ arg0 rest,
       existsSync H w (path_resolve H arg0) = false →
       snd (Publisher.script H (arg0 :: rest) w) = 1)
  ∧ (∀ arg0 rest entries,
       existsSync H w (path_resolve H arg0) = true →
       readdirSync H w (path_resolve H arg0) = Normal entries →
       (∀ file, In file entries → Js.endsWith file ".tgz" = false) →
       Publisher.script H (arg0 :: rest) w
       = (Publisher.mkRun H w
            [Publisher.Log (Publisher.MsgHeader
                              (Js.or_default (head rest) Publisher.defaultRegistry)) false;
             Publisher.Log Publisher.MsgNoFiles true] 0 0 0, 0)).
Proof.
  split; [reflexivity | split].
  - intros arg0 rest He. unfold Publisher.script, Publisher.main.
    cbn [Publisher.world Publisher.say]. now rewrite He.
  - intros arg0 rest entries He Hr Hnone. unfold Publisher.script, Publisher.main.
    cbn [Publisher.world Publisher.say]. rewrite He, Hr, (filter_none _ _ Hnone).
    reflexivity.
Qed.

Lemma script_exit_status_witness :
  snd (Publisher.script (TableHost.host []) [] TableHost.noArchives) = 1
  ∧ snd (Publisher.script (TableHost.host []) ["/missing"] TableHost.noArchives) = 1
  ∧ Publisher.script (TableHost.host []) ["/archives"] TableHost.noArchives
    = (Publisher.mkRun (TableHost.host []) TableHost.noArchives
         [Publisher.Log (Publisher.MsgHeader Publisher.defaultRegistry) false;
          Publisher.Log Publisher.MsgNoFiles true] 0 0 0, 0).
Proof.
  pose proof (script_exit_status (TableHost.host []) TableHost.noArchives) as (H0 & H1 & H2).
  split; [now rewrite H0 | split].
  - apply (H1 "/missing" []). reflexivity.
  - apply (H2 "/archives" [] ["README.md"]); [reflexivity | reflexivity |].
    intros file [<-|[]]. reflexivity.
Defined.

Lemma publishCommands_app (l1 l2 : list Publisher.Event) :
  Publisher.publishCommands (l1 ++ l2)
  = Publisher.publishCommands l1 ++ Publisher.publishCommands l2.
Proof. apply flat_map_app. Qed.

Lemma registryQueries_app (l1 l2 : list Publisher.Event) :
  registryQueries (l1 ++ l2) = registryQueries l1 ++ registryQueries l2.
Proof. apply flat_map_app. Qed.

(** A file whose decoded identity the registry does not report is
    published: nothing is skipped, one publish command runs, and the file
    counts as a success or as a failure. *)
Lemma loopBody_unpublished (H : Host) (tgzDir registry : string) (n i : nat)
    (file : string) (info : PackageInfo) (r : Publisher.Run H) :
  extractPackageInfo file = Some info →
  (∀ w' stdout,
     snd (exec H w' (Publisher.viewCommand (name info) (version info) registry) None)
     = Normal stdout → Js.trim stdout ≠ version info) →
  let r' := Publisher.loopBody H tgzDir registry n r i file in
  Publisher.skippedCount H r' = Publisher.skippedCount H r
  ∧ Publisher.successCount H r' + Publisher.failureCount H r'
    = Publisher.successCount H r + Publisher.failureCount H r + 1
  ∧ Publisher.publishCommands (Publisher.trace H r')
    = Publisher.publishCommands (Publisher.trace H r)
      ++ [Publisher.publishCommand (path_join H tgzDir file) registry].
Proof.
  intros Hinfo Hview. unfold Publisher.loopBody. rewrite Hinfo.
  unfold Publisher.isPackagePublished, Publisher.log.
  cbn [Publisher.world Publisher.say Publisher.trace].
  specialize (Hview (Publisher.world H r)).
  destruct (exec H (Publisher.world H r) _ None) as [w1 [stdout|message]].
  - specialize (Hview stdout eq_refl). apply String.eqb_neq in Hview. rewrite Hview.
    cbn [Publisher.world Publisher.say Publisher.trace Publisher.setWorld].
    destruct (exec H w1 _ None) as [w2 [out|message]];
      cbn [Publisher.world Publisher.say Publisher.trace Publisher.setWorld
           Publisher.skippedCount Publisher.successCount Publisher.failureCount];
      rewrite !publishCommands_app; cbn [Publisher.publishCommands flat_map];
      rewrite !List.app_nil_r; (split; [reflexivity | split; [lia | reflexivity]]).
  - cbn [Publisher.world Publisher.say Publisher.trace Publisher.setWorld].
    destruct (exec H w1 _ None) as [w2 [out|msg]];
      cbn [Publisher.world Publisher.say Publisher.trace Publisher.setWorld
           Publisher.skippedCount Publisher.successCount Publisher.failureCount];
      rewrite !publishCommands_app; cbn [Publisher.publishCommands flat_map];
      rewrite !List.app_nil_r; (split; [reflexivity | split; [lia | reflexivity]]).
Qed.

(** The same file, with the world the turn leaves and the counter that
    its publish command moves: the success count when the command returns,
    the failure count when it throws. *)
Lemma loopBody_outcome (H : Host) (tgzDir registry : string) (n i : nat)
    (file : string) (info : PackageInfo) (r : Publisher.Run H) :
  extractPackageInfo file = Some info →
  (∀ w' stdout,
     snd (exec H w' (Publisher.viewCommand (name info) (version info) registry) None)
     = Normal stdout → Js.trim stdout ≠ version info) →
  let r' := Publisher.loopBody H tgzDir registry n r i file in
  let w1 :=
    fst (exec H (Publisher.world H r)
           (Publisher.viewCommand (name info) (version info) registry) None) in
  let done := exec H w1 (Publisher.publishCommand (path_join H tgzDir file) registry) None in
  let ok := match snd done with Normal _ => true | Throw _ => false end in
  Publisher.world H r' = fst done
  ∧ Publisher.skippedCount H r' = Publisher.skippedCount H r
  ∧ Publisher.successCount H r' = Publisher.successCount H r + (if ok then 1 else 0)
  ∧ Publisher.failureCount H r' = Publisher.failureCount H r + (if ok then 0 else 1)
  ∧ registryQueries (Publisher.trace H r')
    = registryQueries (Publisher.trace H r)
      ++ [Publisher.viewCommand (name info) (version info) registry].
Proof.
  intros Hinfo Hview. cbv zeta. unfold Publisher.loopBody. rewrite Hinfo.
  unfold Publisher.isPackagePublished, Publisher.log.
  cbn [Publisher.world Publisher.say Publisher.trace].
  specialize (Hview (Publisher.world H r)).
  destruct (exec H (Publisher.world H r) _ None) as [w1 [stdout|message]]; cbn [fst].
  - specialize (Hview stdout eq_refl). apply String.eqb_neq in Hview. rewrite Hview.
    cbn [Publisher.world Publisher.say Publisher.trace Publisher.setWorld].
    destruct (exec H w1 _ None) as [w2 [out|message]];
      cbn [Publisher.world Publisher.say Publisher.trace Publisher.setWorld fst snd
           Publisher.skippedCount Publisher.successCount Publisher.failureCount];
      rewrite !registryQueries_app; cbn [registryQueries flat_map app];
      rewrite !List.app_nil_r; split_and!; try reflexivity; lia.
  - cbn [Publisher.world Publisher.say Publisher.trace Publisher.setWorld].
    destruct (exec H w1 _ None) as [w2 [out|msg]];
      cbn [Publisher.world Publisher.say Publisher.trace Publisher.setWorld fst snd
           Publisher.skippedCount Publisher.successCount Publisher.failureCount];
      rewrite !registryQueries_app; cbn [registryQueries flat_map app];
      rewrite !List.app_nil_r; split_and!; try reflexivity; lia.
Qed.

(** The loop over files none of which the registry reports: the queries
    are those of the decoded identities, nothing is skipped, and every file
    is counted by the outcome of its own publish command. *)
Lemma loop_outcomes (H : Host) (tgzDir registry : string) (n : nat) (files : list string) :
  (∀ file, In file files →
     ∃ info, extractPackageInfo file = Some info
       ∧ ∀ w' stdout,
           snd (exec H w' (Publisher.viewCommand (name info) (version info) registry) None)
           = Normal stdout → Js.trim stdout ≠ version info) →
  ∀ (i : nat) (r : Publisher.Run H),
    let r' := Publisher.loop H (Publisher.loopBody H tgzDir registry n) i files r in
    let outcomes := publishOutcomes H tgzDir registry files (Publisher.world H r) in
    Publisher.skippedCount H r' = Publisher.skippedCount H r
    ∧ Publisher.successCount H r'
      = Publisher.successCount H r + length (List.filter snd outcomes)
    ∧ Publisher.failureCount H r'
      = Publisher.failureCount H r + length (List.filter (fun o => negb (snd o)) outcomes)
    ∧ registryQueries (Publisher.trace H r')
      = registryQueries (Publisher.trace H r) ++ flat_map (registryQuery registry) files
    ∧ Publisher.publishCommands (Publisher.trace H r')
      = Publisher.publishCommands (Publisher.trace H r) ++ map fst outcomes
    ∧ map fst outcomes
      = map (fun file => Publisher.publishCommand (path_join H tgzDir file) registry) files.
Proof.
  induction files as [|file files IH]; intros Hall i r; cbv zeta;
    cbn [Publisher.loop publishOutcomes flat_map map].
  - cbn. rewrite !List.app_nil_r. split_and!; try reflexivity; lia.
  - destruct (Hall file (or_introl eq_refl)) as (info & Hinfo & Hview).
    destruct (loopBody_outcome H tgzDir registry n i file info r Hinfo Hview)
      as (Hw & Hk & Hs & Hf & Hq).
    destruct (loopBody_unpublished H tgzDir registry n i file info r Hinfo Hview)
      as (_ & _ & Hc).
    destruct (IH (fun f Hin => Hall f (or_intror Hin)) (i + 1)
                (Publisher.loopBody H tgzDir registry n r i file))
      as (Hk' & Hs' & Hf' & Hq' & Hc' & Hm').
    cbv zeta in *. unfold registryQuery at 1. rewrite Hinfo.
    rewrite Hw in Hs', Hf', Hc', Hm'.
    rewrite Hk', Hs', Hf', Hq', Hc', Hk, Hs, Hf, Hq, Hc. cbn [map fst snd List.filter].
    rewrite Hm', <- !List.app_assoc. cbn [app].
    destruct (snd (exec H _ _ None)) as [out|message];
      cbn [negb length]; split_and!; try reflexivity; lia.
Qed.

(** C1, as the code has it.  The decoder turns [left-pad-1.0.0.tgz] into
    [@left/pad@1.0.0] and [@scope-utils-2.3.4.tgz] into [@@scope/utils@2.3.4].
    Over a directory that holds exactly these two files, and against a
    registry whose query reports neither of those two identities, the run
    asks the registry for exactly those two identities, in the order of the
    listing, and skips nothing: it ends with status 0, reports 0 skipped, and
    runs two publish commands, one for each file in the order of the listing.
    Each file is counted by the outcome of its own publish command: the
    success count is the number of the two commands that returned, the
    failure count the number that threw. *)
Theorem two_archives_run (H : Host) (w : World H) (arg0 : string) (rest entries : list string) :
  let tgzDir := path_resolve H arg0 in
  let registry := Js.or_default (head rest) Publisher.defaultRegistry in
  existsSync H w tgzDir = true →
  readdirSync H w tgzDir = Normal entries →
  entries = ["left-pad-1.0.0.tgz"; "@scope-utils-2.3.4.tgz"]
  ∨ entries = ["@scope-utils-2.3.4.tgz"; "left-pad-1.0.0.tgz"] →
  (∀ w' stdout,
     snd (exec H w' (Publisher.viewCommand "@left/pad" "1.0.0" registry) None)
     = Normal stdout → Js.trim stdout ≠ "1.0.0") →
  (∀ w' stdout,
     snd (exec H w' (Publisher.viewCommand "@@scope/utils" "2.3.4" registry) None)
     = Normal stdout → Js.trim stdout ≠ "2.3.4") →
  let outcomes := publishOutcomes H tgzDir registry entries w in
  extractPackageInfo "left-pad-1.0.0.tgz" = Some (mkPackageInfo "@left/pad" "1.0.0")
  ∧ extractPackageInfo "@scope-utils-2.3.4.tgz" = Some (mkPackageInfo "@@scope/utils" "2.3.4")
  ∧ ∃ r, Publisher.script H (arg0 :: rest) w = (r, 0)
      ∧ registryQueries (Publisher.trace H r)
        = map (fun file =>
                 if String.eqb file "left-pad-1.0.0.tgz"
                 then Publisher.viewCommand "@left/pad" "1.0.0" registry
                 else Publisher.viewCommand "@@scope/utils" "2.3.4" registry) entries
      ∧ Publisher.skippedCount H r = 0
      ∧ Publisher.successCount H r + Publisher.failureCount H r = 2
      ∧ Publisher.publishCommands (Publisher.trace H r)
        = map (fun file => Publisher.publishCommand (path_join H tgzDir file) registry) entries
      ∧ Publisher.publishCommands (Publisher.trace H r) = map fst outcomes
      ∧ Publisher.successCount H r = length (List.filter snd outcomes)
      ∧ Publisher.failureCount H r = length (List.filter (fun o => negb (snd o)) outcomes)
      ∧ In (Publisher.Log (Publisher.MsgSuccess (Publisher.successCount H r)) true)
           (Publisher.trace H r)
      ∧ In (Publisher.Log (Publisher.MsgSkipped 0) true) (Publisher.trace H r)
      ∧ In (Publisher.Log (Publisher.MsgFailed (Publisher.failureCount H r)) true)
           (Publisher.trace H r).
Proof.
  intros tgzDir registry He Hr Hentries Hlp Hsu outcomes.
  assert (Dlp : extractPackageInfo "left-pad-1.0.0.tgz"
                = Some (mkPackageInfo "@left/pad" "1.0.0")) by reflexivity.
  assert (Dsu : extractPackageInfo "@scope-utils-2.3.4.tgz"
                = Some (mkPackageInfo "@@scope/utils" "2.3.4")) by reflexivity.
  split; [exact Dlp | split; [exact Dsu|]].
  unfold Publisher.script, Publisher.main. fold tgzDir registry.
  cbn [Publisher.world Publisher.say]. rewrite He, Hr.
  assert (Hfiles : List.filter (fun file => Js.endsWith file ".tgz") entries = entries)
    by (destruct Hentries as [-> | ->]; reflexivity).
  rewrite Hfiles.
  assert (Hlen : length entries = 2) by (destruct Hentries as [-> | ->]; reflexivity).
  rewrite Hlen. cbn [Nat.eqb negb].
  assert (Hall : ∀ file, In file entries →
            ∃ info, extractPackageInfo file = Some info
              ∧ ∀ w' stdout,
                  snd (exec H w' (Publisher.viewCommand (name info) (version info) registry)
                         None) = Normal stdout → Js.trim stdout ≠ version info).
  { intros file Hin.
    assert (Hfile : file = "left-pad-1.0.0.tgz" ∨ file = "@scope-utils-2.3.4.tgz")
      by (destruct Hentries as [-> | ->]; cbn in Hin; intuition).
    destruct Hfile as [-> | ->]; eexists; (split; [reflexivity|]); assumption. }
  assert (Hqueries : flat_map (registryQuery registry) entries
            = map (fun file =>
                     if String.eqb file "left-pad-1.0.0.tgz"
                     then Publisher.viewCommand "@left/pad" "1.0.0" registry
                     else Publisher.viewCommand "@@scope/utils" "2.3.4" registry) entries)
    by (destruct Hentries as [-> | ->]; reflexivity).
  assert (Htwo : length outcomes = 2).
  { rewrite <- (length_map fst). subst outcomes.
    match goal with
    | |- length (map fst (publishOutcomes H tgzDir registry entries ?w0)) = 2 =>
        destruct (loop_outcomes H tgzDir registry 2 entries Hall 0
                    (Publisher.mkRun H w0 [] 0 0 0)) as (_ & _ & _ & _ & _ & Hm)
    end.
    cbv zeta in Hm. cbn [Publisher.world] in Hm. rewrite Hm, length_map. exact Hlen. }
  unfold Publisher.log.
  match goal with
  | |- context [Publisher.loop H ?body 0 entries ?r0] =>
      destruct (loop_outcomes H tgzDir registry 2 entries Hall 0 r0)
        as (Hk & Hs & Hf & Hq & Hc & Hm)
  end.
  cbv zeta in Hk, Hs, Hf, Hq, Hc, Hm.
  cbn [Publisher.world Publisher.say Publisher.trace Publisher.skippedCount
       Publisher.successCount Publisher.failureCount] in Hk, Hs, Hf, Hq, Hc, Hm.
  fold outcomes in Hs, Hf, Hc, Hm.
  assert (Hsum : length (List.filter snd outcomes)
                 + length (List.filter (fun o => negb (snd o)) outcomes) = length outcomes).
  { clear. induction outcomes as [|[command ok] l IH]; [reflexivity|].
    cbn [List.filter snd]. destruct ok; cbn [negb length]; lia. }
  eexists. split; [reflexivity|].
  cbn [Publisher.say Publisher.trace Publisher.skippedCount Publisher.successCount
       Publisher.failureCount].
  rewrite !registryQueries_app, !publishCommands_app, Hq, Hc, Hk, Hs, Hf.
  rewrite !registryQueries_app, !publishCommands_app.
  cbn [registryQueries Publisher.publishCommands flat_map app].
  rewrite !List.app_nil_r, Hqueries.
  split_and!; try reflexivity; try lia; try exact Hm.
  all: rewrite !in_app_iff; cbn [In]; tauto.
Qed.

(** C1 as stated does not hold.  The run of the end-to-end example against
    a registry that holds [left-pad@1.0.0] and not [@scope/utils@2.3.4]: the
    query goes to [@left/pad@1.0.0], so the archive of [left-pad] is not
    skipped; two publish commands run and the run reports 1 success, 0
    skipped and 1 failure, not 1 success, 1 skipped and one command. *)
Lemma end_to_end_run :
  let H := TableHost.host TableHost.leftPadOnly in
  let url := TableHost.registryUrl in
  let r := fst (Publisher.script H ["/archives"; url] TableHost.twoArchives) in
  snd (exec H TableHost.twoArchives (Publisher.viewCommand "left-pad" "1.0.0" url) None)
  = Normal ("1.0.0" +:+ TableHost.newline)
  ∧ snd (exec H TableHost.twoArchives (Publisher.viewCommand "@scope/utils" "2.3.4" url) None)
    = Throw "Command failed"
  ∧ readdirSync H TableHost.twoArchives "/archives"
    = Normal ["left-pad-1.0.0.tgz"; "@scope-utils-2.3.4.tgz"]
  ∧ Publisher.successCount H r = 1
  ∧ Publisher.skippedCount H r = 0
  ∧ Publisher.failureCount H r = 1
  ∧ Publisher.publishCommands (Publisher.trace H r)
    = [Publisher.publishCommand "/archives/left-pad-1.0.0.tgz" url;
       Publisher.publishCommand "/archives/@scope-utils-2.3.4.tgz" url]
  ∧ ¬ (Publisher.successCount H r = 1 ∧ Publisher.skippedCount H r = 1
       ∧ Publisher.failureCount H r = 0
       ∧ length (Publisher.publishCommands (Publisher.trace H r)) = 1).
Proof.
  cbv zeta. repeat (split; [vm_compute; reflexivity|]).
  vm_compute. intros (_ & E & _). discriminate.
Qed.

Lemma two_archives_run_witness :
  let H := TableHost.host TableHost.leftPadOnly in
  ∃ r, Publisher.script H ["/archives"] TableHost.twoArchives = (r, 0)
    ∧ registryQueries (Publisher.trace H r)
      = [Publisher.viewCommand "@left/pad" "1.0.0" TableHost.registryUrl;
         Publisher.viewCommand "@@scope/utils" "2.3.4" TableHost.registryUrl]
    ∧ Publisher.skippedCount H r = 0
    ∧ Publisher.successCount H r = 1
    ∧ Publisher.failureCount H r = 1
    ∧ length (Publisher.publishCommands (Publisher.trace H r)) = 2.
Proof.
  cbv zeta.
  destruct (two_archives_run (TableHost.host TableHost.leftPadOnly) TableHost.twoArchives
              "/archives" [] ["left-pad-1.0.0.tgz"; "@scope-utils-2.3.4.tgz"])
    as (_ & _ & r & Hrun & Hq & Hk & _ & Hp & _ & Hs & Hf & _).
  - reflexivity.
  - reflexivity.
  - left. reflexivity.
  - intros w' stdout. vm_compute. discriminate.
  - intros w' stdout. vm_compute. discriminate.
  - exists r. split; [exact Hrun|]. split; [exact Hq|]. split; [exact Hk|].
    split; [exact Hs|]. split; [exact Hf|]. rewrite Hp. reflexivity.
Defined.

(** ** The walk *)

Lemma walkInv_start (before : gset string) (lo hi : nat) (l : list Snapshotter.Event) :
  (∀ d p info, Snapshotter.ReadManifest d p info ∉ l) →
  WalkInv before lo hi (Snapshotter.mkWalk [] before l).
Proof.
  intros Hl. split; cbn.
  - set_solver.
  - constructor.
  - set_solver.
  - intros d p info Hin. now apply Hl in Hin.
  - intros d p info Hin. now apply Hl in Hin.
  - set_solver.
Qed.

Lemma walkInv_emit (before : gset string) (lo hi : nat) (st : Snapshotter.Walk)
    (e : Snapshotter.Event) :
  (∀ d p info, e ≠ Snapshotter.ReadManifest d p info) →
  WalkInv before lo hi st → WalkInv before lo hi (Snapshotter.emit e st).
Proof.
  intros He [Hp Hn Hf Hs Hd Hr]. split; cbn; try assumption.
  - intros d p info [Hin|E%list_elem_of_singleton]%elem_of_app; [eauto|].
    symmetry in E. now apply He in E.
  - intros d p info [Hin|E%list_elem_of_singleton]%elem_of_app; [eauto|].
    symmetry in E. now apply He in E.
  - intros pkg Hin. destruct (Hr pkg Hin) as (d & p & Hev).
    exists d, p. apply elem_of_app. now left.
Qed.

Lemma walkInv_read (before : gset string) (lo hi : nat) (st : Snapshotter.Walk)
    (p : string) (info : option PackageInfo) :
  lo ≤ hi →
  (∀ i, info = Some i → packageKey i ∈ Snapshotter.processedPackages st) →
  WalkInv before lo hi st →
  WalkInv before lo hi (Snapshotter.emit (Snapshotter.ReadManifest lo p info) st).
Proof.
  intros Hlo Hi [Hp Hn Hf Hs Hd Hr]. split; cbn; try assumption.
  - intros d q i [Hin|E%list_elem_of_singleton]%elem_of_app; [eauto|].
    injection E as _ _ E. now apply Hi.
  - intros d q i [Hin|E%list_elem_of_singleton]%elem_of_app; [eauto|].
    injection E as -> _ _. lia.
  - intros pkg Hin. destruct (Hr pkg Hin) as (d & q & Hev).
    exists d, q. apply elem_of_app. now left.
Qed.

(** A new package is recorded (lines 91-92 and 118-119). *)
Lemma walkInv_push (before : gset string) (lo hi : nat) (st : Snapshotter.Walk)
    (p : string) (info : PackageInfo) :
  lo ≤ hi →
  packageKey info ∉ Snapshotter.processedPackages st →
  WalkInv before lo hi st →
  WalkInv before lo hi
    (Snapshotter.mkWalk (Snapshotter.packages st ++ [info])
       ({[packageKey info]} ∪ Snapshotter.processedPackages st)
       (Snapshotter.events st ++ [Snapshotter.ReadManifest lo p (Some info)])).
Proof.
  intros Hlo Hnew [Hp Hn Hf Hs Hd Hr]. rewrite Hp in Hnew. split; cbn.
  - rewrite Hp, fmap_app, list_to_set_app_L. set_solver.
  - rewrite fmap_app. apply NoDup_app. split; [exact Hn | split; [|apply NoDup_singleton]].
    intros key Hkey ->%list_elem_of_singleton. set_solver.
  - intros pkg [Hin| ->%list_elem_of_singleton]%elem_of_app; [eauto | set_solver].
  - intros d q i [Hin|E%list_elem_of_singleton]%elem_of_app.
    + apply elem_of_union_r. eauto.
    + injection E as _ _ <-. set_solver.
  - intros d q i [Hin|E%list_elem_of_singleton]%elem_of_app; [eauto|].
    injection E as -> _ _. lia.
  - intros pkg [Hin| ->%list_elem_of_singleton]%elem_of_app.
    + destruct (Hr pkg Hin) as (d & q & Hev). exists d, q. apply elem_of_app. now left.
    + exists lo, p. apply elem_of_app. right. now apply list_elem_of_singleton.
Qed.

(** The packages of a nested call are appended (lines 97-98 and 124-125). *)
Lemma walkInv_merge (before : gset string) (lo hi : nat) (st r : Snapshotter.Walk) :
  WalkInv before lo hi st →
  WalkInv (Snapshotter.processedPackages st) (S lo) hi r →
  WalkInv before lo hi
    (Snapshotter.mkWalk (Snapshotter.packages st ++ Snapshotter.packages r)
       (Snapshotter.processedPackages r)
       (Snapshotter.events st ++ Snapshotter.events r)).
Proof.
  intros [Hp Hn Hf Hs Hd Hr] [Hp' Hn' Hf' Hs' Hd' Hr']. split; cbn.
  - rewrite Hp', Hp, fmap_app, list_to_set_app_L. set_solver.
  - rewrite fmap_app. apply NoDup_app. split; [exact Hn | split; [|exact Hn']].
    intros key Hkey (pkg & -> & Hpkg)%list_elem_of_fmap.
    apply (Hf' pkg Hpkg). rewrite Hp. apply elem_of_union_r.
    now apply elem_of_list_to_set.
  - intros pkg [Hin|Hin]%elem_of_app; [eauto|].
    intros Hb. apply (Hf' pkg Hin). rewrite Hp. now apply elem_of_union_l.
  - intros d q i [Hin|Hin]%elem_of_app; [|eauto].
    rewrite Hp'. apply elem_of_union_l. eauto.
  - intros d q i [Hin|Hin]%elem_of_app; [eauto|].
    apply Hd' in Hin. lia.
  - intros pkg [Hin|Hin]%elem_of_app.
    + destruct (Hr pkg Hin) as (d & q & Hev). exists d, q. apply elem_of_app. now left.
    + destruct (Hr' pkg Hin) as (d & q & Hev). exists d, q. apply elem_of_app. now right.
Qed.

Lemma visitPackage_ok (H : Host) (w : World H)
    (nested : string → gset string → option Snapshotter.Walk)
    (before : gset string) (depth maxDepth : nat) (parentPath entry : string) :
  depth ≤ maxDepth →
  NestedOk depth maxDepth nested →
  BodyOk before depth maxDepth (Snapshotter.visitPackage H w nested depth parentPath entry).
Proof.
  intros Hd Hnested st Hst. unfold Snapshotter.visitPackage.
  destruct (isDirectory H w _) as [[|]|message]; [|eauto|eauto].
  destruct (Snapshotter.getPackageInfo H w _) as [info|].
  - cbn [Snapshotter.processedPackages Snapshotter.emit].
    destruct (decide (packageKey info ∈ Snapshotter.processedPackages st)) as [Hin|Hnew].
    + eexists _, _. split; [reflexivity|].
      apply walkInv_read; [assumption | | assumption]. now intros i [= <-].
    + cbn [Snapshotter.packages Snapshotter.events Snapshotter.processedPackages].
      pose proof (walkInv_push before depth maxDepth st
                    (path_join H (path_join H parentPath entry) "package.json")
                    info Hd Hnew Hst) as Hpush.
      destruct (existsSync H w _); [|eauto].
      destruct (Hnested (path_join H (path_join H parentPath entry) "node_modules")
                  ({[packageKey info]} ∪ Snapshotter.processedPackages st))
        as (r & -> & Hr).
      eexists _, _. split; [reflexivity|].
      exact (walkInv_merge _ _ _ _ _ Hpush Hr).
  - eexists _, _. split; [reflexivity|].
    apply walkInv_read; [assumption | discriminate | assumption].
Qed.

Lemma forOf_ok (H : Host)
    (body : string → Snapshotter.Walk → option (Snapshotter.Walk * option string))
    (before : gset string) (lo hi : nat) (entries : list string) :
  (∀ entry, BodyOk before lo hi (body entry)) →
  BodyOk before lo hi (Snapshotter.forOf body entries).
Proof.
  intros Hbody. induction entries as [|entry rest IH]; intros st Hst; cbn.
  - eauto.
  - destruct (Hbody entry st Hst) as (st' & [message|] & -> & Hst'); [eauto|].
    now apply IH.
Qed.

Lemma visitNamespace_ok (H : Host) (w : World H)
    (nested : string → gset string → option Snapshotter.Walk)
    (before : gset string) (depth maxDepth : nat) (nodeModulesPath entry : string) :
  depth ≤ maxDepth →
  NestedOk depth maxDepth nested →
  BodyOk before depth maxDepth
    (Snapshotter.visitNamespace H w nested depth nodeModulesPath entry).
Proof.
  intros Hd Hnested st Hst. unfold Snapshotter.visitNamespace.
  destruct (isDirectory H w _) as [[|]|message]; [|eauto|eauto].
  destruct (readdirSync H w _) as [namespaceEntries|message].
  - destruct (forOf_ok H _ before depth maxDepth namespaceEntries
                (fun e => visitPackage_ok H w nested before depth maxDepth
                            (path_join H nodeModulesPath entry) e Hd Hnested)
                st Hst) as (st' & [message|] & -> & Hst'); [|eauto].
    eexists _, _. split; [reflexivity|]. now apply walkInv_emit.
  - eexists _, _. split; [reflexivity|]. now apply walkInv_emit.
Qed.

Lemma visitEntry_ok (H : Host) (w : World H)
    (nested : string → gset string → option Snapshotter.Walk)
    (before : gset string) (depth maxDepth : nat) (nodeModulesPath entry : string) :
  depth ≤ maxDepth →
  NestedOk depth maxDepth nested →
  BodyOk before depth maxDepth (Snapshotter.visitEntry H w nested depth nodeModulesPath entry).
Proof.
  intros Hd Hnested st Hst. unfold Snapshotter.visitEntry.
  destruct (Js.startsWith entry "@").
  - now apply visitNamespace_ok.
  - destruct (_ && _); [now apply visitPackage_ok | eauto].
Qed.

(** With enough fuel a call of the walk returns, and what it returns
    satisfies the invariant. *)
Lemma getAllPackages_ok (H : Host) (w : World H) (maxDepth fuel : nat) :
  ∀ depth nodeModulesPath before,
    maxDepth + 1 - depth < fuel →
    ∃ r, Snapshotter.getAllPackages H fuel w nodeModulesPath before depth maxDepth = Some r
      ∧ WalkInv before depth maxDepth r.
Proof.
  induction fuel as [|fuel IH]; intros depth nodeModulesPath before Hfuel; [lia|].
  cbn [Snapshotter.getAllPackages].
  destruct (Nat.ltb_spec maxDepth depth) as [Hdeep|Hd].
  { eexists. split; [reflexivity|]. apply walkInv_start.
    intros d p info [E|[]%elem_of_nil]%elem_of_cons. discriminate. }
  destruct (existsSync H w nodeModulesPath); cbn [negb].
  2:{ eexists. split; [reflexivity|]. apply walkInv_start.
      intros d p info. destruct (Nat.eqb depth 0).
      - intros [E|[]%elem_of_nil]%elem_of_cons. discriminate.
      - apply not_elem_of_nil. }
  destruct (readdirSync H w nodeModulesPath) as [entries|message].
  2:{ eexists. split; [reflexivity|]. apply walkInv_start.
      intros d p info [E|[]%elem_of_nil]%elem_of_cons. discriminate. }
  assert (Hnested : NestedOk depth maxDepth
            (fun path processed =>
               Snapshotter.getAllPackages H fuel w path processed (depth + 1) maxDepth)).
  { intros path processed. replace (depth + 1) with (S depth) by lia.
    apply IH. lia. }
  destruct (forOf_ok H _ before depth maxDepth entries
              (fun e => visitEntry_ok H w _ before depth maxDepth nodeModulesPath e Hd Hnested)
              (Snapshotter.mkWalk [] before []))
    as (st & [message|] & -> & Hst).
  - apply walkInv_start. intros d p info. apply not_elem_of_nil.
  - eexists. split; [reflexivity|]. now apply walkInv_emit.
  - eauto.
Qed.

(** *** More fuel changes nothing *)

Lemma visitPackage_mono (H : Host) (w : World H)
    (nested nested' : string → gset string → option Snapshotter.Walk)
    (depth : nat) (parentPath entry : string) (st : Snapshotter.Walk)
    (x : Snapshotter.Walk * option string) :
  Extends nested nested' →
  Snapshotter.visitPackage H w nested depth parentPath entry st = Some x →
  Snapshotter.visitPackage H w nested' depth parentPath entry st = Some x.
Proof.
  intros Hext. unfold Snapshotter.visitPackage.
  destruct (isDirectory H w _) as [[|]|message]; try easy.
  destruct (Snapshotter.getPackageInfo H w _) as [info|]; try easy.
  destruct (decide _); try easy.
  destruct (existsSync H w _); try easy.
  destruct (nested _ _) as [r|] eqn:E; [|discriminate].
  now rewrite (Hext _ _ _ E).
Qed.

Lemma forOf_mono (H : Host)
    (body body' : string → Snapshotter.Walk → option (Snapshotter.Walk * option string))
    (entries : list string) :
  (∀ entry st x, body entry st = Some x → body' entry st = Some x) →
  ∀ st x, Snapshotter.forOf body entries st = Some x →
          Snapshotter.forOf body' entries st = Some x.
Proof.
  intros Hbody. induction entries as [|entry rest IH]; intros st x; cbn; [easy|].
  destruct (body entry st) as [[st' [message|]]|] eqn:E; [| |discriminate];
    rewrite (Hbody _ _ _ E); [easy | apply IH].
Qed.

Lemma visitEntry_mono (H : Host) (w : World H)
    (nested nested' : string → gset string → option Snapshotter.Walk)
    (depth : nat) (nodeModulesPath entry : string) (st : Snapshotter.Walk)
    (x : Snapshotter.Walk * option string) :
  Extends nested nested' →
  Snapshotter.visitEntry H w nested depth nodeModulesPath entry st = Some x →
  Snapshotter.visitEntry H w nested' depth nodeModulesPath entry st = Some x.
Proof.
  intros Hext. unfold Snapshotter.visitEntry, Snapshotter.visitNamespace.
  destruct (Js.startsWith entry "@").
  - destruct (isDirectory H w _) as [[|]|message]; try easy.
    destruct (readdirSync H w _) as [namespaceEntries|message]; try easy.
    destruct (Snapshotter.forOf _ namespaceEntries st) as [y|] eqn:E; [|discriminate].
    rewrite (forOf_mono H _ (Snapshotter.visitPackage H w nested' depth
                               (path_join H nodeModulesPath entry)) _
               (fun e s z => visitPackage_mono H w nested nested' depth _ e s z Hext)
               _ _ E).
    easy.
  - destruct (_ && _); [|easy]. now apply visitPackage_mono.
Qed.

Lemma getAllPackages_mono (H : Host) (w : World H) (maxDepth fuel : nat) :
  ∀ fuel' depth nodeModulesPath before r,
    fuel ≤ fuel' →
    Snapshotter.getAllPackages H fuel w nodeModulesPath before depth maxDepth = Some r →
    Snapshotter.getAllPackages H fuel' w nodeModulesPath before depth maxDepth = Some r.
Proof.
  induction fuel as [|fuel IH]; intros fuel' depth nodeModulesPath before r Hle; [easy|].
  destruct fuel' as [|fuel']; [lia|]. cbn [Snapshotter.getAllPackages].
  destruct (Nat.ltb maxDepth depth); [easy|].
  destruct (existsSync H w nodeModulesPath); cbn [negb]; [|easy].
  destruct (readdirSync H w nodeModulesPath) as [entries|message]; [|easy].
  destruct (Snapshotter.forOf _ entries _) as [y|] eqn:E; [|discriminate].
  rewrite (forOf_mono H _
             (Snapshotter.visitEntry H w
                (fun path processed =>
                   Snapshotter.getAllPackages H fuel' w path processed (depth + 1) maxDepth)
                depth nodeModulesPath) _
             (fun e s z => visitEntry_mono H w _ _ depth nodeModulesPath e s z
                             (fun path b r' => IH fuel' (depth + 1) path b r' ltac:(lia)))
             _ _ E).
  easy.
Qed.

(** A walk that returned satisfies the invariant, whatever its fuel. *)
Lemma getAllPackages_inv (H : Host) (w : World H) (fuel depth maxDepth : nat)
    (nodeModulesPath : string) (before : gset string) (r : Snapshotter.Walk) :
  Snapshotter.getAllPackages H fuel w nodeModulesPath before depth maxDepth = Some r →
  WalkInv before depth maxDepth r.
Proof.
  intros E.
  destruct (getAllPackages_ok H w maxDepth (fuel + (maxDepth + 2)) depth nodeModulesPath before)
    as (r' & E' & Hr'); [lia|].
  rewrite (getAllPackages_mono H w maxDepth fuel (fuel + (maxDepth + 2)) _ _ _ _
             ltac:(lia) E) in E'.
  now injection E' as <-.
Qed.

(** C6.  For every host, so for every directory tree, cyclic or endless, a
    call of the walk at [depth] with maximum depth [maxDepth] returns once its
    fuel exceeds the number of levels left; more fuel gives the same result.
    Every manifest it reads, it reads at a depth between [depth] and
    [maxDepth], and every package of the result comes from such a manifest:
    nothing below the bound is recorded.  The first call of [main] has depth
    0, maximum depth 10 and enough fuel. *)
Theorem walk_terminates_within_depth (H : Host) (w : World H) (nodeModulesPath : string)
    (processed : gset string) (depth maxDepth fuel : nat) :
  maxDepth + 1 - depth < fuel →
  ∃ walk,
    Snapshotter.getAllPackages H fuel w nodeModulesPath processed depth maxDepth = Some walk
    ∧ (∀ fuel', fuel ≤ fuel' →
         Snapshotter.getAllPackages H fuel' w nodeModulesPath processed depth maxDepth
         = Some walk)
    ∧ (∀ d p info,
         Snapshotter.ReadManifest d p info ∈ Snapshotter.events walk → depth ≤ d ≤ maxDepth)
    ∧ (∀ pkg, pkg ∈ Snapshotter.packages walk →
         ∃ d p, Snapshotter.ReadManifest d p (Some pkg) ∈ Snapshotter.events walk
                ∧ d ≤ maxDepth)
    ∧ (maxDepth < depth → Snapshotter.packages walk = []).
Proof.
  intros Hfuel.
  destruct (getAllPackages_ok H w maxDepth fuel depth nodeModulesPath processed Hfuel)
    as (walk & E & [_ _ _ _ Hd Hr]).
  exists walk. split; [exact E | split; [|split; [exact Hd | split]]].
  - intros fuel' Hle. now apply (getAllPackages_mono H w maxDepth fuel).
  - intros pkg Hin. destruct (Hr pkg Hin) as (d & p & Hev).
    exists d, p. split; [exact Hev|]. now apply Hd in Hev.
  - intros Hdeep. destruct (Snapshotter.packages walk) as [|pkg l] eqn:Hp; [reflexivity|].
    destruct (Hr pkg) as (d & p & Hev); [left|].
    apply Hd in Hev. lia.
Qed.

(** On the endless tree the walk of [main] returns the eleven packages of
    depths 0 to 10. *)
Lemma walk_terminates_within_depth_witness :
  ∃ walk,
    Snapshotter.getAllPackages0 Endless.host tt "/proj/node_modules" = Some walk
    ∧ length (Snapshotter.packages walk) = 11
    ∧ ∀ d p info,
        Snapshotter.ReadManifest d p info ∈ Snapshotter.events walk → 0 ≤ d ≤ 10.
Proof.
  destruct (walk_terminates_within_depth Endless.host tt "/proj/node_modules" ∅ 0 10 12)
    as (walk & E & _ & Hd & _); [lia|].
  exists walk. split; [exact E | split; [|exact Hd]].
  unfold Snapshotter.getAllPackages0, Snapshotter.defaultMaxDepth in *.
  assert (E' : option_map (fun x => length (Snapshotter.packages x))
                 (Snapshotter.getAllPackages Endless.host 12 tt "/proj/node_modules" ∅ 0 10)
               = Some 11) by (vm_compute; reflexivity).
  rewrite E in E'. now injection E'.
Defined.

(** ** Deduplication *)




Lemma insertSorted_perm (cmp : PackageInfo → PackageInfo → Z) (x : PackageInfo)
    (l : list PackageInfo) :
  Permutation (Snapshotter.insertSorted cmp x l) (x :: l).
Proof.
  induction l as [|y l IH]; cbn; [reflexivity|].
  destruct (Z.ltb _ _); [|reflexivity].
  rewrite IH. apply perm_swap.
Qed.

Lemma sort_perm (cmp : PackageInfo → PackageInfo → Z) (l : list PackageInfo) :
  Permutation (Snapshotter.sort cmp l) l.
Proof.
  unfold Snapshotter.sort. induction l as [|x l IH]; cbn; [reflexivity|].
  rewrite insertSorted_perm. now constructor.
Qed.

Lemma mapSet_new (m : list (string * PackageInfo)) (pkg : PackageInfo) :
  packageKey pkg ∉ m.*1 →
  Snapshotter.mapSet m (packageKey pkg) pkg = m ++ [(packageKey pkg, pkg)].
Proof.
  induction m as [|[k v] m IH]; [reflexivity|].
  rewrite fmap_cons, not_elem_of_cons. cbn [fst]. intros [Hne Hm]. cbn.
  apply not_eq_sym, String.eqb_neq in Hne. rewrite Hne. now rewrite IH.
Qed.

(** Without a repeated key [new Map] keeps every pair in its place. *)
Lemma newMap_nodup (l : list PackageInfo) :
  NoDup (packageKey <$> l) →
  map snd (Snapshotter.newMap (map (fun pkg => (packageKey pkg, pkg)) l)) = l.
Proof.
  unfold Snapshotter.newMap.
  assert (Hgen : ∀ acc : list PackageInfo,
            NoDup (packageKey <$> (acc ++ l)) →
            map snd (fold_left (fun m kv => Snapshotter.mapSet m (fst kv) (snd kv))
                       (map (fun pkg => (packageKey pkg, pkg)) l)
                       (map (fun pkg => (packageKey pkg, pkg)) acc))
            = acc ++ l).
  { induction l as [|pkg l IH]; intros acc Hnd; cbn [map fold_left fst snd].
    - rewrite List.app_nil_r, map_map. cbn. apply map_id.
    - rewrite mapSet_new.
      + replace (map (fun pkg0 => (packageKey pkg0, pkg0)) acc ++ [(packageKey pkg, pkg)])
          with (map (fun pkg0 => (packageKey pkg0, pkg0)) (acc ++ [pkg]))
          by now rewrite map_app.
        rewrite IH; rewrite <- List.app_assoc; [reflexivity | exact Hnd].
      + rewrite fmap_app, NoDup_app in Hnd. destruct Hnd as (_ & Hdisj & _).
        intros Hin. apply (Hdisj (packageKey pkg)).
        * apply list_elem_of_fmap in Hin as ([k v] & E & Hin). cbn in E. subst k.
          apply list_elem_of_In, in_map_iff in Hin as (pkg' & [= E ->] & Hin).
          rewrite <- E. apply list_elem_of_fmap_2. now apply list_elem_of_In.
        * rewrite fmap_cons. left. }
  intros Hnd. exact (Hgen [] Hnd).
Qed.



(** ** The snapshotter's [main] *)

Lemma isPackageAlreadyDownloaded_true (H : Host) (w : World H)
    (name version outputDir : string) :
  Snapshotter.isPackageAlreadyDownloaded H w name version outputDir = true ↔
  ∃ filename, In filename (getPossiblePackageFilenames name version)
    ∧ existsSync H w (path_join H outputDir filename) = true.
Proof. unfold Snapshotter.isPackageAlreadyDownloaded. apply existsb_exists. Qed.

(** C7.  When one of the candidate file names of a package exists in the
    output directory, the callback of the loop of [main] runs no command for
    it and leaves the world as it is: it prints that the package is skipped
    and adds one to the successes and one to the skipped. *)
Theorem forEachBody_skips_existing (H : Host) (outputDir : string) (total index : nat)
    (r : Snapshotter.Run H) (pkg : PackageInfo) :
  (∃ filename, In filename (getPossiblePackageFilenames (name pkg) (version pkg))
     ∧ existsSync H (Snapshotter.world H r) (path_join H outputDir filename) = true) →
  let r' := Snapshotter.forEachBody H outputDir total r index pkg in
  r' = Snapshotter.mkRun H (Snapshotter.world H r)
         (Snapshotter.trace H r
          ++ [Snapshotter.ConsoleLog
                (Snapshotter.MsgSkip (index + 1) total (name pkg) (version pkg))])
         (Snapshotter.successCount H r + 1) (Snapshotter.failCount H r)
         (Snapshotter.skippedCount H r + 1)
  ∧ Snapshotter.createCommands (Snapshotter.trace H r')
    = Snapshotter.createCommands (Snapshotter.trace H r).
Proof.
  intros Hex%isPackageAlreadyDownloaded_true. cbv zeta.
  unfold Snapshotter.forEachBody. rewrite Hex. cbn. split; [reflexivity|].
  unfold Snapshotter.createCommands. rewrite flat_map_app. cbn. apply List.app_nil_r.
Qed.

Lemma forEachBody_skips_existing_witness :
  let H := TableHost.host [] in
  let r := Snapshotter.mkRun H TableHost.archived [] 0 0 0 in
  let r' := Snapshotter.forEachBody H "/proj/pkg" 1 r 0 (mkPackageInfo "@scope/utils" "2.3.4") in
  Snapshotter.createCommands (Snapshotter.trace H r') = []
  ∧ Snapshotter.successCount H r' = 1
  ∧ Snapshotter.skippedCount H r' = 1
  ∧ Snapshotter.failCount H r' = 0.
Proof.
  cbv zeta.
  destruct (forEachBody_skips_existing (TableHost.host []) "/proj/pkg" 1 0
              (Snapshotter.mkRun (TableHost.host []) TableHost.archived [] 0 0 0)
              (mkPackageInfo "@scope/utils" "2.3.4")) as [E C].
  - exists "scope-utils-2.3.4.tgz". split; [left; reflexivity | reflexivity].
  - cbv zeta in E, C. rewrite C, E. repeat split.
Defined.

(** [createPackageFile] has the same test: it runs no command either for
    a package whose archive exists. *)
Lemma createPackageFile_skips_existing (H : Host) (outputDir : string) (current total : nat)
    (r : Snapshotter.Run H) (pkg : PackageInfo) :
  Snapshotter.isPackageAlreadyDownloaded H (Snapshotter.world H r) (name pkg) (version pkg)
    outputDir = true →
  Snapshotter.createPackageFile H pkg outputDir current total r
  = (Snapshotter.say H
       (Snapshotter.ConsoleLog (Snapshotter.MsgSkip current total (name pkg) (version pkg))) r,
     true).
Proof. intros Hex. unfold Snapshotter.createPackageFile. now rewrite Hex. Qed.

(** A package without an archive: the callback runs [npm pack] once, in the
    output directory, and counts the package by the outcome. *)
Lemma forEachBody_creates_missing (H : Host) (outputDir : string) (total index : nat)
    (r : Snapshotter.Run H) (pkg : PackageInfo) :
  Snapshotter.isPackageAlreadyDownloaded H (Snapshotter.world H r) (name pkg) (version pkg)
    outputDir = false →
  let r' := Snapshotter.forEachBody H outputDir total r index pkg in
  Snapshotter.createCommands (Snapshotter.trace H r')
  = Snapshotter.createCommands (Snapshotter.trace H r)
    ++ ["npm pack " +:+ name pkg +:+ "@" +:+ version pkg]
  ∧ Snapshotter.skippedCount H r' = Snapshotter.skippedCount H r
  ∧ Snapshotter.successCount H r' + Snapshotter.failCount H r'
    = Snapshotter.successCount H r + Snapshotter.failCount H r + 1.
Proof.
  intros Hno. cbv zeta. unfold Snapshotter.forEachBody, Snapshotter.createPackageFile.
  rewrite Hno. cbn [Snapshotter.world Snapshotter.say].
  destruct (exec H _ _ _) as [w' [output|message]];
    cbn; unfold Snapshotter.createCommands; rewrite !flat_map_app; cbn;
    rewrite !List.app_nil_r; (split; [reflexivity | split; [reflexivity | lia]]).
Qed.

(** The part of [main] before the walk writes no file and runs no
    command. *)
Lemma mainSetup_quiet (H : Host) (w : World H) (r : Snapshotter.Run H)
    (res : completion (list string * list string)) :
  Snapshotter.mainSetup H w = (r, res) →
  Snapshotter.filesWritten (Snapshotter.trace H r) = []
  ∧ Snapshotter.createCommands (Snapshotter.trace H r) = [].
Proof.
  unfold Snapshotter.mainSetup, Snapshotter.createDirIfNotExists,
    Snapshotter.getProjectDirectDependencies.
  cbn [Snapshotter.world Snapshotter.say Snapshotter.setWorld Snapshotter.trace].
  repeat (match goal with
          | |- context [existsSync ?h ?x ?p] => destruct (existsSync h x p)
          | |- context [mkdirSync ?h ?x ?p] => destruct (mkdirSync h x p) as [? [?|?]]
          | |- context [unlinkSync ?h ?x ?p] => destruct (unlinkSync h x p) as [? [?|?]]
          | |- context [readJson ?h ?x ?p] => destruct (readJson h x p) as [?|?]
          end;
          cbn [Snapshotter.world Snapshotter.say Snapshotter.setWorld Snapshotter.trace negb]);
    intros [= <- <-]; split; reflexivity.
Qed.

(** C2, as the code has it.  When [node_modules] does not exist at the time
    of the walk, the walk returns an empty result and prints the warning, and
    [main] prints that no package was found and returns: the run ends
    without an error, writes no file, so no [packages-summary.json], and runs
    no command. *)
Theorem main_without_node_modules (H : Host) (w : World H) (r : Snapshotter.Run H)
    (dependencies devDependencies : list string) :
  Snapshotter.mainSetup H w = (r, Normal (dependencies, devDependencies)) →
  existsSync H (Snapshotter.world H r) (path_join H (process_cwd H) "node_modules") = false →
  Snapshotter.getAllPackages0 H (Snapshotter.world H r)
    (path_join H (process_cwd H) "node_modules")
  = Some (Snapshotter.mkWalk [] ∅ [Snapshotter.ConsoleError Snapshotter.MsgNodeModulesMissing])
  ∧ ∃ r', Snapshotter.main H w = Some (r', Normal ())
      ∧ Snapshotter.world H r' = Snapshotter.world H r
      ∧ Snapshotter.trace H r'
        = Snapshotter.trace H r
          ++ [Snapshotter.ConsoleError Snapshotter.MsgNodeModulesMissing;
              Snapshotter.ConsoleLog Snapshotter.MsgNoPackages]
      ∧ Snapshotter.filesWritten (Snapshotter.trace H r') = []
      ∧ Snapshotter.createCommands (Snapshotter.trace H r') = [].
Proof.
  intros Hsetup Hmissing.
  assert (Hwalk : Snapshotter.getAllPackages0 H (Snapshotter.world H r)
                    (path_join H (process_cwd H) "node_modules")
                  = Some (Snapshotter.mkWalk [] ∅
                            [Snapshotter.ConsoleError Snapshotter.MsgNodeModulesMissing])).
  { unfold Snapshotter.getAllPackages0. cbn. now rewrite Hmissing. }
  split; [exact Hwalk|].
  unfold Snapshotter.main. rewrite Hsetup. unfold Snapshotter.mainWalk. rewrite Hwalk.
  cbn. eexists. split; [reflexivity|]. cbn.
  destruct (mainSetup_quiet H w r _ Hsetup) as [Hw Hc].
  split; [reflexivity | split; [now rewrite <- List.app_assoc|]].
  unfold Snapshotter.filesWritten, Snapshotter.createCommands in *.
  rewrite !flat_map_app, Hw, Hc. split; reflexivity.
Qed.

Lemma main_without_node_modules_witness :
  let H := TableHost.host [] in
  ∃ r', Snapshotter.main H TableHost.noNodeModules = Some (r', Normal ())
    ∧ Snapshotter.filesWritten (Snapshotter.trace H r') = [].
Proof.
  cbv zeta.
  destruct (Snapshotter.mainSetup (TableHost.host []) TableHost.noNodeModules)
    as [r [[dependencies devDependencies]|message]] eqn:E;
    [|vm_compute in E; discriminate].
  destruct (main_without_node_modules (TableHost.host []) TableHost.noNodeModules r
              dependencies devDependencies E) as (_ & r' & Hmain & _ & _ & Hw & _).
  - vm_compute in E. injection E as <- _ _. reflexivity.
  - exists r'. split; [exact Hmain | exact Hw].
Defined.

(** C2 as stated does not hold.  The run of the snapshotter in a project
    without [node_modules] ends without an error and without having written
    [packages-summary.json]. *)
Lemma missing_node_modules_run :
  let H := TableHost.host [] in
  existsSync H TableHost.noNodeModules "/proj/node_modules" = false
  ∧ ∃ r, Snapshotter.main H TableHost.noNodeModules = Some (r, Normal ())
      ∧ Snapshotter.trace H r
        = [Snapshotter.ConsoleLog Snapshotter.MsgBanner;
           Snapshotter.ConsoleLog (Snapshotter.MsgStartTime Snapshotter.currentDateTime);
           Snapshotter.ConsoleLog Snapshotter.MsgUser;
           Snapshotter.Mkdir "/proj/pkg";
           Snapshotter.ConsoleLog (Snapshotter.MsgCreatedDir "/proj/pkg");
           Snapshotter.ConsoleLog (Snapshotter.MsgDirectDeps 0 0);
           Snapshotter.ConsoleLog Snapshotter.MsgReading;
           Snapshotter.ConsoleError Snapshotter.MsgNodeModulesMissing;
           Snapshotter.ConsoleLog Snapshotter.MsgNoPackages]
      ∧ ¬ ∃ summary,
            Snapshotter.WriteFile "packages-summary.json" summary ∈ Snapshotter.trace H r.
Proof.
  cbv zeta. split; [reflexivity|].
  eexists. split; [vm_compute; reflexivity|]. split; [reflexivity|].
  intros [summary Hin]. cbn in Hin.
  repeat (apply elem_of_cons in Hin as [Hin|Hin]; [discriminate|]).
  now apply elem_of_nil in Hin.
Qed.

(** ** More on the decoder: which version it finds *)

Lemma all_chars_without (p : ascii → bool) (s : string) (d : ascii) :
  all_chars p s = true → p d = false → Js.includes s (String d EmptyString) = false.
Proof.
  intros Hs Hd. induction s as [|c s IH]; [reflexivity|].
  simpl in Hs. apply andb_true_iff in Hs as [Hc Hs].
  rewrite includes_cons, (IH Hs). destruct (Ascii.eqb_spec c d) as [->|_]; [congruence|reflexivity].
Qed.

Lemma numericTriple_no_hyphen (t : string) : NumericTriple t → Js.includes t "-" = false.
Proof.
  intros (a & b & c & [_ Ha] & [_ Hb] & [_ Hc] & ->).
  rewrite !includes_sapp, !includes_cons, includes_nil.
  now rewrite (all_chars_without _ _ "-" Ha), (all_chars_without _ _ "-" Hb),
    (all_chars_without _ _ "-" Hc).
Qed.

Lemma tag_no_hyphen (tag : string) : PrereleaseTag tag → Js.includes tag "-" = false.
Proof. intros [_ Ht]. now apply (all_chars_without _ _ "-" Ht). Qed.

(** A string splits in one way only at the first occurrence of a
    character. *)
Lemma first_split_unique (a b a' b' : string) (d : ascii) :
  a +:+ String d b = a' +:+ String d b' →
  Js.includes a (String d EmptyString) = false →
  Js.includes a' (String d EmptyString) = false →
  a = a' ∧ b = b'.
Proof.
  revert a'. induction a as [|c a IH]; intros [|c' a']; sapp.
  - now intros [= ->].
  - intros [= <- _] _. rewrite includes_cons, Ascii.eqb_refl. discriminate.
  - intros [= -> _]. rewrite includes_cons, Ascii.eqb_refl. discriminate.
  - intros [= <- E]. rewrite !includes_cons.
    intros [_ Ha]%orb_false_iff [_ Ha']%orb_false_iff.
    destruct (IH _ E Ha Ha') as [-> ->]. auto.
Qed.

(** The decoder takes the leftmost hyphen that a version-like string
    follows.  So the version it finds in [n-v.tgz] is [v] itself unless [n]
    ends in a hyphen and a numeric dotted triple [t]: then [t-v] is
    version-like too and the decoder finds that. *)
Lemma decoded_version_exact (n v : string) :
  VersionLike v →
  (¬ ∃ front t, n = front +:+ "-" +:+ t ∧ NumericTriple t) →
  ∃ info, extractPackageInfo (n +:+ "-" +:+ v +:+ ".tgz") = Some info ∧ version info = v.
Proof.
  intros Hv Hn. rewrite extractPackageInfo_eq.
  replace (n +:+ "-" +:+ v +:+ ".tgz") with ((n +:+ "-" +:+ v) +:+ ".tgz")
    by now rewrite !sapp_assoc.
  rewrite baseNameOf_tgz.
  destruct (search_end_found _ _ _ (hyphen_version_at n v Hv)) as (i & E & Hi).
  rewrite E. eexists. split; [reflexivity|]. cbn [version].
  destruct (search_end_some _ _ _ E) as (_ & Hm & _).
  apply matches_lang, lang_hyphen_version in Hm as (v' & Hd & Hv').
  rewrite drop_S, Hd. change (Js.drop 1 ("-" +:+ v')) with v'.
  rewrite drop_sapp_le in Hd by assumption.
  destruct (Js.drop i n) as [|c x] eqn:Hx.
  { sapp. now injection Hd as <-. }
  exfalso. sapp. injection Hd as -> Hd.
  assert (Hsplit : n = Js.substring0 n i +:+ "-" +:+ x).
  { rewrite <- (take_drop i n) at 1. now rewrite Hx. }
  destruct Hv' as (t & Ht & [->|(tag & Htag & ->)]).
  - pose proof (numericTriple_no_hyphen t Ht) as Hno.
    rewrite <- Hd, includes_sapp, includes_cons, Ascii.eqb_refl, orb_true_r in Hno.
    discriminate.
  - destruct (Js.includes x "-") eqn:Hxh.
    + destruct (includes_first _ _ Hxh) as (x1 & x2 & -> & Hx1).
      rewrite sapp_assoc in Hd. sapp.
      destruct (first_split_unique _ _ _ _ _ Hd Hx1 (numericTriple_no_hyphen t Ht))
        as [_ <-].
      pose proof (tag_no_hyphen _ Htag) as Hno.
      rewrite includes_sapp, includes_cons, Ascii.eqb_refl, orb_true_r in Hno.
      discriminate.
    + destruct (first_split_unique _ _ _ _ _ Hd Hxh (numericTriple_no_hyphen t Ht))
        as [-> _].
      apply Hn. eauto.
Qed.


(** ** Further facts about the two scripts *)

Lemma isPackagePublished_total_witness :
  let H := TableHost.host TableHost.leftPadOnly in
  let r := Publisher.mkRun H TableHost.twoArchives [] 0 0 0 in
  snd (Publisher.isPackagePublished H "left-pad" "1.0.0" TableHost.registryUrl r) = Normal true
  ∧ snd (Publisher.isPackagePublished H "@scope/utils" "2.3.4" TableHost.registryUrl r)
    = Normal false
  ∧ ∃ published,
      snd (Publisher.isPackagePublished H "@left/pad" "1.0.0" TableHost.registryUrl r)
      = Normal published
      ∧ published = false.
Proof.
  cbv zeta. split; [reflexivity | split; [reflexivity|]].
  destruct (isPackagePublished_total (TableHost.host TableHost.leftPadOnly)
              "@left/pad" "1.0.0" TableHost.registryUrl
              (Publisher.mkRun (TableHost.host TableHost.leftPadOnly)
                 TableHost.twoArchives [] 0 0 0))
    as (published & E & _ & Hfail).
  exists published. split; [exact E|]. apply (Hfail "Command failed"). reflexivity.
Defined.

(** On a cycle the walk reads the manifest of [a@1.0.0] at depth 0 and
    again at depth 1, records it once and stops there. *)
Lemma walk_on_cycle :
  option_map (fun walk => (Snapshotter.packages walk, Snapshotter.events walk))
    (Snapshotter.getAllPackages0 Cycle.host tt "/proj/node_modules")
  = Some ([mkPackageInfo "a" "1.0.0"],
          [Snapshotter.ReadManifest 0 "/proj/node_modules/a/package.json"
             (Some (mkPackageInfo "a" "1.0.0"));
           Snapshotter.ReadManifest 1 "/proj/node_modules/a/node_modules/a/package.json"
             (Some (mkPackageInfo "a" "1.0.0"))]).
Proof. vm_compute. reflexivity. Qed.

(** [main] always returns: its walk has enough fuel. *)
Lemma main_returns (H : Host) (w : World H) : ∃ x, Snapshotter.main H w = Some x.
Proof.
  unfold Snapshotter.main.
  destruct (Snapshotter.mainSetup H w) as [r [[dependencies devDependencies]|message]]; [|eauto].
  unfold Snapshotter.mainWalk, Snapshotter.getAllPackages0.
  destruct (getAllPackages_ok H (Snapshotter.world H r) Snapshotter.defaultMaxDepth
              (Snapshotter.defaultMaxDepth + 2) 0
              (path_join H (process_cwd H) "node_modules") ∅) as (walk & -> & _);
    [unfold Snapshotter.defaultMaxDepth; lia|].
  cbv zeta. destruct (Nat.eqb _ 0); [eauto|].
  destruct (writeSummary H _ _ _) as [w' [[]|message]]; eauto.
Qed.

(** Without a [package.json] in the working directory
    [getProjectDirectDependencies] returns the empty object and [main] ends
    with the [TypeError] of [Object.keys(undefined)], before the walk. *)
Lemma main_without_project_json :
  ∃ r, Snapshotter.main (TableHost.host []) TableHost.emptyProject
       = Some (r, Throw "Cannot convert undefined or null to object")
    ∧ Snapshotter.trace (TableHost.host []) r
      = [Snapshotter.ConsoleLog Snapshotter.MsgBanner;
         Snapshotter.ConsoleLog (Snapshotter.MsgStartTime Snapshotter.currentDateTime);
         Snapshotter.ConsoleLog Snapshotter.MsgUser;
         Snapshotter.Mkdir "/proj/pkg";
         Snapshotter.ConsoleLog (Snapshotter.MsgCreatedDir "/proj/pkg");
         Snapshotter.ConsoleLog Snapshotter.MsgNoProjectJson].
Proof. eexists. split; [vm_compute; reflexivity | reflexivity]. Qed.

(** With a name without hyphen and an archive named as [npm pack] names the
    archive of a scoped package, the run is the one of the end-to-end
    example: the version the registry has is skipped and one publish command
    runs. *)
Lemma end_to_end_plain_names :
  let H := TableHost.host TableHost.lodashOnly in
  let url := TableHost.registryUrl in
  let r := fst (Publisher.script H ["/archives"; url] TableHost.plainArchives) in
  extractPackageInfo "lodash-4.17.21.tgz" = Some (mkPackageInfo "lodash" "4.17.21")
  ∧ extractPackageInfo "scope-utils-2.3.4.tgz" = Some (mkPackageInfo "@scope/utils" "2.3.4")
  ∧ Publisher.successCount H r = 1
  ∧ Publisher.skippedCount H r = 1
  ∧ Publisher.failureCount H r = 0
  ∧ Publisher.publishCommands (Publisher.trace H r)
    = [Publisher.publishCommand "/archives/scope-utils-2.3.4.tgz" url].
Proof. cbv zeta. repeat split; vm_compute; reflexivity. Qed.

(** A first argument that exists and cannot be listed (a file, say): the
    error of [readdirSync] reaches the handler of line 153, which logs it and
    exits with status 1. *)
Lemma script_readdir_fails (H : Host) (w : World H) (arg0 message : string)
    (rest : list string) :
  existsSync H w (path_resolve H arg0) = true →
  readdirSync H w (path_resolve H arg0) = Throw message →
  Publisher.script H (arg0 :: rest) w
  = (Publisher.mkRun H w
       [Publisher.Log (Publisher.MsgHeader
                         (Js.or_default (head rest) Publisher.defaultRegistry)) false;
        Publisher.Log (Publisher.MsgFatal message) true] 0 0 0, 1).
Proof.
  intros He Hr. unfold Publisher.script, Publisher.main.
  cbn [Publisher.world Publisher.say]. now rewrite He, Hr.
Qed.

(** A file name the decoder cannot read counts as a failure and runs no
    command. *)
Lemma loopBody_unparsable (H : Host) (tgzDir registry : string) (n i : nat)
    (file : string) (r : Publisher.Run H) :
  extractPackageInfo file = None →
  Publisher.loopBody H tgzDir registry n r i file
  = Publisher.mkRun H (Publisher.world H r)
      (Publisher.trace H r ++ [Publisher.Log (Publisher.MsgCannotParse (i + 1) n file) true])
      (Publisher.successCount H r) (Publisher.failureCount H r + 1)
      (Publisher.skippedCount H r).
Proof. intros Hnone. unfold Publisher.loopBody. now rewrite Hnone. Qed.

(** A file whose identity the registry reports is skipped: the query is the
    only command. *)
Lemma loopBody_published (H : Host) (tgzDir registry : string) (n i : nat)
    (file stdout : string) (info : PackageInfo) (r : Publisher.Run H) (w' : World H) :
  extractPackageInfo file = Some info →
  exec H (Publisher.world H r) (Publisher.viewCommand (name info) (version info) registry) None
  = (w', Normal stdout) →
  Js.trim stdout = version info →
  let r' := Publisher.loopBody H tgzDir registry n r i file in
  Publisher.skippedCount H r' = Publisher.skippedCount H r + 1
  ∧ Publisher.successCount H r' = Publisher.successCount H r
  ∧ Publisher.failureCount H r' = Publisher.failureCount H r
  ∧ Publisher.publishCommands (Publisher.trace H r')
    = Publisher.publishCommands (Publisher.trace H r).
Proof.
  intros Hinfo Hexec Htrim. cbv zeta. unfold Publisher.loopBody. rewrite Hinfo.
  unfold Publisher.isPackagePublished, Publisher.log.
  cbn [Publisher.world Publisher.say Publisher.trace]. rewrite Hexec.
  apply String.eqb_eq in Htrim. rewrite Htrim. cbn.
  rewrite !publishCommands_app. cbn. rewrite !List.app_nil_r. auto.
Qed.

(** * Further properties of the code *)

(** ** The codec: what decodes to what *)

(** Unless the name ends in a hyphen and a numeric triple, the leftmost
    match is the hyphen behind the name. *)
Lemma search_exact (n v : string) :
  VersionLike v → ¬ EndsInTriple n →
  Regex.search_end Regex.hyphen_version_re (n +:+ "-" +:+ v) = Some (String.length n).
Proof.
  intros Hv Hn.
  destruct (search_end_found _ _ _ (hyphen_version_at n v Hv)) as (i & E & Hi).
  rewrite E. f_equal.
  destruct (search_end_some _ _ _ E) as (_ & Hm & _).
  apply matches_lang, lang_hyphen_version in Hm as (v' & Hd & Hv').
  rewrite drop_sapp_le in Hd by assumption.
  destruct (Js.drop i n) as [|c x] eqn:Hx.
  { apply (f_equal String.length) in Hx. rewrite length_drop in Hx. simpl in Hx. lia. }
  exfalso. sapp. injection Hd as -> Hd.
  assert (Hsplit : n = Js.substring0 n i +:+ "-" +:+ x).
  { rewrite <- (take_drop i n) at 1. now rewrite Hx. }
  destruct Hv' as (t & Ht & [->|(tag & Htag & ->)]).
  - pose proof (numericTriple_no_hyphen t Ht) as Hno.
    rewrite <- Hd, includes_sapp, includes_cons, Ascii.eqb_refl, orb_true_r in Hno.
    discriminate.
  - destruct (Js.includes x "-") eqn:Hxh.
    + destruct (includes_first _ _ Hxh) as (x1 & x2 & -> & Hx1).
      rewrite sapp_assoc in Hd. sapp.
      destruct (first_split_unique _ _ _ _ _ Hd Hx1 (numericTriple_no_hyphen t Ht))
        as [_ <-].
      pose proof (tag_no_hyphen _ Htag) as Hno.
      rewrite includes_sapp, includes_cons, Ascii.eqb_refl, orb_true_r in Hno.
      discriminate.
    + destruct (first_split_unique _ _ _ _ _ Hd Hxh (numericTriple_no_hyphen t Ht))
        as [-> _].
      apply Hn. exists (Js.substring0 n i), t. auto.
Qed.

Lemma decode_exact (n v : string) :
  VersionLike v → ¬ EndsInTriple n →
  extractPackageInfo (n +:+ "-" +:+ v +:+ ".tgz") = Some (mkPackageInfo (decodedName n) v).
Proof.
  intros Hv Hn. rewrite extractPackageInfo_eq.
  replace (n +:+ "-" +:+ v +:+ ".tgz") with ((n +:+ "-" +:+ v) +:+ ".tgz")
    by now rewrite !sapp_assoc.
  rewrite baseNameOf_tgz, (search_exact n v Hv Hn), substring0_sapp.
  rewrite drop_S, drop_sapp. reflexivity.
Qed.

Lemma no_hyphen_no_triple_end (n : string) :
  Js.includes n "-" = false → ¬ EndsInTriple n.
Proof.
  intros Hno (front & t & -> & _).
  rewrite includes_sapp, includes_sapp in Hno.
  cbn in Hno. rewrite orb_true_r in Hno. discriminate.
Qed.

Lemma decodedName_plain (n : string) : Js.includes n "-" = false → decodedName n = n.
Proof. intros Hno. unfold decodedName. now rewrite Hno. Qed.

Lemma decodedName_scoped (first rest : string) :
  Js.includes first "-" = false → Js.includes first "." = false →
  decodedName (first +:+ "-" +:+ rest) = "@" +:+ first +:+ "/" +:+ rest.
Proof.
  intros Hh Hd. unfold decodedName.
  rewrite includes_sapp, includes_sapp. cbn [Js.includes String.prefix].
  replace (Js.includes first "-" || _) with true
    by (destruct (Js.includes first "-"); cbn; now destruct (ascii_dec "-" "-")).
  change (first +:+ "-" +:+ rest) with (first +:+ String "-" rest).
  rewrite (split_first _ _ _ Hh). pose proof (split_not_nil rest "-") as Hne.
  destruct (Js.split rest "-") as [|h t] eqn:Hs; [congruence|].
  cbn [length hd tl Nat.leb andb]. rewrite Hd. cbn [negb].
  now rewrite <- Hs, join_split.
Qed.

Lemma candidates_unscoped (n v : string) :
  Unscoped n →
  getPossiblePackageFilenames n v
  = [n +:+ "-" +:+ v +:+ ".tgz"; n +:+ "-" +:+ v +:+ ".tgz"; n +:+ "-" +:+ v +:+ ".tgz"].
Proof.
  intros [Hat Hslash]. unfold getPossiblePackageFilenames.
  now rewrite Hslash, (replace_without _ _ _ Hat), (replace_without _ _ _ Hslash).
Qed.

(** X1.  Encoding and decoding again gives the identity back for a name
    without scope and without hyphen: each of the file names the encoder
    makes for [n] and a version-like [v] decodes to [n] and [v]. *)
Theorem roundtrip_plain_name (n v : string) :
  Unscoped n → Js.includes n "-" = false → VersionLike v →
  ∀ filename, In filename (getPossiblePackageFilenames n v) →
    extractPackageInfo filename = Some (mkPackageInfo n v).
Proof.
  intros Hu Hh Hv filename. rewrite (candidates_unscoped n v Hu).
  pose proof (decode_exact n v Hv (no_hyphen_no_triple_end n Hh)) as E.
  rewrite (decodedName_plain n Hh) in E.
  intros [<-|[<-|[<-|[]]]]; exact E.
Qed.

Lemma versionLike_4_17_21 : VersionLike "4.17.21".
Proof.
  exists "4.17.21". split; [|now left].
  exists "4", "17", "21". repeat split; discriminate.
Qed.

Lemma roundtrip_plain_name_witness :
  List.Forall (fun filename =>
                 extractPackageInfo filename = Some (mkPackageInfo "lodash" "4.17.21"))
              (getPossiblePackageFilenames "lodash" "4.17.21").
Proof.
  apply List.Forall_forall.
  apply roundtrip_plain_name; [split; reflexivity | reflexivity | exact versionLike_4_17_21].
Defined.

(** X3.  A hyphen in a name without scope is taken for a scope boundary:
    when the first segment of [first-rest] has no period, every file name the
    encoder makes for it decodes to [@first/rest], a name that differs from
    the one encoded. *)
Theorem hyphenated_name_decodes_scoped (first rest v : string) :
  Unscoped (first +:+ "-" +:+ rest) →
  Js.includes first "-" = false → Js.includes first "." = false →
  ¬ EndsInTriple (first +:+ "-" +:+ rest) → VersionLike v →
  ∀ filename, In filename (getPossiblePackageFilenames (first +:+ "-" +:+ rest) v) →
    extractPackageInfo filename = Some (mkPackageInfo ("@" +:+ first +:+ "/" +:+ rest) v)
    ∧ "@" +:+ first +:+ "/" +:+ rest ≠ first +:+ "-" +:+ rest.
Proof.
  intros Hu Hh Hd Hn Hv filename. rewrite (candidates_unscoped _ v Hu).
  pose proof (decode_exact _ v Hv Hn) as E.
  rewrite (decodedName_scoped first rest Hh Hd) in E.
  assert (Hne : "@" +:+ first +:+ "/" +:+ rest ≠ first +:+ "-" +:+ rest).
  { intros Heq. destruct Hu as [Hat _]. rewrite <- Heq in Hat.
    change ("@" +:+ first +:+ "/" +:+ rest) with (String "@" (first +:+ "/" +:+ rest)) in Hat.
    rewrite includes_cons, Ascii.eqb_refl in Hat. discriminate. }
  intros [<-|[<-|[<-|[]]]]; (split; [exact E | exact Hne]).
Qed.

Lemma versionLike_1_0_0 : VersionLike "1.0.0".
Proof.
  exists "1.0.0". split; [|now left].
  exists "1", "0", "0". repeat split; discriminate.
Qed.

Lemma not_endsInTriple_by_search (n : string) :
  Regex.search_end (Regex.Seq (Regex.Chr "-") Regex.triple_re) n = None → ¬ EndsInTriple n.
Proof.
  intros E (front & t & -> & Ht).
  pose proof (search_end_none _ _ E (String.length front)) as Hm.
  rewrite drop_sapp in Hm.
  assert (L : lang (Regex.Seq (Regex.Chr "-") Regex.triple_re) ("-" +:+ t)).
  { apply (lang_seq _ _ "-"); [now apply lang_chr | now apply lang_triple]. }
  apply matches_lang in L. congruence.
Qed.

Lemma hyphenated_name_decodes_scoped_witness :
  List.Forall (fun filename =>
                 extractPackageInfo filename = Some (mkPackageInfo "@left/pad" "1.0.0")
                 ∧ "@left/pad" ≠ "left-pad")
              (getPossiblePackageFilenames "left-pad" "1.0.0").
Proof.
  apply List.Forall_forall.
  apply (hyphenated_name_decodes_scoped "left" "pad" "1.0.0").
  - split; reflexivity.
  - reflexivity.
  - reflexivity.
  - apply not_endsInTriple_by_search. reflexivity.
  - exact versionLike_1_0_0.
Defined.

Lemma replace_first (a b rep : string) (d : ascii) :
  Js.includes a (String d EmptyString) = false →
  Js.replace (a +:+ String d b) d rep = a +:+ rep +:+ b.
Proof.
  induction a as [|c a IH]; sapp.
  - intros _. simpl. now rewrite Ascii.eqb_refl.
  - rewrite includes_cons. intros [Hc Ha]%orb_false_iff.
    simpl. now rewrite Hc, (IH Ha).
Qed.

(** The normalized name of [@s/p] is [s-p]. *)
Lemma normalized_scoped (s p : string) :
  Js.includes s "/" = false →
  Js.replace (Js.replace ("@" +:+ s +:+ "/" +:+ p) "@" EmptyString) "/" "-" = s +:+ "-" +:+ p.
Proof.
  intros Hs. change ("@" +:+ s +:+ "/" +:+ p) with (String "@" (s +:+ String "/" p)).
  cbn [Js.replace Ascii.eqb Bool.eqb]. sapp. now rewrite (replace_first s p "-" "/" Hs).
Qed.

Lemma scoped_candidates (s p v : string) :
  Js.includes s "/" = false → Js.includes p "/" = false →
  getPossiblePackageFilenames ("@" +:+ s +:+ "/" +:+ p) v
  = [s +:+ "-" +:+ p +:+ "-" +:+ v +:+ ".tgz";
     p +:+ "-" +:+ v +:+ ".tgz";
     s +:+ "-" +:+ p +:+ "-" +:+ v +:+ ".tgz"].
Proof.
  intros Hs Hp. unfold getPossiblePackageFilenames.
  rewrite (normalized_scoped s p Hs), !sapp_assoc.
  change ("@" +:+ s +:+ "/" +:+ p) with (("@" +:+ s) +:+ String "/" p).
  assert (Hats : Js.includes ("@" +:+ s) "/" = false).
  { change ("@" +:+ s) with (String "@" s). now rewrite includes_cons, Hs. }
  rewrite includes_sapp, includes_cons, Ascii.eqb_refl, orb_true_r.
  rewrite (split_first _ _ _ Hats), (split_without _ _ Hp). reflexivity.
Qed.

(** X2.  Encoding and decoding again gives the identity back for a scoped
    name [@s/p] whose scope [s] has no hyphen and no period: the first file
    name the encoder makes, [s-p-v.tgz], decodes to [@s/p] and [v]. *)
Theorem roundtrip_scoped_name (s p v : string) :
  Js.includes s "/" = false → Js.includes s "-" = false → Js.includes s "." = false →
  ¬ EndsInTriple (s +:+ "-" +:+ p) → VersionLike v →
  extractPackageInfo (nth 0 (getPossiblePackageFilenames ("@" +:+ s +:+ "/" +:+ p) v) EmptyString)
  = Some (mkPackageInfo ("@" +:+ s +:+ "/" +:+ p) v).
Proof.
  intros Hs Hh Hd Hn Hv. unfold getPossiblePackageFilenames. cbn [nth].
  rewrite (normalized_scoped s p Hs).
  rewrite (decode_exact _ v Hv Hn). now rewrite (decodedName_scoped s p Hh Hd).
Qed.

Lemma versionLike_2_3_4 : VersionLike "2.3.4".
Proof.
  exists "2.3.4". split; [|now left].
  exists "2", "3", "4". repeat split; discriminate.
Qed.

Lemma roundtrip_scoped_name_witness :
  extractPackageInfo (nth 0 (getPossiblePackageFilenames "@scope/utils" "2.3.4") EmptyString)
  = Some (mkPackageInfo "@scope/utils" "2.3.4").
Proof.
  apply (roundtrip_scoped_name "scope" "utils" "2.3.4"); try reflexivity.
  - apply not_endsInTriple_by_search. reflexivity.
  - exact versionLike_2_3_4.
Defined.

Lemma tag_char_of_digit (c : ascii) : is_digit c = true → is_tag_char c = true.
Proof. destruct c as [[] [] [] [] [] [] [] []]; (reflexivity || discriminate). Qed.

Lemma all_chars_impl (p q : ascii → bool) (s : string) :
  (∀ c, p c = true → q c = true) → all_chars p s = true → all_chars q s = true.
Proof.
  intros Hpq. induction s as [|c s IH]; [reflexivity|]. simpl.
  intros [Hc Hs]%andb_true_iff. now rewrite (Hpq c Hc), (IH Hs).
Qed.

(** A numeric dotted triple is made of the characters of a prerelease
    tag. *)
Lemma numericTriple_tag (v : string) : NumericTriple v → PrereleaseTag v.
Proof.
  intros (a & b & c & [Hna Ha] & [_ Hb] & [_ Hc] & ->). split.
  - destruct a; [congruence | discriminate].
  - rewrite !all_chars_sapp. cbn.
    now rewrite (all_chars_impl _ _ a tag_char_of_digit Ha),
      (all_chars_impl _ _ b tag_char_of_digit Hb),
      (all_chars_impl _ _ c tag_char_of_digit Hc).
Qed.

(** X4.  The decoder cannot tell a name that ends in a hyphen and a numeric
    triple from a prerelease version: for [front-t] with a numeric triple [t]
    and a version [v] that is a numeric triple, the file name [front-t-v.tgz]
    decodes, but to a version longer than [v]. *)
Theorem triple_in_name_shifts_version (front t v : string) :
  NumericTriple t → NumericTriple v →
  ∃ info,
    extractPackageInfo ((front +:+ "-" +:+ t) +:+ "-" +:+ v +:+ ".tgz") = Some info
    ∧ String.length t + 1 + String.length v ≤ String.length (version info)
    ∧ version info ≠ v.
Proof.
  intros Ht Hv. rewrite extractPackageInfo_eq.
  replace ((front +:+ "-" +:+ t) +:+ "-" +:+ v +:+ ".tgz")
    with ((front +:+ "-" +:+ t +:+ "-" +:+ v) +:+ ".tgz") by now rewrite !sapp_assoc.
  rewrite baseNameOf_tgz.
  assert (Htv : VersionLike (t +:+ "-" +:+ v)).
  { exists t. split; [exact Ht|]. right. exists v. split; [now apply numericTriple_tag | reflexivity]. }
  destruct (search_end_found _ _ _ (hyphen_version_at front _ Htv)) as (i & E & Hi).
  rewrite E. eexists. split; [reflexivity|]. cbn [version].
  assert (Hlen : String.length t + 1 + String.length v
                 ≤ String.length (Js.drop (S i) (front +:+ "-" +:+ t +:+ "-" +:+ v))).
  { rewrite length_drop, !length_sapp. cbn [String.length]. lia. }
  split; [exact Hlen|]. intros Heq. rewrite Heq in Hlen. lia.
Qed.

Lemma triple_in_name_shifts_version_witness :
  ∃ info,
    extractPackageInfo "foo-1.2.3-4.5.6.tgz" = Some info
    ∧ 11 ≤ String.length (version info)
    ∧ version info ≠ "4.5.6".
Proof.
  assert (H456 : NumericTriple "4.5.6")
    by (exists "4", "5", "6"; repeat split; discriminate).
  exact (triple_in_name_shifts_version "foo" "1.2.3" "4.5.6" numericTriple_1_2_3 H456).
Defined.

(** ** Decoding and encoding again: the whole round trip *)






(** ** Which files stand for a scoped package *)

(** X5.  For a scoped name [@s/p] the existence test looks for two files,
    [s-p-v.tgz] and [p-v.tgz]: the archive of the unscoped package [p] in the
    same version makes [@s/p] count as downloaded. *)
Theorem scoped_package_downloaded (H : Host) (w : World H) (s p v outputDir : string) :
  Js.includes s "/" = false → Js.includes p "/" = false →
  Snapshotter.isPackageAlreadyDownloaded H w ("@" +:+ s +:+ "/" +:+ p) v outputDir
  = existsSync H w (path_join H outputDir (s +:+ "-" +:+ p +:+ "-" +:+ v +:+ ".tgz"))
    || existsSync H w (path_join H outputDir (p +:+ "-" +:+ v +:+ ".tgz")).
Proof.
  intros Hs Hp. unfold Snapshotter.isPackageAlreadyDownloaded.
  rewrite (scoped_candidates s p v Hs Hp). cbn [existsb].
  destruct (existsSync H w _), (existsSync H w _); reflexivity.
Qed.

Lemma scoped_package_downloaded_witness :
  Snapshotter.isPackageAlreadyDownloaded (TableHost.host []) Samples.unscopedArchive
    "@scope/utils" "2.3.4" "/proj/pkg" = true
  ∧ existsSync (TableHost.host []) Samples.unscopedArchive "/proj/pkg/scope-utils-2.3.4.tgz"
    = false.
Proof.
  split; [|reflexivity].
  refine (eq_trans (scoped_package_downloaded (TableHost.host []) Samples.unscopedArchive
                      "scope" "utils" "2.3.4" "/proj/pkg" eq_refl eq_refl) _).
  reflexivity.
Defined.

(** ** The walk: what it records *)

Lemma fromDisk_emit (H : Host) (w : World H) (e : Snapshotter.Event) (st : Snapshotter.Walk) :
  FromDisk H w e → Forall (FromDisk H w) (Snapshotter.events st) →
  Forall (FromDisk H w) (Snapshotter.events (Snapshotter.emit e st)).
Proof. intros He Hst. cbn. apply Forall_app. split; [exact Hst | now constructor]. Qed.

Lemma fromDisk_forOf (H : Host) (w : World H)
    (body : string → Snapshotter.Walk → option (Snapshotter.Walk * option string))
    (entries : list string) :
  (∀ entry st x, Forall (FromDisk H w) (Snapshotter.events st) → body entry st = Some x →
     Forall (FromDisk H w) (Snapshotter.events (fst x))) →
  ∀ st x, Forall (FromDisk H w) (Snapshotter.events st) →
    Snapshotter.forOf body entries st = Some x →
    Forall (FromDisk H w) (Snapshotter.events (fst x)).
Proof.
  intros Hbody. induction entries as [|entry rest IH]; intros st x Hst; cbn.
  - now intros [= <-].
  - destruct (body entry st) as [[st' [message|]]|] eqn:E; [| |discriminate].
    + intros [= <-]. exact (Hbody _ _ _ Hst E).
    + apply IH. exact (Hbody _ _ _ Hst E).
Qed.

Lemma fromDisk_visitPackage (H : Host) (w : World H)
    (nested : string → gset string → option Snapshotter.Walk)
    (depth : nat) (parentPath entry : string) (st : Snapshotter.Walk)
    (x : Snapshotter.Walk * option string) :
  (∀ path before r, nested path before = Some r →
     Forall (FromDisk H w) (Snapshotter.events r)) →
  Forall (FromDisk H w) (Snapshotter.events st) →
  Snapshotter.visitPackage H w nested depth parentPath entry st = Some x →
  Forall (FromDisk H w) (Snapshotter.events (fst x)).
Proof.
  intros Hnested Hst. unfold Snapshotter.visitPackage.
  destruct (isDirectory H w _) as [[|]|message] eqn:Hdir;
    [|now intros [= <-] | now intros [= <-]].
  assert (Hread : ∀ info,
            info = Snapshotter.getPackageInfo H w
                     (path_join H (path_join H parentPath entry) "package.json") →
            Forall (FromDisk H w)
              (Snapshotter.events st
               ++ [Snapshotter.ReadManifest depth
                     (path_join H (path_join H parentPath entry) "package.json") info])).
  { intros info Hinfo. apply Forall_app. split; [exact Hst|].
    constructor; [|constructor]. cbn. eauto. }
  destruct (Snapshotter.getPackageInfo H w _) as [info|] eqn:Hinfo.
  - cbn [Snapshotter.processedPackages Snapshotter.emit Snapshotter.packages
         Snapshotter.events].
    destruct (decide _); [intros [= <-]; now apply Hread|].
    destruct (existsSync H w _); [|intros [= <-]; now apply Hread].
    destruct (nested _ _) as [r|] eqn:E; [|discriminate].
    intros [= <-]. cbn. apply Forall_app. split; [now apply Hread | exact (Hnested _ _ _ E)].
  - intros [= <-]. now apply Hread.
Qed.

Lemma fromDisk_visitEntry (H : Host) (w : World H)
    (nested : string → gset string → option Snapshotter.Walk)
    (depth : nat) (nodeModulesPath entry : string) (st : Snapshotter.Walk)
    (x : Snapshotter.Walk * option string) :
  (∀ path before r, nested path before = Some r →
     Forall (FromDisk H w) (Snapshotter.events r)) →
  Forall (FromDisk H w) (Snapshotter.events st) →
  Snapshotter.visitEntry H w nested depth nodeModulesPath entry st = Some x →
  Forall (FromDisk H w) (Snapshotter.events (fst x)).
Proof.
  intros Hnested Hst. unfold Snapshotter.visitEntry, Snapshotter.visitNamespace.
  destruct (Js.startsWith entry "@").
  - destruct (isDirectory H w _) as [[|]|message]; [|now intros [= <-] | now intros [= <-]].
    destruct (readdirSync H w _) as [namespaceEntries|message].
    + destruct (Snapshotter.forOf _ namespaceEntries st) as [[st' thrown]|] eqn:E;
        [|discriminate].
      pose proof (fromDisk_forOf H w _ namespaceEntries
                    (fun e s y Hs => fromDisk_visitPackage H w nested depth
                                       (path_join H nodeModulesPath entry) e s y Hnested Hs)
                    st _ Hst E) as Hst'.
      destruct thrown as [message|]; intros [= <-]; [|exact Hst'].
      now apply fromDisk_emit.
    + intros [= <-]. now apply fromDisk_emit.
  - destruct (_ && _); [|now intros [= <-]].
    now apply fromDisk_visitPackage.
Qed.

(** Every event of a walk is a line of output or a manifest of a
    directory of the disk, recorded as [getPackageInfo] reads it. *)
Lemma getAllPackages_fromDisk (H : Host) (w : World H) (maxDepth fuel : nat) :
  ∀ depth nodeModulesPath before r,
    Snapshotter.getAllPackages H fuel w nodeModulesPath before depth maxDepth = Some r →
    Forall (FromDisk H w) (Snapshotter.events r).
Proof.
  induction fuel as [|fuel IH]; intros depth nodeModulesPath before r; [discriminate|].
  cbn [Snapshotter.getAllPackages].
  destruct (Nat.ltb maxDepth depth); [intros [= <-]; now repeat constructor|].
  destruct (existsSync H w nodeModulesPath); cbn [negb].
  2:{ intros [= <-]. cbn. destruct (Nat.eqb depth 0); now repeat constructor. }
  destruct (readdirSync H w nodeModulesPath) as [entries|message];
    [|intros [= <-]; now repeat constructor].
  destruct (Snapshotter.forOf _ entries _) as [[st thrown]|] eqn:E; [|discriminate].
  assert (H0 : Forall (FromDisk H w)
                 (Snapshotter.events (Snapshotter.mkWalk [] before []))) by constructor.
  pose proof (fromDisk_forOf H w _ entries
                (fun e s y Hs => fromDisk_visitEntry H w _ depth nodeModulesPath e s y
                                   (fun path b r' => IH (depth + 1) path b r') Hs)
                _ _ H0 E) as Hst.
  destruct thrown as [message|]; intros [= <-]; [|exact Hst].
  now apply fromDisk_emit.
Qed.

(** X6.  The walk makes up no package: every package in its result was
    read during the walk, at a depth between the depth of the call and the
    maximum, from the [package.json] of a path that [statSync] reports as a
    directory; that file could be read and parsed, and the package recorded
    is what [getPackageInfo] returns for it. *)
Theorem walk_records_disk_manifests (H : Host) (w : World H) (fuel depth maxDepth : nat)
    (nodeModulesPath : string) (before : gset string) (walk : Snapshotter.Walk) :
  Snapshotter.getAllPackages H fuel w nodeModulesPath before depth maxDepth = Some walk →
  ∀ pkg, pkg ∈ Snapshotter.packages walk →
    ∃ d packagePath packageJson,
      Snapshotter.ReadManifest d (path_join H packagePath "package.json") (Some pkg)
        ∈ Snapshotter.events walk
      ∧ depth ≤ d ≤ maxDepth
      ∧ isDirectory H w packagePath = Normal true
      ∧ readJson H w (path_join H packagePath "package.json") = Normal packageJson
      ∧ Snapshotter.getPackageInfo H w (path_join H packagePath "package.json") = Some pkg.
Proof.
  intros E pkg Hin.
  destruct (getAllPackages_inv _ _ _ _ _ _ _ _ E) as [_ _ _ _ Hdepth Hread].
  destruct (Hread pkg Hin) as (d & p & Hev).
  pose proof (Hdepth _ _ _ Hev) as Hd.
  pose proof (getAllPackages_fromDisk H w maxDepth fuel _ _ _ _ E) as Hall.
  rewrite Forall_forall in Hall.
  destruct (Hall _ Hev) as (packagePath & -> & Hdir & Hinfo). symmetry in Hinfo.
  assert (Hjson : ∃ packageJson,
             readJson H w (path_join H packagePath "package.json") = Normal packageJson).
  { unfold Snapshotter.getPackageInfo in Hinfo.
    destruct (readJson H w _) as [packageJson|message]; [eauto | discriminate]. }
  destruct Hjson as [packageJson Hjson].
  exists d, packagePath, packageJson. auto.
Qed.

Lemma walk_records_disk_manifests_witness :
  ∃ walk,
    Snapshotter.getAllPackages0 (TableHost.host []) TableHost.nestedCopy "/proj/node_modules"
    = Some walk
    ∧ Forall (fun pkg =>
                ∃ packagePath,
                  isDirectory (TableHost.host []) TableHost.nestedCopy packagePath = Normal true
                  ∧ Snapshotter.getPackageInfo (TableHost.host []) TableHost.nestedCopy
                      (path_join (TableHost.host []) packagePath "package.json") = Some pkg)
             (Snapshotter.packages walk).
Proof.
  destruct (Snapshotter.getAllPackages0 (TableHost.host []) TableHost.nestedCopy
              "/proj/node_modules") as [walk|] eqn:E; [|vm_compute in E; discriminate].
  exists walk. split; [reflexivity|]. apply Forall_forall. intros pkg Hin.
  destruct (walk_records_disk_manifests _ _ _ _ _ _ _ walk E pkg Hin)
    as (_ & packagePath & _ & _ & _ & Hdir & _ & Hinfo).
  exists packagePath. split; [exact Hdir | exact Hinfo].
Defined.

(** X7.  The walk never records a package whose key is in the set it was
    given: the keys of its result are pairwise distinct, none of them was in
    the set before, and the set it leaves is the set before with exactly
    those keys added. *)
Theorem walk_extends_processed (H : Host) (w : World H) (fuel depth maxDepth : nat)
    (nodeModulesPath : string) (before : gset string) (walk : Snapshotter.Walk) :
  Snapshotter.getAllPackages H fuel w nodeModulesPath before depth maxDepth = Some walk →
  Snapshotter.processedPackages walk
  = before ∪ list_to_set (packageKey <$> Snapshotter.packages walk)
  ∧ NoDup (packageKey <$> Snapshotter.packages walk)
  ∧ ∀ pkg, pkg ∈ Snapshotter.packages walk → packageKey pkg ∉ before.
Proof.
  intros E. destruct (getAllPackages_inv _ _ _ _ _ _ _ _ E) as [Hp Hn Hf _ _ _]. auto.
Qed.

Lemma walk_extends_processed_witness :
  ∃ walk,
    Snapshotter.getAllPackages (TableHost.host []) 12 TableHost.nestedCopy
      "/proj/node_modules" {["b@2.0.0"]} 0 10 = Some walk
    ∧ Snapshotter.packages walk = [mkPackageInfo "a" "1.0.0"]
    ∧ ∀ pkg, pkg ∈ Snapshotter.packages walk → packageKey pkg ∉ ({["b@2.0.0"]} : gset string).
Proof.
  destruct (Snapshotter.getAllPackages (TableHost.host []) 12 TableHost.nestedCopy
              "/proj/node_modules" {["b@2.0.0"]} 0 10) as [walk|] eqn:E;
    [|vm_compute in E; discriminate].
  exists walk. split; [reflexivity | split].
  - vm_compute in E. injection E as <-. reflexivity.
  - exact (proj2 (proj2 (walk_extends_processed _ _ _ _ _ _ _ walk E))).
Defined.

(** ** The list of unique packages (lines 270-272) *)

Lemma mapSet_keys (m : list (string * PackageInfo)) (key : string) (value : PackageInfo) :
  (Snapshotter.mapSet m key value).*1 = if decide (key ∈ m.*1) then m.*1 else m.*1 ++ [key].
Proof.
  induction m as [|[k v] m IH]; cbn [Snapshotter.mapSet].
  - destruct (decide (key ∈ [].*1)) as [Hin|_]; [now apply elem_of_nil in Hin | reflexivity].
  - destruct (String.eqb_spec k key) as [->|Hne]; cbn.
    + destruct (decide (key ∈ key :: m.*1)) as [_|Hn]; [reflexivity|].
      exfalso. apply Hn. left.
    + rewrite IH. destruct (decide (key ∈ m.*1)) as [Hin|Hnin].
      * destruct (decide (key ∈ k :: m.*1)) as [_|Hn']; [reflexivity|].
        exfalso. apply Hn'. now right.
      * destruct (decide (key ∈ k :: m.*1)) as [Hn'|_]; [|reflexivity].
        apply elem_of_cons in Hn' as [?|?]; [congruence | contradiction].
Qed.

Lemma mapSet_elem (m : list (string * PackageInfo)) (key : string) (value : PackageInfo)
    (kv : string * PackageInfo) :
  kv ∈ Snapshotter.mapSet m key value → kv ∈ m ∨ kv = (key, value).
Proof.
  induction m as [|[k v] m IH]; cbn [Snapshotter.mapSet].
  - intros ->%list_elem_of_singleton. now right.
  - destruct (String.eqb_spec k key) as [->|Hne].
    + intros [->|Hin]%elem_of_cons; [now right | left; now right].
    + intros [->|Hin]%elem_of_cons; [left; left|].
      destruct (IH Hin) as [?|?]; [left; now right | now right].
Qed.

(** [new Map] over the pairs of a list of packages: the keys are kept
    once, they are the keys of the list, and every value is a package of the
    list under its own key. *)
Lemma newMap_fold (l : list PackageInfo) :
  ∀ acc : list (string * PackageInfo),
    let m := fold_left (fun m kv => Snapshotter.mapSet m (fst kv) (snd kv))
               (map (fun pkg => (packageKey pkg, pkg)) l) acc in
    (NoDup acc.*1 → NoDup m.*1)
    ∧ (∀ k, k ∈ m.*1 ↔ k ∈ acc.*1 ∨ k ∈ packageKey <$> l)
    ∧ (∀ kv, kv ∈ m → kv ∈ acc ∨ ∃ pkg, kv = (packageKey pkg, pkg) ∧ pkg ∈ l).
Proof.
  induction l as [|pkg l IH]; intros acc; cbn [map fold_left fst snd].
  - cbv zeta. split; [auto | split].
    + intros k. rewrite fmap_nil, elem_of_nil. tauto.
    + auto.
  - destruct (IH (Snapshotter.mapSet acc (packageKey pkg) pkg)) as (Hn & Hk & Hv).
    cbv zeta in *. split; [|split].
    + intros Hacc. apply Hn. rewrite mapSet_keys.
      destruct (decide (packageKey pkg ∈ acc.*1)) as [|Hnew]; [exact Hacc|].
      apply NoDup_app. split; [exact Hacc | split; [|apply NoDup_singleton]].
      intros k Hin ->%list_elem_of_singleton. contradiction.
    + intros k. rewrite Hk, mapSet_keys, fmap_cons, elem_of_cons.
      destruct (decide (packageKey pkg ∈ acc.*1)) as [Hin|Hnew].
      * split; [tauto|]. intros [?|[->|?]]; auto.
      * rewrite elem_of_app, list_elem_of_singleton. tauto.
    + intros kv Hin. destruct (Hv kv Hin) as [Hm|(pkg' & -> & Hp)].
      * destruct (mapSet_elem _ _ _ _ Hm) as [? | ->]; [now left|].
        right. exists pkg. split; [reflexivity | left].
      * right. exists pkg'. split; [reflexivity | now right].
Qed.

Lemma keys_of_values (m : list (string * PackageInfo)) :
  (∀ kv, kv ∈ m → fst kv = packageKey (snd kv)) →
  packageKey <$> map snd m = m.*1.
Proof.
  induction m as [|[k v] m IH]; intros Hm; [reflexivity|].
  cbn. rewrite IH by (intros kv Hin; apply Hm; now right).
  f_equal. symmetry. apply (Hm (k, v)). left.
Qed.

Lemma newMap_spec (l : list PackageInfo) :
  let values := map snd (Snapshotter.newMap (map (fun pkg => (packageKey pkg, pkg)) l)) in
  NoDup (packageKey <$> values)
  ∧ (∀ k, k ∈ packageKey <$> values ↔ k ∈ packageKey <$> l)
  ∧ (∀ pkg, pkg ∈ values → pkg ∈ l).
Proof.
  cbv zeta. unfold Snapshotter.newMap.
  destruct (newMap_fold l []) as (Hn & Hk & Hv). cbv zeta in *.
  set (m := fold_left _ _ _) in *.
  assert (Hkeyed : ∀ kv, kv ∈ m → fst kv = packageKey (snd kv)).
  { intros kv Hin. destruct (Hv kv Hin) as [[]%elem_of_nil|(pkg & -> & _)]. reflexivity. }
  rewrite (keys_of_values m Hkeyed). split; [|split].
  - apply Hn. constructor.
  - intros k. rewrite Hk, fmap_nil, elem_of_nil. tauto.
  - intros pkg Hin. apply list_elem_of_In, in_map_iff in Hin as ([k v] & <- & Hin).
    apply list_elem_of_In in Hin. destruct (Hv _ Hin) as [[]%elem_of_nil|(pkg' & [= -> ->] & Hp)].
    exact Hp.
Qed.

(** X8.  The list of unique packages holds every key of the list it is
    made from, each key once, and only packages of that list, whatever the
    list and the order of names. *)
Theorem uniquePackages_dedups (H : Host) (l : list PackageInfo) :
  NoDup (packageKey <$> Snapshotter.uniquePackages H l)
  ∧ (∀ k, k ∈ packageKey <$> Snapshotter.uniquePackages H l ↔ k ∈ packageKey <$> l)
  ∧ (∀ pkg, pkg ∈ Snapshotter.uniquePackages H l → pkg ∈ l)
  ∧ length (Snapshotter.uniquePackages H l) ≤ length l.
Proof.
  unfold Snapshotter.uniquePackages.
  destruct (newMap_spec l) as (Hn & Hk & Hv). cbv zeta in *.
  set (values := map snd _) in *.
  pose proof (sort_perm (fun a b => localeCompare H (name a) (name b)) values) as Hperm.
  assert (Hkeys : Permutation
            (packageKey <$> Snapshotter.sort (fun a b => localeCompare H (name a) (name b)) values)
            (packageKey <$> values)) by now apply fmap_Permutation.
  split; [now rewrite Hkeys | split; [|split]].
  - intros k. now rewrite Hkeys.
  - intros pkg Hin. apply Hv. now rewrite <- Hperm.
  - rewrite (Permutation_length Hperm).
    assert (Hsub : values ⊆ l) by (intros pkg; apply Hv).
    assert (Hnv : NoDup values) by exact (NoDup_fmap_1 packageKey values Hn).
    rewrite <- (length_fmap packageKey values), <- (length_fmap packageKey l).
    apply submseteq_length, NoDup_submseteq; [exact Hn|].
    intros k Hin. now apply Hk.
Qed.

Lemma insertSorted_hd (cmp : PackageInfo → PackageInfo → Z) (R : PackageInfo → PackageInfo → Prop)
    (x y : PackageInfo) (l : list PackageInfo) :
  R y x → HdRel R y l → HdRel R y (Snapshotter.insertSorted cmp x l).
Proof.
  intros Hyx Hl. destruct l as [|z l]; cbn; [now constructor|].
  destruct (Z.ltb _ _); constructor; [now inversion Hl | exact Hyx].
Qed.

Lemma insertSorted_sorted (cmp : string → string → Z) (x : PackageInfo) (l : list PackageInfo) :
  (∀ a b, (0 ≤ cmp b a)%Z → (cmp a b ≤ 0)%Z) →
  Sorted (NameOrder cmp) l →
  Sorted (NameOrder cmp) (Snapshotter.insertSorted (fun a b => cmp (name a) (name b)) x l).
Proof.
  intros Hsign. induction l as [|y l IH]; intros Hl; cbn.
  - repeat constructor.
  - destruct (Z.ltb_spec (cmp (name y) (name x)) 0) as [Hlt|Hge].
    + inversion Hl as [|? ? Hl' Hhd]; subst. constructor; [now apply IH|].
      apply insertSorted_hd; [unfold NameOrder; lia | exact Hhd].
    + constructor; [exact Hl|]. constructor. unfold NameOrder. now apply Hsign.
Qed.

(** X9.  The list of unique packages is in the order of the names: with a
    comparator whose signs agree (when [b] does not come before [a], [a] does
    not come after [b]), no package is followed by one whose name comes
    before its own. *)
Theorem uniquePackages_sorted (H : Host) (l : list PackageInfo) :
  (∀ a b, (0 ≤ localeCompare H b a)%Z → (localeCompare H a b ≤ 0)%Z) →
  Sorted (NameOrder (localeCompare H)) (Snapshotter.uniquePackages H l).
Proof.
  intros Hsign. unfold Snapshotter.uniquePackages, Snapshotter.sort.
  induction (map snd _) as [|x values IH]; cbn [fold_right]; [constructor|].
  now apply insertSorted_sorted.
Qed.

Lemma compareNames_signs (a b : string) :
  (0 ≤ TableHost.compareNames b a)%Z → (TableHost.compareNames a b ≤ 0)%Z.
Proof.
  unfold TableHost.compareNames. rewrite (String.compare_antisym b a).
  destruct (String.compare a b); cbn; lia.
Qed.

Lemma uniquePackages_sorted_witness :
  Snapshotter.uniquePackages (TableHost.host [])
    [mkPackageInfo "b" "2.0.0"; mkPackageInfo "a" "1.0.0"; mkPackageInfo "b" "2.0.0"]
  = [mkPackageInfo "a" "1.0.0"; mkPackageInfo "b" "2.0.0"]
  ∧ Sorted (NameOrder TableHost.compareNames)
      (Snapshotter.uniquePackages (TableHost.host [])
         [mkPackageInfo "b" "2.0.0"; mkPackageInfo "a" "1.0.0"; mkPackageInfo "b" "2.0.0"]).
Proof.
  split; [reflexivity|].
  exact (uniquePackages_sorted (TableHost.host []) _ compareNames_signs).
Defined.

(** ** [main] of the snapshotter: summary and tallies *)

Lemma summariesWritten_app (l1 l2 : list Snapshotter.Event) :
  summariesWritten (l1 ++ l2) = summariesWritten l1 ++ summariesWritten l2.
Proof. apply flat_map_app. Qed.

Lemma summariesWritten_elem (l : list Snapshotter.Event) (p : string) (s : Summary) :
  Snapshotter.WriteFile p s ∈ l → (p, s) ∈ summariesWritten l.
Proof.
  induction l as [|e l IH]; [now intros ?%elem_of_nil|].
  intros [<-|Hin]%elem_of_cons.
  - left.
  - change (e :: l) with ([e] ++ l). rewrite summariesWritten_app.
    apply elem_of_app. right. now apply IH.
Qed.

Lemma summariesWritten_none (P : Snapshotter.Event → Prop) (l : list Snapshotter.Event) :
  (∀ p s, ¬ P (Snapshotter.WriteFile p s)) → Forall P l → summariesWritten l = [].
Proof.
  intros HP. induction 1 as [|e l He _ IH]; [reflexivity|].
  change (e :: l) with ([e] ++ l). rewrite summariesWritten_app, IH.
  destruct e; try reflexivity. now apply HP in He.
Qed.

(** The part of [main] before the walk prints, makes the output directory
    and removes the old error log; nothing else. *)
Lemma mainSetup_events (H : Host) (w : World H) (r : Snapshotter.Run H)
    (res : completion (list string * list string)) :
  Snapshotter.mainSetup H w = (r, res) → Forall SetupEvent (Snapshotter.trace H r).
Proof.
  unfold Snapshotter.mainSetup, Snapshotter.createDirIfNotExists,
    Snapshotter.getProjectDirectDependencies.
  cbn [Snapshotter.world Snapshotter.say Snapshotter.setWorld Snapshotter.trace].
  repeat (match goal with
          | |- context [existsSync ?h ?x ?p] => destruct (existsSync h x p)
          | |- context [mkdirSync ?h ?x ?p] => destruct (mkdirSync h x p) as [? [?|?]]
          | |- context [unlinkSync ?h ?x ?p] => destruct (unlinkSync h x p) as [? [?|?]]
          | |- context [readJson ?h ?x ?p] => destruct (readJson h x p) as [?|?]
          end;
          cbn [Snapshotter.world Snapshotter.say Snapshotter.setWorld Snapshotter.trace negb]);
    intros [= <- <-]; cbn; repeat (apply Forall_app; split); repeat constructor.
Qed.

Lemma forEachBody_summaries (H : Host) (outputDir : string) (total index : nat)
    (r : Snapshotter.Run H) (pkg : PackageInfo) :
  summariesWritten (Snapshotter.trace H (Snapshotter.forEachBody H outputDir total r index pkg))
  = summariesWritten (Snapshotter.trace H r).
Proof.
  unfold Snapshotter.forEachBody, Snapshotter.createPackageFile.
  destruct (Snapshotter.isPackageAlreadyDownloaded H _ _ _ _).
  - cbn. now rewrite summariesWritten_app, List.app_nil_r.
  - cbn [Snapshotter.world Snapshotter.say].
    destruct (exec H _ _ _) as [w' [output|message]]; cbn;
      now rewrite !summariesWritten_app, !List.app_nil_r.
Qed.

Lemma forEach_summaries (H : Host) (outputDir : string) (total : nat) (l : list PackageInfo) :
  ∀ index r,
    summariesWritten
      (Snapshotter.trace H
         (Snapshotter.forEach H (Snapshotter.forEachBody H outputDir total) index l r))
    = summariesWritten (Snapshotter.trace H r).
Proof.
  induction l as [|pkg l IH]; intros index r; cbn [Snapshotter.forEach]; [reflexivity|].
  now rewrite IH, forEachBody_summaries.
Qed.

(** What [main] writes: nothing, or one summary of the packages of its
    walk. *)
Lemma main_summaries (H : Host) (w : World H) (r : Snapshotter.Run H) (res : completion unit) :
  Snapshotter.main H w = Some (r, res) →
  summariesWritten (Snapshotter.trace H r) = []
  ∨ ∃ r0 walk (dependencies devDependencies : list string),
      Snapshotter.mainSetup H w = (r0, Normal (dependencies, devDependencies))
      ∧ Snapshotter.getAllPackages0 H (Snapshotter.world H r0)
          (path_join H (process_cwd H) "node_modules") = Some walk
      ∧ Snapshotter.packages walk ≠ []
      ∧ summariesWritten (Snapshotter.trace H r)
        = [("packages-summary.json",
            mkSummary (length (Snapshotter.uniquePackages H (Snapshotter.packages walk)))
              (length dependencies) (length devDependencies) Snapshotter.currentDateTime
              (Snapshotter.uniquePackages H (Snapshotter.packages walk)))].
Proof.
  unfold Snapshotter.main.
  destruct (Snapshotter.mainSetup H w) as [r0 [[dependencies devDependencies]|message]] eqn:Hsetup.
  2:{ intros [= <- <-]. left.
      exact (summariesWritten_none SetupEvent _ (fun p s F => F) (mainSetup_events _ _ _ _ Hsetup)). }
  pose proof (summariesWritten_none SetupEvent _ (fun p s F => F)
                (mainSetup_events _ _ _ _ Hsetup)) as Hs0.
  unfold Snapshotter.mainWalk.
  destruct (Snapshotter.getAllPackages0 H _ _) as [walk|] eqn:Hwalk; [|discriminate].
  pose proof (summariesWritten_none (FromDisk H (Snapshotter.world H r0)) _ (fun p s F => F)
                (getAllPackages_fromDisk H _ _ _ _ _ _ _ Hwalk)) as Hs1.
  cbv zeta. destruct (Snapshotter.packages walk) as [|pkg0 pkgs] eqn:Hpk.
  { cbn. intros [= <- <-]. left. cbn.
    now rewrite !summariesWritten_app, Hs0, Hs1. }
  cbn [length Nat.eqb].
  cbn [Snapshotter.world Snapshotter.say Snapshotter.setWorld Snapshotter.trace].
  intros Hmain. right.
  exists r0, walk, dependencies, devDependencies.
  rewrite Hpk. split; [reflexivity | split; [exact Hwalk | split; [discriminate|]]].
  destruct (writeSummary H _ _ _) as [w' [[]|message]]; injection Hmain as <- <-.
  - destruct (Nat.ltb _ _); cbn [Snapshotter.say Snapshotter.trace];
      rewrite !summariesWritten_app, forEach_summaries;
      cbn [Snapshotter.say Snapshotter.trace Snapshotter.setWorld];
      rewrite !summariesWritten_app, Hs0, Hs1; reflexivity.
  - cbn [Snapshotter.say Snapshotter.trace Snapshotter.setWorld].
    rewrite !summariesWritten_app, Hs0, Hs1. reflexivity.
Qed.

(** For a list without repeated keys the list of unique packages is the
    list itself in another order. *)
Lemma uniquePackages_perm (H : Host) (l : list PackageInfo) :
  NoDup (packageKey <$> l) → Permutation (Snapshotter.uniquePackages H l) l.
Proof.
  intros Hn. unfold Snapshotter.uniquePackages. rewrite (newMap_nodup l Hn). apply sort_perm.
Qed.

(** X10.  A summary that [main] writes goes to [packages-summary.json], is
    the only one of the run, and lists exactly the packages that the walk of
    this run returned, each once: the walk of [node_modules] in the world
    that the part of [main] before it left.  The deduplication of lines
    270-272 removes nothing.  The count of the summary is the length of its
    list and is not 0, its two dependency counts are those of the project's
    [package.json] as [main] read it, and its time stamp is the constant of
    line 239. *)
Theorem main_summary_content (H : Host) (w : World H) (r : Snapshotter.Run H)
    (res : completion unit) (p : string) (s : Summary) :
  Snapshotter.main H w = Some (r, res) →
  Snapshotter.WriteFile p s ∈ Snapshotter.trace H r →
  p = "packages-summary.json"
  ∧ summariesWritten (Snapshotter.trace H r) = [(p, s)]
  ∧ totalPackages s = length (summaryPackages s)
  ∧ 0 < totalPackages s
  ∧ NoDup (packageKey <$> summaryPackages s)
  ∧ generatedAt s = "2025-04-27 10:29:54"
  ∧ ∃ r0 walk (dependencyKeys devDependencyKeys : list string),
      Snapshotter.mainSetup H w = (r0, Normal (dependencyKeys, devDependencyKeys))
      ∧ Snapshotter.getAllPackages0 H (Snapshotter.world H r0)
          (path_join H (process_cwd H) "node_modules") = Some walk
      ∧ Permutation (summaryPackages s) (Snapshotter.packages walk)
      ∧ summaryPackages s = Snapshotter.uniquePackages H (Snapshotter.packages walk)
      ∧ directDependencies s = length dependencyKeys
      ∧ devDependencies s = length devDependencyKeys.
Proof.
  intros Hmain Hin%summariesWritten_elem.
  destruct (main_summaries H w r res Hmain)
    as [Hnone|(r0 & walk & dependencyKeys & devDependencyKeys & Hsetup & Hwalk & Hne & Hs)].
  { rewrite Hnone in Hin. now apply elem_of_nil in Hin. }
  rewrite Hs in Hin. apply list_elem_of_singleton in Hin. injection Hin as -> ->.
  pose proof (getAllPackages_inv _ _ _ _ _ _ _ _ Hwalk) as [_ Hn _ _ _ _].
  pose proof (uniquePackages_perm H _ Hn) as Hperm.
  cbn [totalPackages summaryPackages generatedAt directDependencies devDependencies].
  split_and!.
  - reflexivity.
  - exact Hs.
  - reflexivity.
  - rewrite (Permutation_length Hperm). destruct (Snapshotter.packages walk); [congruence|].
    cbn. lia.
  - now rewrite (fmap_Permutation packageKey _ _ Hperm).
  - reflexivity.
  - exists r0, walk, dependencyKeys, devDependencyKeys. split_and!; auto.
Qed.

Lemma main_summary_content_witness :
  ∃ r s,
    Snapshotter.main (TableHost.host []) TableHost.nestedCopy = Some (r, Normal ())
    ∧ Snapshotter.WriteFile "packages-summary.json" s ∈ Snapshotter.trace (TableHost.host []) r
    ∧ totalPackages s = length (summaryPackages s)
    ∧ NoDup (packageKey <$> summaryPackages s).
Proof.
  destruct (Snapshotter.main (TableHost.host []) TableHost.nestedCopy) as [[r res]|] eqn:E;
    [|vm_compute in E; discriminate].
  assert (Hres : res = Normal ()) by (vm_compute in E; now injection E as _ <-).
  subst res.
  assert (Hin : Snapshotter.WriteFile "packages-summary.json"
                  (mkSummary 2 2 0 "2025-04-27 10:29:54"
                     [mkPackageInfo "a" "1.0.0"; mkPackageInfo "b" "2.0.0"])
                ∈ Snapshotter.trace (TableHost.host []) r).
  { vm_compute in E. injection E as <-. apply list_elem_of_In. cbn.
    repeat (first [left; reflexivity | right]). }
  eexists r, _. split; [reflexivity | split; [exact Hin|]].
  destruct (main_summary_content _ _ r _ _ _ E Hin) as (_ & _ & Ht & _ & Hn & _).
  split; [exact Ht | exact Hn].
Defined.

(** The callback of the loop counts every package once. *)
Lemma forEachBody_tally (H : Host) (outputDir : string) (total index : nat)
    (r : Snapshotter.Run H) (pkg : PackageInfo) :
  let r' := Snapshotter.forEachBody H outputDir total r index pkg in
  Snapshotter.successCount H r' + Snapshotter.failCount H r'
  = Snapshotter.successCount H r + Snapshotter.failCount H r + 1
  ∧ Snapshotter.skippedCount H r ≤ Snapshotter.skippedCount H r'
  ∧ Snapshotter.skippedCount H r' + Snapshotter.successCount H r
    ≤ Snapshotter.skippedCount H r + Snapshotter.successCount H r'
  ∧ length (Snapshotter.createCommands (Snapshotter.trace H r')) + Snapshotter.skippedCount H r'
    = length (Snapshotter.createCommands (Snapshotter.trace H r))
      + Snapshotter.skippedCount H r + 1.
Proof.
  cbv zeta. unfold Snapshotter.forEachBody, Snapshotter.createPackageFile.
  destruct (Snapshotter.isPackageAlreadyDownloaded H _ _ _ _).
  - cbn. unfold Snapshotter.createCommands. rewrite flat_map_app, length_app. cbn. lia.
  - cbn [Snapshotter.world Snapshotter.say].
    destruct (exec H _ _ _) as [w' [output|message]]; cbn;
      unfold Snapshotter.createCommands; rewrite !flat_map_app, !length_app; cbn; lia.
Qed.

(** X11.  The loop over the unique packages handles every package, whatever
    [npm pack] does: the successes and the failures grow by the number of
    packages, a skipped package is counted as a success, and the commands run
    and the packages skipped add up to the number of packages. *)
Theorem forEach_tally (H : Host) (outputDir : string) (total : nat) (l : list PackageInfo)
    (index : nat) (r : Snapshotter.Run H) :
  let r' := Snapshotter.forEach H (Snapshotter.forEachBody H outputDir total) index l r in
  Snapshotter.successCount H r' + Snapshotter.failCount H r'
  = Snapshotter.successCount H r + Snapshotter.failCount H r + length l
  ∧ Snapshotter.skippedCount H r ≤ Snapshotter.skippedCount H r'
  ∧ Snapshotter.skippedCount H r' + Snapshotter.successCount H r
    ≤ Snapshotter.skippedCount H r + Snapshotter.successCount H r'
  ∧ length (Snapshotter.createCommands (Snapshotter.trace H r')) + Snapshotter.skippedCount H r'
    = length (Snapshotter.createCommands (Snapshotter.trace H r))
      + Snapshotter.skippedCount H r + length l.
Proof.
  cbv zeta. revert index r. induction l as [|pkg l IH]; intros index r;
    cbn [Snapshotter.forEach length]; [lia|].
  specialize (IH (index + 1) (Snapshotter.forEachBody H outputDir total r index pkg)).
  pose proof (forEachBody_tally H outputDir total index r pkg) as Hstep.
  cbv zeta in Hstep. lia.
Qed.

Lemma forEach_tally_witness :
  let H := TableHost.host Samples.packsB in
  let r := Snapshotter.forEach H (Snapshotter.forEachBody H "/proj/pkg" 3) 0
             Samples.threePackages (Snapshotter.mkRun H Samples.partlyArchived [] 0 0 0) in
  Snapshotter.successCount H r = 2 ∧ Snapshotter.skippedCount H r = 1
  ∧ Snapshotter.failCount H r = 1
  ∧ Snapshotter.createCommands (Snapshotter.trace H r) = ["npm pack b@2.0.0"; "npm pack c@3.0.0"]
  ∧ Snapshotter.successCount H r + Snapshotter.failCount H r = 3.
Proof.
  cbv zeta. repeat (split; [reflexivity|]).
  exact (proj1 (forEach_tally (TableHost.host Samples.packsB) "/proj/pkg" 3
                  Samples.threePackages 0
                  (Snapshotter.mkRun (TableHost.host Samples.packsB)
                     Samples.partlyArchived [] 0 0 0))).
Defined.

Lemma setup_quiet (l : list Snapshotter.Event) :
  Forall SetupEvent l →
  Snapshotter.createCommands l = [] ∧ Snapshotter.filesWritten l = []
  ∧ ∀ d p info, Snapshotter.ReadManifest d p info ∉ l.
Proof.
  induction 1 as [|e l He _ (Hc & Hw & Hr)];
    [split; [reflexivity | split; [reflexivity | intros; apply not_elem_of_nil]]|].
  unfold Snapshotter.createCommands, Snapshotter.filesWritten in *. cbn [flat_map].
  rewrite Hc, Hw. destruct e; try contradiction; (split; [reflexivity | split; [reflexivity|]]);
    intros d p info [E|Hin]%elem_of_cons; try discriminate; now apply Hr in Hin.
Qed.

(** X12.  [main] needs the [package.json] of the project.  When the
    output directory and the error log are dealt with without an error
    (lines 248-253) and, in the world they leave, the project's
    [package.json] does not exist or cannot be read, then
    [getProjectDirectDependencies] returns the empty object, and [main] ends
    at line 257 with the [TypeError] of [Object.keys(undefined)], in that
    same world: before the walk, without a manifest read, a summary written
    or a command run.  The last thing the run did was to report the missing
    or unreadable file. *)
Theorem main_needs_project_json (H : Host) (w w2 : World H) :
  setupWorld H w = Some w2 →
  existsSync H w2 (path_join H (process_cwd H) "package.json") = false
  ∨ (∃ message, readJson H w2 (path_join H (process_cwd H) "package.json") = Throw message) →
  (∀ r0, Snapshotter.world H r0 = w2 →
         snd (Snapshotter.getProjectDirectDependencies H r0) = None)
  ∧ ∃ r,
      Snapshotter.main H w = Some (r, Throw "Cannot convert undefined or null to object")
      ∧ Snapshotter.world H r = w2
      ∧ (last (Snapshotter.trace H r) = Some (Snapshotter.ConsoleLog Snapshotter.MsgNoProjectJson)
         ∨ ∃ message,
             last (Snapshotter.trace H r)
             = Some (Snapshotter.LogError (Snapshotter.MsgProjectJsonError message)))
      ∧ Snapshotter.createCommands (Snapshotter.trace H r) = []
      ∧ Snapshotter.filesWritten (Snapshotter.trace H r) = []
      ∧ ∀ d p info, Snapshotter.ReadManifest d p info ∉ Snapshotter.trace H r.
Proof.
  intros Hsetup Hjson.
  assert (Hdeps : ∀ r0, Snapshotter.world H r0 = w2 →
            ∃ e, Snapshotter.getProjectDirectDependencies H r0
                 = (Snapshotter.say H e r0, None)
               ∧ (e = Snapshotter.ConsoleLog Snapshotter.MsgNoProjectJson
                  ∨ ∃ message, e = Snapshotter.LogError (Snapshotter.MsgProjectJsonError message))).
  { intros r0 Hw. unfold Snapshotter.getProjectDirectDependencies. rewrite Hw.
    destruct (existsSync H w2 _) eqn:Hex; cbn [negb]; [|eauto].
    destruct Hjson as [Hno | [message Hm]]; [congruence|]. rewrite Hm. eauto. }
  split.
  { intros r0 Hw. destruct (Hdeps r0 Hw) as (e & -> & _). reflexivity. }
  assert (Hmain : ∃ r e,
            Snapshotter.mainSetup H w
            = (Snapshotter.say H e r, Throw "Cannot convert undefined or null to object")
            ∧ Snapshotter.world H r = w2
            ∧ (e = Snapshotter.ConsoleLog Snapshotter.MsgNoProjectJson
               ∨ ∃ message,
                   e = Snapshotter.LogError (Snapshotter.MsgProjectJsonError message))).
  { unfold setupWorld in Hsetup.
    unfold Snapshotter.mainSetup, Snapshotter.createDirIfNotExists.
    cbn [Snapshotter.world Snapshotter.say Snapshotter.setWorld Snapshotter.trace].
    destruct (existsSync H w (path_join H (process_cwd H) "pkg")); cbn [negb].
    - cbn [Snapshotter.world Snapshotter.say Snapshotter.setWorld Snapshotter.trace].
      destruct (existsSync H w "error.log").
      + destruct (unlinkSync H w "error.log") as [w' [[]|message]]; [|discriminate].
        injection Hsetup as ->.
        cbn [Snapshotter.world Snapshotter.say Snapshotter.setWorld Snapshotter.trace].
        match goal with
        | |- context [Snapshotter.getProjectDirectDependencies H ?r0] =>
            destruct (Hdeps r0 eq_refl) as (e & -> & He); exists r0, e
        end.
        auto.
      + injection Hsetup as ->.
        match goal with
        | |- context [Snapshotter.getProjectDirectDependencies H ?r0] =>
            destruct (Hdeps r0 eq_refl) as (e & -> & He); exists r0, e
        end.
        auto.
    - destruct (mkdirSync H w _) as [w1 [[]|message]]; [|discriminate].
      cbn [Snapshotter.world Snapshotter.say Snapshotter.setWorld Snapshotter.trace].
      destruct (existsSync H w1 "error.log").
      + destruct (unlinkSync H w1 "error.log") as [w' [[]|message]]; [|discriminate].
        injection Hsetup as ->.
        cbn [Snapshotter.world Snapshotter.say Snapshotter.setWorld Snapshotter.trace].
        match goal with
        | |- context [Snapshotter.getProjectDirectDependencies H ?r0] =>
            destruct (Hdeps r0 eq_refl) as (e & -> & He); exists r0, e
        end.
        auto.
      + injection Hsetup as ->.
        match goal with
        | |- context [Snapshotter.getProjectDirectDependencies H ?r0] =>
            destruct (Hdeps r0 eq_refl) as (e & -> & He); exists r0, e
        end.
        auto. }
  destruct Hmain as (r & e & Hms & Hw & He).
  pose proof (setup_quiet _ (mainSetup_events _ _ _ _ Hms)) as (Hc & Hf & Hr).
  exists (Snapshotter.say H e r). unfold Snapshotter.main. rewrite Hms.
  split; [reflexivity|]. split; [exact Hw|]. split.
  { cbn [Snapshotter.say Snapshotter.trace]. rewrite last_snoc.
    destruct He as [-> | [message ->]]; eauto. }
  auto.
Qed.

Lemma main_needs_project_json_witness :
  ∃ r,
    Snapshotter.main (TableHost.host []) TableHost.emptyProject
    = Some (r, Throw "Cannot convert undefined or null to object")
    ∧ last (Snapshotter.trace (TableHost.host []) r)
      = Some (Snapshotter.ConsoleLog Snapshotter.MsgNoProjectJson)
    ∧ Snapshotter.createCommands (Snapshotter.trace (TableHost.host []) r) = [].
Proof.
  destruct (main_needs_project_json (TableHost.host []) TableHost.emptyProject
              (fst (TableHost.mkdir TableHost.emptyProject "/proj/pkg")) eq_refl
              (or_introl eq_refl))
    as (_ & r & Hmain & _ & Hlast & Hc & _).
  exists r. split; [exact Hmain|]. split; [|exact Hc].
  destruct Hlast as [Hlast | [message Hlast]]; [exact Hlast|].
  exfalso. vm_compute in Hmain. injection Hmain as <-. discriminate Hlast.
Defined.

(** ** The publisher: tallies, queries and commands *)

(** One turn of the loop: a file that the decoder reads costs one query
    and is then skipped or published; any other file is a failure without a
    command. *)
Lemma loopBody_step (H : Host) (tgzDir registry : string) (n i : nat) (file : string)
    (r : Publisher.Run H) :
  let r' := Publisher.loopBody H tgzDir registry n r i file in
  let one := if parsable file then 1 else 0 in
  ∃ queries commands,
    registryQueries (Publisher.trace H r') = registryQueries (Publisher.trace H r) ++ queries
    ∧ Publisher.publishCommands (Publisher.trace H r')
      = Publisher.publishCommands (Publisher.trace H r) ++ commands
    ∧ length queries = one
    ∧ (commands = [] ∨ commands = [Publisher.publishCommand (path_join H tgzDir file) registry])
    ∧ Publisher.successCount H r' + Publisher.failureCount H r' + Publisher.skippedCount H r'
      = Publisher.successCount H r + Publisher.failureCount H r + Publisher.skippedCount H r + 1
    ∧ length commands + Publisher.skippedCount H r' = Publisher.skippedCount H r + one
    ∧ Publisher.successCount H r ≤ Publisher.successCount H r'
    ∧ Publisher.successCount H r' ≤ Publisher.successCount H r + length commands.
Proof.
  cbv zeta. unfold Publisher.loopBody, parsable.
  destruct (extractPackageInfo file) as [info|].
  2:{ exists [], []. unfold Publisher.log. cbn.
      rewrite registryQueries_app, publishCommands_app. cbn.
      split_and!; auto; lia. }
  unfold Publisher.isPackagePublished, Publisher.log.
  cbn [Publisher.world Publisher.say Publisher.trace].
  exists [Publisher.viewCommand (name info) (version info) registry].
  destruct (exec H (Publisher.world H r) _ None) as [w1 [stdout|message]].
  - destruct (String.eqb (Js.trim stdout) (version info)).
    + exists []. cbn. rewrite !registryQueries_app, !publishCommands_app. cbn.
      rewrite !List.app_nil_r. split_and!; auto; lia.
    + exists [Publisher.publishCommand (path_join H tgzDir file) registry].
      cbn [Publisher.world Publisher.say Publisher.trace Publisher.setWorld].
      destruct (exec H w1 _ None) as [w2 [out|message]]; cbn;
        rewrite !registryQueries_app, !publishCommands_app; cbn;
        rewrite !List.app_nil_r; split_and!; auto; lia.
  - exists [Publisher.publishCommand (path_join H tgzDir file) registry].
    cbn [Publisher.world Publisher.say Publisher.trace Publisher.setWorld].
    destruct (exec H w1 _ None) as [w2 [out|message2]]; cbn;
      rewrite !registryQueries_app, !publishCommands_app; cbn;
      rewrite !List.app_nil_r; split_and!; auto; lia.
Qed.

Lemma loop_steps (H : Host) (tgzDir registry : string) (n : nat) (files : list string) :
  ∀ (i : nat) (r : Publisher.Run H),
    let r' := Publisher.loop H (Publisher.loopBody H tgzDir registry n) i files r in
    let read := length (List.filter parsable files) in
    ∃ queries commands,
      registryQueries (Publisher.trace H r') = registryQueries (Publisher.trace H r) ++ queries
      ∧ Publisher.publishCommands (Publisher.trace H r')
        = Publisher.publishCommands (Publisher.trace H r) ++ commands
      ∧ length queries = read
      ∧ commands `sublist_of`
          map (fun file => Publisher.publishCommand (path_join H tgzDir file) registry) files
      ∧ Publisher.successCount H r' + Publisher.failureCount H r' + Publisher.skippedCount H r'
        = Publisher.successCount H r + Publisher.failureCount H r + Publisher.skippedCount H r
          + length files
      ∧ length commands + Publisher.skippedCount H r' = Publisher.skippedCount H r + read
      ∧ Publisher.successCount H r ≤ Publisher.successCount H r'
      ∧ Publisher.successCount H r' ≤ Publisher.successCount H r + length commands.
Proof.
  induction files as [|file files IH]; intros i r; cbv zeta; cbn [Publisher.loop].
  - exists [], []. rewrite !List.app_nil_r. cbn. split_and!; auto; lia.
  - destruct (loopBody_step H tgzDir registry n i file r)
      as (q1 & c1 & Hq1 & Hc1 & Hl1 & Hone & Ht1 & Hk1 & Hs1 & Hs1').
    destruct (IH (i + 1) (Publisher.loopBody H tgzDir registry n r i file))
      as (q2 & c2 & Hq2 & Hc2 & Hl2 & Hsub & Ht2 & Hk2 & Hs2 & Hs2').
    cbv zeta in *. exists (q1 ++ q2), (c1 ++ c2).
    rewrite Hq2, Hq1, Hc2, Hc1, !List.app_assoc, !length_app.
    cbn [List.filter map length].
    assert (Hread : length (List.filter parsable (file :: files))
                    = (if parsable file then 1 else 0) + length (List.filter parsable files)).
    { cbn. now destruct (parsable file). }
    cbn [List.filter] in Hread. rewrite Hread.
    split_and!; auto; try lia.
    destruct Hone as [-> | ->]; cbn; [now apply sublist_cons | now apply sublist_skip].
Qed.

(** X13.  When the directory exists and can be listed, the publisher ends
    with status 0 whatever the registry and [npm publish] do, and its tallies
    fit: every file that ends in [.tgz] is counted once, as a success, a
    failure or skipped; the registry is asked once for each of them that the
    decoder reads; each of those is skipped or gets one publish command; and
    no success is counted without a publish command. *)
Theorem publisher_tallies (H : Host) (w : World H) (arg0 : string) (rest entries : list string) :
  existsSync H w (path_resolve H arg0) = true →
  readdirSync H w (path_resolve H arg0) = Normal entries →
  let files := List.filter (fun file => Js.endsWith file ".tgz") entries in
  ∃ r, Publisher.script H (arg0 :: rest) w = (r, 0)
    ∧ Publisher.successCount H r + Publisher.failureCount H r + Publisher.skippedCount H r
      = length files
    ∧ length (registryQueries (Publisher.trace H r)) = length (List.filter parsable files)
    ∧ length (Publisher.publishCommands (Publisher.trace H r)) + Publisher.skippedCount H r
      = length (List.filter parsable files)
    ∧ Publisher.successCount H r ≤ length (Publisher.publishCommands (Publisher.trace H r)).
Proof.
  intros He Hr. cbv zeta. unfold Publisher.script, Publisher.main.
  cbn [Publisher.world Publisher.say]. rewrite He, Hr. cbn [negb].
  destruct (List.filter (fun file => Js.endsWith file ".tgz") entries) as [|file files] eqn:Hf.
  { eexists. split; [reflexivity|]. cbn. auto. }
  cbn [length Nat.eqb]. unfold Publisher.log.
  match goal with
  | |- context [Publisher.loop H ?body 0 ?fs ?r0] =>
      destruct (loop_steps H (path_resolve H arg0)
                  (Js.or_default (head rest) Publisher.defaultRegistry)
                  (S (length files)) fs 0 r0)
        as (q & c & Hq & Hc & Hlq & _ & Ht & Hk & _ & Hs)
  end.
  cbv zeta in *. eexists. split; [reflexivity|].
  cbn [Publisher.say Publisher.trace Publisher.successCount Publisher.failureCount
       Publisher.skippedCount] in *.
  rewrite !registryQueries_app, !publishCommands_app, Hq, Hc.
  rewrite !length_app.
  cbn [registryQueries Publisher.publishCommands flat_map app length].
  cbn [length] in Ht. split_and!; lia.
Qed.

Lemma publisher_tallies_witness :
  let H := TableHost.host TableHost.lodashOnly in
  ∃ r, Publisher.script H ["/archives"] Samples.mixedArchives = (r, 0)
    ∧ Publisher.successCount H r + Publisher.failureCount H r + Publisher.skippedCount H r = 3
    ∧ length (registryQueries (Publisher.trace H r)) = 2.
Proof.
  cbv zeta.
  destruct (publisher_tallies (TableHost.host TableHost.lodashOnly) Samples.mixedArchives
              "/archives" []
              ["README.md"; "lodash-4.17.21.tgz"; "broken.tgz"; "scope-utils-2.3.4.tgz"]
              eq_refl eq_refl) as (r & Hrun & Ht & Hq & _).
  exists r. split; [exact Hrun | split; [exact Ht | exact Hq]].
Defined.

(** X14.  The publish commands of a run are, in the order of the listing,
    commands for files of the listing that end in [.tgz], each file at most
    once: no other path is ever given to [npm publish], and none out of
    turn. *)
Theorem publish_commands_follow_listing (H : Host) (w : World H) (arg0 : string)
    (rest entries : list string) :
  existsSync H w (path_resolve H arg0) = true →
  readdirSync H w (path_resolve H arg0) = Normal entries →
  let registry := Js.or_default (head rest) Publisher.defaultRegistry in
  let files := List.filter (fun file => Js.endsWith file ".tgz") entries in
  Publisher.publishCommands (Publisher.trace H (fst (Publisher.script H (arg0 :: rest) w)))
    `sublist_of`
    map (fun file => Publisher.publishCommand (path_join H (path_resolve H arg0) file) registry)
        files.
Proof.
  intros He Hr. cbv zeta. unfold Publisher.script, Publisher.main.
  cbn [Publisher.world Publisher.say]. rewrite He, Hr. cbn [negb].
  destruct (List.filter (fun file => Js.endsWith file ".tgz") entries) as [|file files] eqn:Hf.
  { cbn. constructor. }
  cbn [length Nat.eqb]. unfold Publisher.log.
  match goal with
  | |- context [Publisher.loop H ?body 0 ?fs ?r0] =>
      destruct (loop_steps H (path_resolve H arg0)
                  (Js.or_default (head rest) Publisher.defaultRegistry)
                  (S (length files)) fs 0 r0)
        as (q & c & _ & Hc & _ & Hsub & _)
  end.
  cbv zeta in *.
  cbn [fst Publisher.say Publisher.trace] in *.
  rewrite !publishCommands_app, Hc.
  cbn [Publisher.publishCommands flat_map app].
  rewrite !List.app_nil_r. exact Hsub.
Qed.

Lemma publish_commands_follow_listing_witness :
  let H := TableHost.host TableHost.lodashOnly in
  Publisher.publishCommands
    (Publisher.trace H (fst (Publisher.script H ["/archives"] Samples.mixedArchives)))
    `sublist_of`
    [ Publisher.publishCommand "/archives/lodash-4.17.21.tgz" TableHost.registryUrl;
      Publisher.publishCommand "/archives/broken.tgz" TableHost.registryUrl;
      Publisher.publishCommand "/archives/scope-utils-2.3.4.tgz" TableHost.registryUrl ].
Proof.
  exact (publish_commands_follow_listing (TableHost.host TableHost.lodashOnly)
           Samples.mixedArchives "/archives" []
           ["README.md"; "lodash-4.17.21.tgz"; "broken.tgz"; "scope-utils-2.3.4.tgz"]
           eq_refl eq_refl).
Defined.

(** The loop over files that the registry all reports: each one is skipped
    and nothing else is counted or published. *)
Lemma loop_all_published (H : Host) (tgzDir registry : string) (n : nat)
    (files : list string) :
  (∀ file, In file files →
     ∃ info, extractPackageInfo file = Some info
       ∧ ∀ w, ∃ w' stdout,
           exec H w (Publisher.viewCommand (name info) (version info) registry) None
           = (w', Normal stdout)
           ∧ Js.trim stdout = version info) →
  ∀ (i : nat) (r : Publisher.Run H),
    let r' := Publisher.loop H (Publisher.loopBody H tgzDir registry n) i files r in
    Publisher.skippedCount H r' = Publisher.skippedCount H r + length files
    ∧ Publisher.successCount H r' = Publisher.successCount H r
    ∧ Publisher.failureCount H r' = Publisher.failureCount H r
    ∧ Publisher.publishCommands (Publisher.trace H r')
      = Publisher.publishCommands (Publisher.trace H r).
Proof.
  induction files as [|file files IH]; intros Hall i r; cbv zeta; cbn [Publisher.loop length].
  - split_and!; auto; lia.
  - destruct (Hall file (or_introl eq_refl)) as (info & Hinfo & Hview).
    destruct (Hview (Publisher.world H r)) as (w' & stdout & Hexec & Htrim).
    destruct (loopBody_published H tgzDir registry n i file stdout info r w' Hinfo Hexec Htrim)
      as (Hk & Hs & Hf & Hc).
    destruct (IH (fun f Hin => Hall f (or_intror Hin)) (i + 1)
                (Publisher.loopBody H tgzDir registry n r i file)) as (Hk' & Hs' & Hf' & Hc').
    cbv zeta in *. rewrite Hk', Hs', Hf', Hc', Hk, Hs, Hf, Hc. split_and!; auto; lia.
Qed.

(** X15.  When the registry reports the version of every archive of the
    directory, the run publishes nothing: no publish command is issued, no
    success and no failure is counted, and every archive is counted as
    skipped. *)
Theorem published_archives_all_skipped (H : Host) (w : World H) (arg0 : string)
    (rest entries : list string) :
  existsSync H w (path_resolve H arg0) = true →
  readdirSync H w (path_resolve H arg0) = Normal entries →
  let registry := Js.or_default (head rest) Publisher.defaultRegistry in
  let files := List.filter (fun file => Js.endsWith file ".tgz") entries in
  (∀ file, In file files →
     ∃ info, extractPackageInfo file = Some info
       ∧ ∀ w0, ∃ w' stdout,
           exec H w0 (Publisher.viewCommand (name info) (version info) registry) None
           = (w', Normal stdout)
           ∧ Js.trim stdout = version info) →
  ∃ r, Publisher.script H (arg0 :: rest) w = (r, 0)
    ∧ Publisher.publishCommands (Publisher.trace H r) = []
    ∧ Publisher.successCount H r = 0
    ∧ Publisher.failureCount H r = 0
    ∧ Publisher.skippedCount H r = length files.
Proof.
  intros He Hr. cbv zeta. unfold Publisher.script, Publisher.main.
  cbn [Publisher.world Publisher.say]. rewrite He, Hr. cbn [negb].
  destruct (List.filter (fun file => Js.endsWith file ".tgz") entries) as [|file files] eqn:Hf.
  { intros _. eexists. split; [reflexivity|]. cbn. auto. }
  intros Hall. cbn [length Nat.eqb]. unfold Publisher.log.
  match goal with
  | |- context [Publisher.loop H ?body 0 ?fs ?r0] =>
      destruct (loop_all_published H (path_resolve H arg0)
                  (Js.or_default (head rest) Publisher.defaultRegistry)
                  (S (length files)) fs Hall 0 r0)
        as (Hk & Hs & Hfl & Hc)
  end.
  cbv zeta in *. eexists. split; [reflexivity|].
  cbn [Publisher.say Publisher.trace Publisher.successCount Publisher.failureCount
       Publisher.skippedCount length] in *.
  rewrite !publishCommands_app, Hc.
  cbn [Publisher.publishCommands flat_map app].
  split_and!; [reflexivity | lia | lia | lia].
Qed.

Lemma published_archives_all_skipped_witness :
  let H := TableHost.host Samples.bothPublished in
  ∃ r, Publisher.script H ["/archives"] TableHost.plainArchives = (r, 0)
    ∧ Publisher.publishCommands (Publisher.trace H r) = []
    ∧ Publisher.skippedCount H r = 2.
Proof.
  cbv zeta.
  destruct (published_archives_all_skipped (TableHost.host Samples.bothPublished)
              TableHost.plainArchives "/archives" []
              ["lodash-4.17.21.tgz"; "scope-utils-2.3.4.tgz"] eq_refl eq_refl)
    as (r & Hrun & Hc & _ & _ & Hk).
  - intros file [<- | [<- | []]]; eexists; (split; [reflexivity|]);
      intros w0; exists w0; eexists; split; reflexivity.
  - exists r. split; [exact Hrun | split; [exact Hc | exact Hk]].
Defined.

(** ** The snapshotter: which packages are packed *)

Lemma createCommands_app (l1 l2 : list Snapshotter.Event) :
  Snapshotter.createCommands (l1 ++ l2)
  = Snapshotter.createCommands l1 ++ Snapshotter.createCommands l2.
Proof. apply flat_map_app. Qed.

Lemma createCommands_none (P : Snapshotter.Event → Prop) (l : list Snapshotter.Event) :
  (∀ command cwd, ¬ P (Snapshotter.ExecSync command cwd)) → Forall P l →
  Snapshotter.createCommands l = [].
Proof.
  intros HP. induction 1 as [|e l He _ IH]; [reflexivity|].
  change (e :: l) with ([e] ++ l). rewrite createCommands_app, IH.
  destruct e; try reflexivity. now apply HP in He.
Qed.

(** One turn of the loop runs no command or the one for its package. *)
Lemma forEachBody_commands (H : Host) (outputDir : string) (total index : nat)
    (r : Snapshotter.Run H) (pkg : PackageInfo) :
  ∃ commands,
    Snapshotter.createCommands
      (Snapshotter.trace H (Snapshotter.forEachBody H outputDir total r index pkg))
    = Snapshotter.createCommands (Snapshotter.trace H r) ++ commands
    ∧ (commands = [] ∨ commands = ["npm pack " +:+ name pkg +:+ "@" +:+ version pkg]).
Proof.
  unfold Snapshotter.forEachBody, Snapshotter.createPackageFile.
  destruct (Snapshotter.isPackageAlreadyDownloaded H _ _ _ _).
  - exists []. cbn. rewrite createCommands_app. cbn. rewrite !List.app_nil_r. auto.
  - exists ["npm pack " +:+ name pkg +:+ "@" +:+ version pkg].
    cbn [Snapshotter.world Snapshotter.say].
    destruct (exec H _ _ _) as [w' [output|message]]; cbn;
      rewrite !createCommands_app; cbn; rewrite !List.app_nil_r; auto.
Qed.

Lemma forEach_commands (H : Host) (outputDir : string) (total : nat) (l : list PackageInfo) :
  ∀ index r,
    ∃ commands,
      Snapshotter.createCommands
        (Snapshotter.trace H
           (Snapshotter.forEach H (Snapshotter.forEachBody H outputDir total) index l r))
      = Snapshotter.createCommands (Snapshotter.trace H r) ++ commands
      ∧ commands `sublist_of`
          map (fun pkg => "npm pack " +:+ name pkg +:+ "@" +:+ version pkg) l.
Proof.
  induction l as [|pkg l IH]; intros index r; cbn [Snapshotter.forEach map].
  - exists []. rewrite List.app_nil_r. split; [reflexivity | constructor].
  - destruct (forEachBody_commands H outputDir total index r pkg) as (c1 & Hc1 & Hone).
    destruct (IH (index + 1) (Snapshotter.forEachBody H outputDir total r index pkg))
      as (c2 & Hc2 & Hsub).
    exists (c1 ++ c2). rewrite Hc2, Hc1, List.app_assoc. split; [reflexivity|].
    destruct Hone as [-> | ->]; cbn; [now apply sublist_cons | now apply sublist_skip].
Qed.

(** X16.  [main] packs nothing but what its summary lists: the [npm pack]
    commands of a run are commands for packages of the summary it wrote, in
    the order of the summary and each package at most once; a run that writes
    no summary runs no command. *)
Theorem main_packs_summary_packages (H : Host) (w : World H) (r : Snapshotter.Run H)
    (res : completion unit) :
  Snapshotter.main H w = Some (r, res) →
  Snapshotter.createCommands (Snapshotter.trace H r)
    `sublist_of`
    flat_map (fun written =>
                map (fun pkg => "npm pack " +:+ name pkg +:+ "@" +:+ version pkg)
                    (summaryPackages (snd written)))
             (summariesWritten (Snapshotter.trace H r)).
Proof.
  unfold Snapshotter.main.
  destruct (Snapshotter.mainSetup H w) as [r0 [[dependencies devDependencies]|message]] eqn:Hsetup.
  2:{ intros [= <- <-].
      rewrite (proj1 (setup_quiet _ (mainSetup_events _ _ _ _ Hsetup))). apply sublist_nil_l. }
  pose proof (proj1 (setup_quiet _ (mainSetup_events _ _ _ _ Hsetup))) as Hc0.
  pose proof (summariesWritten_none SetupEvent _ (fun p s F => F)
                (mainSetup_events _ _ _ _ Hsetup)) as Hs0.
  unfold Snapshotter.mainWalk.
  destruct (Snapshotter.getAllPackages0 H _ _) as [walk|] eqn:Hwalk; [|discriminate].
  pose proof (createCommands_none (FromDisk H (Snapshotter.world H r0)) _ (fun c d F => F)
                (getAllPackages_fromDisk H _ _ _ _ _ _ _ Hwalk)) as Hc1.
  pose proof (summariesWritten_none (FromDisk H (Snapshotter.world H r0)) _ (fun p s F => F)
                (getAllPackages_fromDisk H _ _ _ _ _ _ _ Hwalk)) as Hs1.
  cbv zeta. destruct (Nat.eqb (length (Snapshotter.packages walk)) 0).
  { intros [= <- <-]. cbn. rewrite !createCommands_app, Hc0, Hc1. apply sublist_nil_l. }
  cbn [Snapshotter.world Snapshotter.say Snapshotter.setWorld Snapshotter.trace].
  intros Hmain.
  destruct (writeSummary H _ _ _) as [w' [[]|message]]; injection Hmain as <- <-.
  - match goal with
    | |- context [Snapshotter.forEach H ?body 0 ?l ?r1] =>
        destruct (forEach_commands H (path_join H (process_cwd H) "pkg") (length l) l 0 r1)
          as (commands & Hc & Hsub)
    end.
    destruct (Nat.ltb _ _); cbn [Snapshotter.say Snapshotter.trace];
      rewrite !summariesWritten_app, !createCommands_app, forEach_summaries, Hc;
      cbn [Snapshotter.say Snapshotter.trace Snapshotter.setWorld];
      rewrite !summariesWritten_app, !createCommands_app, Hs0, Hs1, Hc0, Hc1;
      cbn; rewrite !List.app_nil_r; exact Hsub.
  - cbn [Snapshotter.say Snapshotter.trace Snapshotter.setWorld].
    rewrite !createCommands_app, Hc0, Hc1. cbn. apply sublist_nil_l.
Qed.

Lemma main_packs_summary_packages_witness :
  ∃ r, Snapshotter.main (TableHost.host []) TableHost.nestedCopy = Some (r, Normal ())
    ∧ Snapshotter.createCommands (Snapshotter.trace (TableHost.host []) r)
        `sublist_of`
        flat_map (fun written =>
                    map (fun pkg => "npm pack " +:+ name pkg +:+ "@" +:+ version pkg)
                        (summaryPackages (snd written)))
                 (summariesWritten (Snapshotter.trace (TableHost.host []) r)).
Proof.
  destruct (Snapshotter.main (TableHost.host []) TableHost.nestedCopy) as [[r res]|] eqn:E;
    [|vm_compute in E; discriminate].
  assert (Hres : res = Normal ()) by (vm_compute in E; now injection E as _ <-).
  subst res. exists r. split; [reflexivity|].
  exact (main_packs_summary_packages (TableHost.host []) TableHost.nestedCopy r (Normal ()) E).
Defined.

(** ** The walk: an entry that cannot be examined *)

(** Entries that are not directories leave the walk as it is. *)
Lemma forOf_files (H : Host) (w : World H)
    (nested : string → gset string → option Snapshotter.Walk) (depth : nat)
    (nodeModulesPath : string) (entries : list string) (st : Snapshotter.Walk) :
  (∀ e, In e entries → isDirectory H w (path_join H nodeModulesPath e) = Normal false) →
  ∀ rest,
    Snapshotter.forOf (Snapshotter.visitEntry H w nested depth nodeModulesPath)
      (entries ++ rest) st
    = Snapshotter.forOf (Snapshotter.visitEntry H w nested depth nodeModulesPath) rest st.
Proof.
  induction entries as [|e entries IH]; intros Hfiles rest; [reflexivity|].
  cbn [app Snapshotter.forOf].
  assert (He : Snapshotter.visitEntry H w nested depth nodeModulesPath e st = Some (st, None)).
  { unfold Snapshotter.visitEntry, Snapshotter.visitNamespace, Snapshotter.visitPackage.
    rewrite (Hfiles e (or_introl eq_refl)).
    destruct (Js.startsWith e "@"); [reflexivity|].
    now destruct (negb _ && negb _ && negb _). }
  rewrite He. apply IH. intros e' Hin. apply Hfiles. now right.
Qed.

(** X17.  An entry of [node_modules] whose [statSync] fails ends the scan of
    that directory: the error is logged once for the directory and the
    entries listed after it are not visited, whatever they are.  With nothing
    but files listed before it, the call returns no package and leaves the
    set as it was. *)
Theorem stat_failure_ends_scan (H : Host) (w : World H) (fuel depth maxDepth : nat)
    (nodeModulesPath : string) (before : gset string) (pre post : list string)
    (entry message : string) :
  depth ≤ maxDepth →
  existsSync H w nodeModulesPath = true →
  readdirSync H w nodeModulesPath = Normal (pre ++ entry :: post) →
  (∀ e, In e pre → isDirectory H w (path_join H nodeModulesPath e) = Normal false) →
  entry ≠ ".bin" → entry ≠ ".cache" → entry ≠ ".package-lock.json" →
  isDirectory H w (path_join H nodeModulesPath entry) = Throw message →
  Snapshotter.getAllPackages H (S fuel) w nodeModulesPath before depth maxDepth
  = Some (Snapshotter.mkWalk [] before
            [Snapshotter.LogError (Snapshotter.MsgDirError nodeModulesPath message)]).
Proof.
  intros Hd He Hr Hpre Hbin Hcache Hlock Hstat.
  cbn [Snapshotter.getAllPackages].
  apply Nat.ltb_ge in Hd. rewrite Hd, He, Hr. cbn [negb].
  rewrite (forOf_files H w _ depth nodeModulesPath pre _ Hpre).
  cbn [Snapshotter.forOf].
  assert (Hv : ∀ nested st,
             Snapshotter.visitEntry H w nested depth nodeModulesPath entry st
             = Some (st, Some message)).
  { intros nested st.
    unfold Snapshotter.visitEntry, Snapshotter.visitNamespace, Snapshotter.visitPackage.
    rewrite Hstat.
    apply String.eqb_neq in Hbin, Hcache, Hlock. rewrite Hbin, Hcache, Hlock.
    now destruct (Js.startsWith entry "@"). }
  rewrite Hv. reflexivity.
Qed.

Lemma stat_failure_ends_scan_witness :
  Snapshotter.getAllPackages0 (TableHost.host []) Samples.danglingEntry "/proj/node_modules"
  = Some (Snapshotter.mkWalk [] ∅
            [Snapshotter.LogError (Snapshotter.MsgDirError "/proj/node_modules" "ENOENT")]).
Proof.
  apply (stat_failure_ends_scan (TableHost.host []) Samples.danglingEntry 11 0 10
           "/proj/node_modules" ∅ ["README.md"] ["b"] "ghost" "ENOENT").
  - apply Nat.le_0_l.
  - reflexivity.
  - reflexivity.
  - intros e [<- | []]. reflexivity.
  - discriminate.
  - discriminate.
  - discriminate.
  - reflexivity.
Defined.
